(** * rljson/bs: the multi-tier blob store [BsMulti] (src/bs-multi.ts)

    A shallow embedding of [BsMulti] over the [Bs] interface of src/bs.ts.
    The underlying stores are objects on a heap; every call [BsMulti] makes
    on one of them is recorded in a call log, so that "which store was
    contacted, and with what" is a property of the final world. *)

From Stdlib Require Import List String Ascii ZArith Lia Bool Arith.
From Stdlib Require Import Permutation Sorted DecimalString DecimalNat.
From Stdlib Require OrderedTypeEx.
Import ListNotations.

Local Open Scope string_scope.
Local Open Scope Z_scope.

(* ====================================================================== *)
(** ** The JavaScript built-ins the source relies on *)

Module Js.

(** [s.includes(needle)] *)
Definition includes (s needle : string) : bool :=
  match String.index 0 needle s with
  | Some _ => true
  | None => false
  end.

(** Truthiness of a string: only the empty string is falsy. *)
Definition truthy (s : string) : bool := negb (s =? "")%string.

(** Truthiness of [string | undefined]. *)
Definition truthyOpt (o : option string) : bool :=
  match o with
  | Some s => truthy s
  | None => false
  end.

(** [a ?? b] *)
Definition nullish {A : Type} (a : option A) (b : A) : A :=
  match a with
  | Some x => x
  | None => b
  end.

(** [`${n}`] for an array index. *)
Definition numberToString (n : nat) : string :=
  NilEmpty.string_of_uint (Nat.to_uint n).

(** [Array.prototype.sort(cmp)].  The language fixes it to be stable; for a
    consistent comparator every stable sort computes the same array, here
    by insertion from the right: an element goes before the first element
    it is not greater than, so among equals the earlier one stays first. *)
Fixpoint insertBy {A : Type} (cmp : A -> A -> Z) (x : A) (l : list A)
  : list A :=
  match l with
  | [] => [x]
  | y :: ys => if cmp x y <=? 0 then x :: y :: ys else y :: insertBy cmp x ys
  end.

Definition sort {A : Type} (cmp : A -> A -> Z) (l : list A) : list A :=
  fold_right (insertBy cmp) [] l.

(** [Array.prototype.findIndex(p)]: the first index satisfying [p], or -1. *)
Fixpoint findIndexFrom {A : Type} (p : A -> bool) (l : list A) (i : Z) : Z :=
  match l with
  | [] => -1
  | x :: xs => if p x then i else findIndexFrom p xs (i + 1)
  end.

Definition findIndex {A : Type} (p : A -> bool) (l : list A) : Z :=
  findIndexFrom p l 0.

(** [Array.prototype.slice(start, end)], negative indices counted from the
    end as the language specifies. *)
Definition slice {A : Type} (l : list A) (start end_ : Z) : list A :=
  let len := Z.of_nat (List.length l) in
  let k := if start <? 0 then Z.max (len + start) 0 else Z.min start len in
  let final := if end_ <? 0 then Z.max (len + end_) 0 else Z.min end_ len in
  firstn (Z.to_nat (final - k)) (skipn (Z.to_nat k) l).

(** [arr[arr.length - 1]], [undefined] on the empty array. *)
Fixpoint lastElem {A : Type} (l : list A) : option A :=
  match l with
  | [] => None
  | [x] => Some x
  | _ :: xs => lastElem xs
  end.

(** A [Map<string, V>]: [values()] iterates in insertion order, so the map
    is an association list that [set] extends at the end. *)
Definition Map (V : Type) : Type := list (string * V).

Definition mapHas {V : Type} (m : Map V) (k : string) : bool :=
  existsb (fun kv => (fst kv =? k)%string) m.

Fixpoint mapSet {V : Type} (m : Map V) (k : string) (v : V) : Map V :=
  match m with
  | [] => [(k, v)]
  | (k', v') :: rest =>
      if (k' =? k)%string then (k', v) :: rest else (k', v') :: mapSet rest k v
  end.

Definition mapValues {V : Type} (m : Map V) : list V := map snd m.

End Js.

(* ====================================================================== *)
(** ** Data model (src/bs.ts) *)

Definition BlobId := string.

(** A [Buffer]: the bytes of a blob. *)
Definition Content := string.

Record BlobProperties : Type := mkBlobProperties {
  blobId : BlobId;
  size : Z;
  createdAt : Z
}.

Record Range : Type := mkRange {
  start : Z;
  end_ : option Z
}.

Record DownloadBlobOptions : Type := mkDownloadBlobOptions {
  range : option Range
}.

Record ListBlobsOptions : Type := mkListBlobsOptions {
  prefix : option string;
  maxResults : option Z;
  continuationToken : option string
}.

Record ListBlobsResult : Type := mkListBlobsResult {
  blobs : list BlobProperties;
  nextToken : option string  (* the [continuationToken] field of the result *)
}.

Inductive Permission : Type := PermRead | PermDelete.

(** A thrown [Error]; only its message is ever inspected. *)
Record Error : Type := mkError { message : string }.

Inductive Result (A : Type) : Type :=
| Ok (a : A)
| Throw (e : Error).
Arguments Ok {A} a.
Arguments Throw {A} e.

(** References to store objects. *)
Definition Ref := nat.

(** One entry of the call log: a method invoked on a store object. *)
Inductive Call : Type :=
| CallSetBlob (r : Ref) (content : Content)
| CallGetBlob (r : Ref) (b : BlobId) (options : option DownloadBlobOptions)
| CallGetBlobStream (r : Ref) (b : BlobId)
| CallDeleteBlob (r : Ref) (b : BlobId)
| CallBlobExists (r : Ref) (b : BlobId)
| CallGetBlobProperties (r : Ref) (b : BlobId)
| CallListBlobs (r : Ref) (options : ListBlobsOptions)
| CallGenerateSignedUrl (r : Ref) (b : BlobId) (expiresIn : Z) (p : Permission).

Section Interface.

(** The private state of an underlying store. *)
Context {S : Type}.

(** The [Bs] interface: each method may read and update the state of the
    object it is called on, and either returns or throws. *)
Record Bs : Type := mkBs {
  bs_setBlob : Content -> S -> Result BlobProperties * S;
  bs_getBlob : BlobId -> option DownloadBlobOptions -> S ->
               Result (Content * BlobProperties) * S;
  bs_getBlobStream : BlobId -> S -> Result Content * S;
  bs_deleteBlob : BlobId -> S -> Result unit * S;
  bs_blobExists : BlobId -> S -> Result bool * S;
  bs_getBlobProperties : BlobId -> S -> Result BlobProperties * S;
  bs_listBlobs : ListBlobsOptions -> S -> Result ListBlobsResult * S;
  bs_generateSignedUrl : BlobId -> Z -> Permission -> S -> Result string * S
}.

(** A store object: its methods and its private state. *)
Record BsObject : Type := mkBsObject {
  methods : Bs;
  fields : S
}.

(** The world [BsMulti] runs in. *)
Record World : Type := mkWorld {
  heap : Ref -> BsObject;
  calls : list Call
}.

(** Computations that may throw; effects done before a throw persist. *)
Definition M (A : Type) : Type := World -> Result A * World.

Definition ret {A : Type} (a : A) : M A := fun w => (Ok a, w).

Definition throw {A : Type} (e : Error) : M A := fun w => (Throw e, w).

Definition bind {A B : Type} (m : M A) (k : A -> M B) : M B :=
  fun w =>
    match m w with
    | (Ok a, w') => k a w'
    | (Throw e, w') => (Throw e, w')
    end.

(** [p.then(ok, () => ...)]: the outcome of [m], never thrown. *)
Definition settle {A : Type} (m : M A) : M (Result A) :=
  fun w => let '(r, w') := m w in (Ok r, w').

Definition upd (r : Ref) (o : BsObject) (h : Ref -> BsObject)
  : Ref -> BsObject :=
  fun k => if Nat.eqb k r then o else h k.

(** Invoke a method on the object behind [r], logging the call. *)
Definition invoke {A : Type} (r : Ref) (c : Call)
  (method : Bs -> S -> Result A * S) : M A :=
  fun w =>
    let o := heap w r in
    let '(res, s') := method (methods o) (fields o) in
    (res, {| heap := upd r {| methods := methods o; fields := s' |} (heap w);
             calls := calls w ++ [c] |}).

End Interface.

Arguments Bs S : clear implicits.
Arguments BsObject S : clear implicits.
Arguments World S : clear implicits.
Arguments M S A : clear implicits.

Declare Scope m_scope.
Delimit Scope m_scope with M.
Notation "x <- m ;; k" := (bind m (fun x => k))
  (at level 61, m at next level, right associativity) : m_scope.
Notation "m ;;; k" := (bind m (fun _ => k))
  (at level 61, right associativity) : m_scope.

(* ====================================================================== *)
(** ** [BsMulti] (src/bs-multi.ts) *)

(** [BsMultiBs]: a store with its capabilities and priority.  [bs] is a
    reference: two bindings may wrap the same store object.  [priority] is
    an integer, as the tier order of the specification has it. *)
Record BsMultiBs : Type := mkBsMultiBs {
  bs : Ref;
  id : option string;
  priority : Z;
  read : bool;
  write : bool
}.

Record BsMulti : Type := mkBsMulti {
  _stores : list BsMultiBs
}.

(** The body of the loop of [init] at index [idx]:
    [{ ...this._stores[idx], id: `bs-${idx}` }]. *)
Definition withId (idx : nat) (store : BsMultiBs) : BsMultiBs :=
  {| bs := bs store;
     id := Some ("bs-" ++ Js.numberToString idx)%string;
     priority := priority store;
     read := read store;
     write := write store |}.

Fixpoint initFrom (idx : nat) (stores : list BsMultiBs) : list BsMultiBs :=
  match stores with
  | [] => []
  | store :: rest => withId idx store :: initFrom (Datatypes.S idx) rest
  end.

(** [init()] *)
Definition init (m : BsMulti) : BsMulti :=
  {| _stores := initFrom 0 (_stores m) |}.

Definition byPriority (a b : BsMultiBs) : Z := priority a - priority b.

(** [get readables()] *)
Definition readables (m : BsMulti) : list BsMultiBs :=
  Js.sort byPriority (filter read (_stores m)).

(** [get writables()] *)
Definition writables (m : BsMulti) : list BsMultiBs :=
  Js.sort byPriority (filter write (_stores m)).

Definition noWritable : Error := mkError "No writable Bs available".
Definition noReadable : Error := mkError "No readable Bs available".

(** [new Error(`Blob not found: ${blobId}`)] *)
Definition blobNotFound (b : BlobId) : Error :=
  mkError ("Blob not found: " ++ b)%string.

Definition isNotFound (err : Error) : bool :=
  Js.includes (message err) "Blob not found".

(** What [errors[0]] and [results[0]] read on an empty array.  Neither is
    reached: the arrays are non-empty where they are indexed. *)
Definition undefinedError : Error := mkError "undefined".
Definition undefinedProperties : BlobProperties := mkBlobProperties "" 0 0.

(** The error thrown when no readable store answered (lines 109-120, and the
    same lines of getBlobStream, getBlobProperties, generateSignedUrl). *)
Definition reconcile (b : BlobId) (errors : list Error) : Error :=
  let notFoundErrors := filter isNotFound errors in
  if (List.length notFoundErrors =? List.length errors)%nat
  then blobNotFound b
  else nth 0 errors undefinedError.

(** [writable.id !== readFrom], where [writable.id] may be undefined. *)
Definition idDiffers (i : option string) (readFrom : string) : bool :=
  match i with
  | Some s => negb (s =? readFrom)%string
  | None => true
  end.

(** The bindings the hot-swap writes to. *)
Definition hotSwapTargets (m : BsMulti) (readFrom : string) : list BsMultiBs :=
  filter (fun writable => idDiffers (id writable) readFrom) (writables m).

(** [Promise.all] of settled promises: the results, or a rejection.  Which
    rejection wins is a matter of timing; the model takes the first in array
    order. *)
Fixpoint promiseAll {A : Type} (settled : list (Result A)) : Result (list A) :=
  match settled with
  | [] => Ok []
  | Throw e :: _ => Throw e
  | Ok a :: rest =>
      match promiseAll rest with
      | Ok l => Ok (a :: l)
      | Throw e => Throw e
      end
  end.

(** Where the page starts (lines 294-302): after the blob whose id is the
    continuation token, or at the beginning if there is no token, the token
    is the empty string, or no blob has it as id. *)
Definition startIndexOf (blobs : list BlobProperties)
  (options : option ListBlobsOptions) : Z :=
  match options with
  | Some o =>
      match continuationToken o with
      | Some token =>
          if Js.truthy token then
            let tokenIndex :=
              Js.findIndex (fun blob => (blobId blob =? token)%string) blobs in
            if tokenIndex =? -1 then 0 else tokenIndex + 1
          else 0
      | None => 0
      end
  | None => 0
  end.

(** Pagination over the merged, sorted array (lines 292-315). *)
Definition paginate (blobs : list BlobProperties)
  (options : option ListBlobsOptions) : ListBlobsResult :=
  let len := Z.of_nat (List.length blobs) in
  let maxResults :=
    Js.nullish (match options with Some o => maxResults o | None => None end)
      len in
  let startIndex := startIndexOf blobs options in
  let endIndex := Z.min (startIndex + maxResults) len in
  let pageBlobs := Js.slice blobs startIndex endIndex in
  {| blobs := pageBlobs;
     nextToken :=
       if endIndex <? len
       then option_map blobId (Js.lastElem pageBlobs)
       else None |}.

(** [if (!blobMap.has(blob.blobId)) blobMap.set(blob.blobId, blob)] over one
    page. *)
Definition addPage (blobMap : Js.Map BlobProperties)
  (page : list BlobProperties) : Js.Map BlobProperties :=
  fold_left
    (fun bm blob =>
       if Js.mapHas bm (blobId blob) then bm
       else Js.mapSet bm (blobId blob) blob)
    page blobMap.

(** The request sent to one store for its page after [token] (lines
    266-270): the caller's prefix, chunks of 1000. *)
Definition pageRequest (pre token : option string) : ListBlobsOptions :=
  {| prefix := pre; continuationToken := token; maxResults := Some 1000 |}.

(** [options?.prefix] *)
Definition prefixOf (options : option ListBlobsOptions) : option string :=
  match options with
  | Some o => prefix o
  | None => None
  end.

Section Operations.

Context {S : Type}.

(** [String.prototype.localeCompare], which orders the merged listing. *)
Variable localeCompare : string -> string -> Z.

Local Open Scope m_scope.

(** [ps.map(start)]: every call is started, in array order, and settles.
    The calls of one fan-out run concurrently in the source; the model runs
    them one after the other in the order they are started, which is what
    the source does for stores that answer without suspending. *)
Fixpoint callAll {A : Type} (ms : list (M S A)) : M S (list (Result A)) :=
  match ms with
  | [] => ret []
  | m :: rest =>
      r <- settle m ;;
      rs <- callAll rest ;;
      ret (r :: rs)
  end.

Definition liftResult {A : Type} (r : Result A) : M S A :=
  match r with
  | Ok a => ret a
  | Throw e => throw e
  end.

Definition callSetBlob (content : Content) (b : BsMultiBs)
  : M S BlobProperties :=
  invoke (bs b) (CallSetBlob (bs b) content) (fun v => bs_setBlob v content).

Definition callGetBlob (blob : BlobId) (options : option DownloadBlobOptions)
  (b : BsMultiBs) : M S (Content * BlobProperties) :=
  invoke (bs b) (CallGetBlob (bs b) blob options)
    (fun v => bs_getBlob v blob options).

Definition callGetBlobStream (blob : BlobId) (b : BsMultiBs) : M S Content :=
  invoke (bs b) (CallGetBlobStream (bs b) blob)
    (fun v => bs_getBlobStream v blob).

Definition callDeleteBlob (blob : BlobId) (b : BsMultiBs) : M S unit :=
  invoke (bs b) (CallDeleteBlob (bs b) blob) (fun v => bs_deleteBlob v blob).

Definition callBlobExists (blob : BlobId) (b : BsMultiBs) : M S bool :=
  invoke (bs b) (CallBlobExists (bs b) blob) (fun v => bs_blobExists v blob).

Definition callGetBlobProperties (blob : BlobId) (b : BsMultiBs)
  : M S BlobProperties :=
  invoke (bs b) (CallGetBlobProperties (bs b) blob)
    (fun v => bs_getBlobProperties v blob).

Definition callListBlobs (options : ListBlobsOptions) (b : BsMultiBs)
  : M S ListBlobsResult :=
  invoke (bs b) (CallListBlobs (bs b) options)
    (fun v => bs_listBlobs v options).

Definition callGenerateSignedUrl (blob : BlobId) (expiresIn : Z)
  (permissions : Permission) (b : BsMultiBs) : M S string :=
  invoke (bs b) (CallGenerateSignedUrl (bs b) blob expiresIn permissions)
    (fun v => bs_generateSignedUrl v blob expiresIn permissions).

(** [setBlob(content)] *)
Definition setBlob (m : BsMulti) (content : Content) : M S BlobProperties :=
  if (List.length (writables m) =? 0)%nat then throw noWritable
  else
    writes <- callAll (map (callSetBlob content) (writables m)) ;;
    results <- liftResult (promiseAll writes) ;;
    ret (nth 0 results undefinedProperties).

(** The loop "try readables in priority order": the first answer and the
    binding that gave it, or nothing, with the errors caught on the way. *)
Fixpoint tryReadables {A : Type} (call : BsMultiBs -> M S A)
  (rs : list BsMultiBs) (errors : list Error)
  : M S (option (A * BsMultiBs) * list Error) :=
  match rs with
  | [] => ret (None, errors)
  | readable :: rest =>
      r <- settle (call readable) ;;
      match r with
      | Ok a => ret (Some (a, readable), errors)
      | Throw e => tryReadables call rest (errors ++ [e])
      end
  end.

(** [getBlob(blobId, options)] *)
Definition getBlob (m : BsMulti) (blob : BlobId)
  (options : option DownloadBlobOptions) : M S (Content * BlobProperties) :=
  if (List.length (readables m) =? 0)%nat then throw noReadable
  else
    tried <- tryReadables (callGetBlob blob options) (readables m) [] ;;
    match tried with
    | (None, errors) => throw (reconcile blob errors)
    | (Some (result, readable), _) =>
        let readFrom := Js.nullish (id readable) "" in
        (if (0 <? List.length (writables m))%nat
         then
           callAll (map (callSetBlob (fst result)) (hotSwapTargets m readFrom))
           ;;; ret tt
         else ret tt) ;;;
        ret result
    end.

(** The three reads without hot-swap share one shape. *)
Definition firstAnswer {A : Type} (m : BsMulti) (blob : BlobId)
  (call : BsMultiBs -> M S A) : M S A :=
  if (List.length (readables m) =? 0)%nat then throw noReadable
  else
    tried <- tryReadables call (readables m) [] ;;
    match tried with
    | (Some (a, _), _) => ret a
    | (None, errors) => throw (reconcile blob errors)
    end.

(** [getBlobStream(blobId)] *)
Definition getBlobStream (m : BsMulti) (blob : BlobId) : M S Content :=
  firstAnswer m blob (callGetBlobStream blob).

(** [getBlobProperties(blobId)] *)
Definition getBlobProperties (m : BsMulti) (blob : BlobId)
  : M S BlobProperties :=
  firstAnswer m blob (callGetBlobProperties blob).

(** [generateSignedUrl(blobId, expiresIn, permissions)] *)
Definition generateSignedUrl (m : BsMulti) (blob : BlobId) (expiresIn : Z)
  (permissions : Permission) : M S string :=
  firstAnswer m blob (callGenerateSignedUrl blob expiresIn permissions).

(** [deleteBlob(blobId)] *)
Definition deleteBlob (m : BsMulti) (blob : BlobId) : M S unit :=
  if (List.length (writables m) =? 0)%nat then throw noWritable
  else
    deletes <- callAll (map (callDeleteBlob blob) (writables m)) ;;
    liftResult (promiseAll deletes) ;;;
    ret tt.

Fixpoint existsLoop (blob : BlobId) (rs : list BsMultiBs) : M S bool :=
  match rs with
  | [] => ret false
  | readable :: rest =>
      r <- settle (callBlobExists blob readable) ;;
      match r with
      | Ok true => ret true
      | _ => existsLoop blob rest
      end
  end.

(** [blobExists(blobId)] *)
Definition blobExists (m : BsMulti) (blob : BlobId) : M S bool :=
  if (List.length (readables m) =? 0)%nat then throw noReadable
  else existsLoop blob (readables m).

(** The do-while that pages through one store (lines 264-279).  A store
    may hand out tokens for ever, so the loop runs on fuel: [None] is "not
    finished within [fuel] pages".  [blobMap] is the map shared by the
    whole collection: what was set before a throw stays set. *)
Fixpoint collectStore (fuel : nat) (readable : BsMultiBs)
  (pre : option string) (token : option string)
  (blobMap : Js.Map BlobProperties) (w : World S)
  : option (Js.Map BlobProperties * World S) :=
  match fuel with
  | O => None
  | Datatypes.S fuel' =>
      match callListBlobs (pageRequest pre token) readable w with
      | (Throw _, w') => Some (blobMap, w')
      | (Ok result, w') =>
          let blobMap' := addPage blobMap (blobs result) in
          if Js.truthyOpt (nextToken result)
          then collectStore fuel' readable pre (nextToken result) blobMap' w'
          else Some (blobMap', w')
      end
  end.

(** The outer loop over the readables (lines 262-283). *)
Fixpoint collectAll (fuel : nat) (rs : list BsMultiBs) (pre : option string)
  (blobMap : Js.Map BlobProperties) (w : World S)
  : option (Js.Map BlobProperties * World S) :=
  match rs with
  | [] => Some (blobMap, w)
  | readable :: rest =>
      match collectStore fuel readable pre None blobMap w with
      | Some (blobMap', w') => collectAll fuel rest pre blobMap' w'
      | None => None
      end
  end.

(** [blobs.sort((a, b) => a.blobId.localeCompare(b.blobId))] *)
Definition sortBlobs (l : list BlobProperties) : list BlobProperties :=
  Js.sort (fun a b => localeCompare (blobId a) (blobId b)) l.

(** [listBlobs(options)] *)
Definition listBlobs (fuel : nat) (m : BsMulti)
  (options : option ListBlobsOptions) (w : World S)
  : option (Result ListBlobsResult * World S) :=
  if (List.length (readables m) =? 0)%nat then Some (Throw noReadable, w)
  else
    match collectAll fuel (readables m) (prefixOf options) [] w with
    | Some (blobMap, w') =>
        Some (Ok (paginate (sortBlobs (Js.mapValues blobMap)) options), w')
    | None => None
    end.

End Operations.

Arguments callAll {S A} ms w.
Arguments tryReadables {S A} call rs errors w.

(* ====================================================================== *)
(** ** Runs described by the claims *)

Section Runs.

Context {S : Type}.

(** Every binding of [rs], tried in order from world [w], throws; [errors]
    are the errors thrown, [w'] the world afterwards. *)
Inductive allFail {A : Type} (call : BsMultiBs -> M S A)
  : list BsMultiBs -> World S -> list Error -> World S -> Prop :=
| allFail_nil : forall w, allFail call [] w [] w
| allFail_cons : forall r rest w e w1 errors w2,
    call r w = (Throw e, w1) ->
    allFail call rest w1 errors w2 ->
    allFail call (r :: rest) w (e :: errors) w2.

(** A store that, paged through from [token] in world [w], returns the
    pages [pages], each with a token for the next, and then throws. *)
Inductive pagesThenThrow (readable : BsMultiBs) (pre : option string)
  : option string -> World S -> list (list BlobProperties) -> World S
    -> Prop :=
| pagesThenThrow_throw : forall token w e w',
    callListBlobs (pageRequest pre token) readable w = (Throw e, w') ->
    pagesThenThrow readable pre token w [] w'
| pagesThenThrow_page : forall token w result w1 pages w2,
    callListBlobs (pageRequest pre token) readable w = (Ok result, w1) ->
    Js.truthyOpt (nextToken result) = true ->
    pagesThenThrow readable pre (nextToken result) w1 pages w2 ->
    pagesThenThrow readable pre token w (blobs result :: pages) w2.

End Runs.

(** The options of a caller asking for a page of [k] blobs after [token]. *)
Definition pageOptions (k : Z) (token : option string)
  : option ListBlobsOptions :=
  Some {| prefix := None; maxResults := Some k; continuationToken := token |}.

(** A caller that pages through a merged listing [merged] with page size
    [k], passing each returned token to the next call until none is
    returned; [None] if it is still going after [fuel] calls. *)
Fixpoint chainPages (fuel : nat) (k : Z) (merged : list BlobProperties)
  (token : option string) : option (list (list BlobProperties)) :=
  match fuel with
  | O => None
  | Datatypes.S fuel' =>
      let page := paginate merged (pageOptions k token) in
      match nextToken page with
      | None => Some [blobs page]
      | Some t =>
          match chainPages fuel' k merged (Some t) with
          | Some pages => Some (blobs page :: pages)
          | None => None
          end
      end
  end.

(** Stability of a sort by priority: the bindings of each priority keep the
    order they had. *)
Definition samePriority (p : Z) (b : BsMultiBs) : bool := priority b =? p.

Definition priorityLe (a b : BsMultiBs) : Prop := priority a <= priority b.

(** Every entry of the map sits under the id of its blob. *)
Definition keyed (blobMap : Js.Map BlobProperties) : Prop :=
  Forall (fun kv => fst kv = blobId (snd kv)) blobMap.

(** The map after the pages [pages] have been added, in order. *)
Definition addPages (blobMap : Js.Map BlobProperties)
  (pages : list (list BlobProperties)) : Js.Map BlobProperties :=
  fold_left addPage pages blobMap.

(** [b] is [a] with an index-derived id, otherwise untouched. *)
Definition assigned (a b : BsMultiBs) : Prop :=
  exists idx, b = withId idx a.

(* ====================================================================== *)
(** ** A reference store, for closed examples *)

Module BsMem.

(** Modelled from the spec: the in-memory ContentStore ([BsMem]); its
    source file is not part of the sources at hand.  It follows 4.1 of the
    specification and the architecture notes: a table from blob id to
    content and properties, [setBlob] returning the existing properties of
    known content, every lookup of an absent id throwing
    [Blob not found: <id>], a byte range served as the bytes from [start]
    up to [end] exclusive. *)
Record State : Type := mkState {
  table : list (BlobId * (Content * BlobProperties));
  clock : Z
}.

Definition empty : State := {| table := []; clock := 0 |}.

Section WithDigest.

(** The content digest (SHA-256 in the repository). *)
Variable hsh : Content -> BlobId.

(** Modelled from the spec: lookup in the table of [BsMem]. *)
Definition find (b : BlobId) (s : State)
  : option (Content * BlobProperties) :=
  match List.find (fun kv => (fst kv =? b)%string) (table s) with
  | Some kv => Some (snd kv)
  | None => None
  end.

(** Modelled from the spec: [BsMem.setBlob], as the architecture notes
    print it; storing known content returns the existing properties. *)
Definition setBlob (content : Content) (s : State)
  : Result BlobProperties * State :=
  let b := hsh content in
  match find b s with
  | Some existing => (Ok (snd existing), s)
  | None =>
      let properties :=
        {| blobId := b;
           size := Z.of_nat (String.length content);
           createdAt := clock s |} in
      (Ok properties,
       {| table := table s ++ [(b, (content, properties))];
          clock := clock s + 1 |})
  end.

(** Modelled from the spec: the bytes of a range, [end] exclusive (the
    test of range 2..5 on [0123456789] expects [234]). *)
Definition subarray (content : Content) (r : Range) : Content :=
  let len := Z.of_nat (String.length content) in
  let from := Z.min (Z.max (start r) 0) len in
  let to := Z.min (Z.max (Js.nullish (end_ r) len) 0) len in
  String.substring (Z.to_nat from) (Z.to_nat (to - from)) content.

(** Modelled from the spec: [BsMem.getBlob]. *)
Definition getBlob (b : BlobId) (options : option DownloadBlobOptions)
  (s : State) : Result (Content * BlobProperties) * State :=
  match find b s with
  | None => (Throw (blobNotFound b), s)
  | Some (content, properties) =>
      match options with
      | Some {| range := Some r |} => (Ok (subarray content r, properties), s)
      | _ => (Ok (content, properties), s)
      end
  end.

(** Modelled from the spec: [BsMem.getBlobStream]. *)
Definition getBlobStream (b : BlobId) (s : State)
  : Result Content * State :=
  match find b s with
  | None => (Throw (blobNotFound b), s)
  | Some (content, _) => (Ok content, s)
  end.

(** Modelled from the spec: [BsMem.deleteBlob]. *)
Definition deleteBlob (b : BlobId) (s : State) : Result unit * State :=
  match find b s with
  | None => (Throw (blobNotFound b), s)
  | Some _ =>
      (Ok tt,
       {| table := filter (fun kv => negb (fst kv =? b)%string) (table s);
          clock := clock s |})
  end.

(** Modelled from the spec: [BsMem.blobExists]. *)
Definition blobExists (b : BlobId) (s : State) : Result bool * State :=
  match find b s with
  | None => (Ok false, s)
  | Some _ => (Ok true, s)
  end.

(** Modelled from the spec: [BsMem.getBlobProperties]. *)
Definition getBlobProperties (b : BlobId) (s : State)
  : Result BlobProperties * State :=
  match find b s with
  | None => (Throw (blobNotFound b), s)
  | Some (_, properties) => (Ok properties, s)
  end.

(** Code-unit order of two strings, as a comparator. *)
Definition compareIds (a b : string) : Z :=
  match String.compare a b with
  | Lt => -1
  | Eq => 0
  | Gt => 1
  end.

(** Modelled from the spec: [BsMem.listBlobs], ordered by blob id, with
    prefix filter and token pagination. *)
Definition listBlobs (options : ListBlobsOptions) (s : State)
  : Result ListBlobsResult * State :=
  let all := map (fun kv => snd (snd kv)) (table s) in
  let selected :=
    match prefix options with
    | Some p => filter (fun blob => String.prefix p (blobId blob)) all
    | None => all
    end in
  (Ok (paginate
         (Js.sort (fun a b => compareIds (blobId a) (blobId b)) selected)
         (Some options)), s).

(** Modelled from the spec: [BsMem.generateSignedUrl]; the form of the url
    is of no consequence here. *)
Definition generateSignedUrl (b : BlobId) (expiresIn : Z)
  (permissions : Permission) (s : State) : Result string * State :=
  match find b s with
  | None => (Throw (blobNotFound b), s)
  | Some _ => (Ok ("https://example.com/blobs/" ++ b)%string, s)
  end.

Definition bsMem : Bs State :=
  {| bs_setBlob := setBlob;
     bs_getBlob := getBlob;
     bs_getBlobStream := getBlobStream;
     bs_deleteBlob := deleteBlob;
     bs_blobExists := blobExists;
     bs_getBlobProperties := getBlobProperties;
     bs_listBlobs := listBlobs;
     bs_generateSignedUrl := generateSignedUrl |}.

End WithDigest.

(** A store that is down: every method throws [msg]. *)
Definition down (msg : string) : Bs State :=
  {| bs_setBlob := fun _ s => (Throw (mkError msg), s);
     bs_getBlob := fun _ _ s => (Throw (mkError msg), s);
     bs_getBlobStream := fun _ s => (Throw (mkError msg), s);
     bs_deleteBlob := fun _ s => (Throw (mkError msg), s);
     bs_blobExists := fun _ s => (Throw (mkError msg), s);
     bs_getBlobProperties := fun _ s => (Throw (mkError msg), s);
     bs_listBlobs := fun _ s => (Throw (mkError msg), s);
     bs_generateSignedUrl := fun _ _ _ s => (Throw (mkError msg), s) |}.

(** A store whose listing answers the first page, with a token, and throws
    when asked for the page after it. *)
Definition flaky (firstPage : list BlobProperties) (token msg : string)
  : Bs State :=
  {| bs_setBlob := bs_setBlob (down msg);
     bs_getBlob := bs_getBlob (down msg);
     bs_getBlobStream := bs_getBlobStream (down msg);
     bs_deleteBlob := bs_deleteBlob (down msg);
     bs_blobExists := bs_blobExists (down msg);
     bs_getBlobProperties := bs_getBlobProperties (down msg);
     bs_listBlobs := fun options s =>
       match continuationToken options with
       | None => (Ok {| blobs := firstPage; nextToken := Some token |}, s)
       | Some _ => (Throw (mkError msg), s)
       end;
     bs_generateSignedUrl := bs_generateSignedUrl (down msg) |}.

(** A stand-in digest for closed examples (any function of the content
    serves: [BsMulti] never computes a digest itself). *)
Definition digest (content : Content) : BlobId := ("sha:" ++ content)%string.

Definition fresh : BsObject State :=
  {| methods := bsMem digest; fields := empty |}.

(** [new BsMem()] after [setBlob] of each of [contents]. *)
Definition holding (contents : list Content) : BsObject State :=
  {| methods := bsMem digest;
     fields :=
       fold_left (fun s c => snd (setBlob digest c s)) contents empty |}.

Definition broken (msg : string) : BsObject State :=
  {| methods := down msg; fields := empty |}.

(** A world whose heap holds [objs] at references 0, 1, ... *)
Definition world (objs : list (BsObject State)) : World State :=
  {| heap := fun r => nth r objs fresh; calls := [] |}.

End BsMem.

(* ====================================================================== *)
(** ** Configurations used in closed examples *)

Module Examples.

(** The bindings of [BsMulti.example]: a local cache first, a read-only
    remote as fallback. *)
Definition bsLocal : BsMultiBs :=
  {| bs := 0%nat; id := None; priority := 0; read := true; write := true |}.

Definition bsRemote : BsMultiBs :=
  {| bs := 1%nat; id := None; priority := 1; read := true; write := false |}.

Definition uninitialised : BsMulti := {| _stores := [bsLocal; bsRemote] |}.

Definition example : BsMulti := init uninitialised.

(** Two read-only tiers, as the error-handling tests build them. *)
Definition tier0 : BsMultiBs :=
  {| bs := 0%nat; id := None; priority := 0; read := true; write := false |}.

Definition tier1 : BsMultiBs :=
  {| bs := 1%nat; id := None; priority := 1; read := true; write := false |}.

Definition twoReaders : BsMulti := init {| _stores := [tier0; tier1] |}.

(** Two writable tiers. *)
Definition twoWriters : BsMulti :=
  init {| _stores :=
            [ {| bs := 0%nat; id := None; priority := 1;
                 read := true; write := true |};
              {| bs := 1%nat; id := None; priority := 0;
                 read := true; write := true |} ] |}.

(** A binding constructed with an id of the caller's choice. *)
Definition named : BsMulti :=
  {| _stores :=
       [ {| bs := 0%nat; id := Some "cache"; priority := 0;
            read := true; write := true |} ] |}.

(** A binding that is neither readable nor writable. *)
Definition inert : BsMulti :=
  {| _stores :=
       [ {| bs := 0%nat; id := None; priority := 0;
            read := false; write := false |} ] |}.

Definition emptyCacheRemoteHolds (contents : list Content)
  : World BsMem.State :=
  BsMem.world [BsMem.fresh; BsMem.holding contents].

(** The first page a flaky store lists before it fails. *)
Definition blobA : BlobProperties :=
  {| blobId := "a"; size := 1; createdAt := 0 |}.

Definition blobZ : BlobProperties :=
  {| blobId := "sha:z"; size := 1; createdAt := 0 |}.

Definition flakyThenHolding : World BsMem.State :=
  BsMem.world
    [ {| methods := BsMem.flaky [blobA] "a" "Storage unavailable";
         fields := BsMem.empty |};
      BsMem.holding ["z"] ].

Definition oneFresh : World BsMem.State := BsMem.world [BsMem.fresh].


(** The first tier does not hold the blob, the second one is down. *)
Definition missThenTimeout : World BsMem.State :=
  BsMem.world [BsMem.fresh; BsMem.broken "Network timeout"].

(** The first tier is down, the second one holds the blob. *)
Definition failureThenHolding : World BsMem.State :=
  BsMem.world [BsMem.broken "Store failure"; BsMem.holding ["Test"]].

(** The only store holds the blob. *)
Definition cacheHolds : World BsMem.State :=
  BsMem.world [BsMem.holding ["Test"]; BsMem.fresh].

(** Both stores hold the blob of [a]. *)
Definition bothHolding : World BsMem.State :=
  BsMem.world [BsMem.holding ["b"; "a"]; BsMem.holding ["c"; "a"]].

(** What [listBlobs] collects from [bothHolding], in insertion order. *)
Definition collectedAbc : Js.Map BlobProperties :=
  [ ("sha:a", {| blobId := "sha:a"; size := 1; createdAt := 1 |});
    ("sha:b", {| blobId := "sha:b"; size := 1; createdAt := 0 |});
    ("sha:c", {| blobId := "sha:c"; size := 1; createdAt := 0 |}) ].

Definition mergedAbc : list BlobProperties :=
  [ {| blobId := "sha:a"; size := 1; createdAt := 1 |};
    {| blobId := "sha:b"; size := 1; createdAt := 0 |};
    {| blobId := "sha:c"; size := 1; createdAt := 0 |} ].

End Examples.

(* ====================================================================== *)
(** ** Further runs of the fan-out loops *)

Section MoreRuns.

Context {S : Type}.

(** The bindings of [bs], called in order from world [w], have the
    outcomes [rs], thrown or returned, and leave the world [w']. *)
Inductive outcomes {A : Type} (call : BsMultiBs -> M S A)
  : list BsMultiBs -> World S -> list (Result A) -> World S -> Prop :=
| outcomes_nil : forall w, outcomes call [] w [] w
| outcomes_cons : forall b rest w r w1 rs w2,
    call b w = (r, w1) ->
    outcomes call rest w1 rs w2 ->
    outcomes call (b :: rest) w (r :: rs) w2.

(** No binding of [rs], asked in order from world [w], reports the blob:
    each one throws or answers [false]. *)
Inductive noneReports (blob : BlobId)
  : list BsMultiBs -> World S -> World S -> Prop :=
| noneReports_nil : forall w, noneReports blob [] w w
| noneReports_cons : forall r rest w res w1 w2,
    callBlobExists blob r w = (res, w1) ->
    res <> Ok true ->
    noneReports blob rest w1 w2 ->
    noneReports blob (r :: rest) w w2.

(** A store that takes [content] and from then on reports [blob]: what the
    contract of a content-addressed store gives when [blob] is the digest
    of [content]. *)
Definition cachesBlob (blob : BlobId) (content : Content) (v : Bs S) : Prop :=
  forall s, exists properties s',
    bs_setBlob v content s = (Ok properties, s') /\
    fst (bs_blobExists v blob s') = Ok true.

End MoreRuns.

(** A listing request to one of the bindings [rs], with the prefix [pre]
    and the chunk size of the collection. *)
Definition asksTier (rs : list BsMultiBs) (pre : option string) (c : Call)
  : Prop :=
  exists r token, In r rs /\ c = CallListBlobs (bs r) (pageRequest pre token).

(** [options?.maxResults ?? blobs.length] *)
Definition maxResultsOf (blobs : list BlobProperties)
  (options : option ListBlobsOptions) : Z :=
  Js.nullish (match options with Some o => maxResults o | None => None end)
    (Z.of_nat (List.length blobs)).

(* ====================================================================== *)
(** ** Further configurations used in closed examples *)

Module MoreExamples.

(** The bindings of [Examples.twoWriters] in the order they are written
    to: the one of priority 0 wraps store 1. *)
Definition firstWriter : BsMultiBs :=
  withId 1 {| bs := 1%nat; id := None; priority := 0;
              read := true; write := true |}.

Definition secondWriter : BsMultiBs :=
  withId 0 {| bs := 0%nat; id := None; priority := 1;
              read := true; write := true |}.

(** Only the store written first holds the blob of [x]. *)
Definition firstHoldsX : World BsMem.State :=
  BsMem.world [BsMem.fresh; BsMem.holding ["x"]].

(** The store written second is down. *)
Definition secondWriterDown : World BsMem.State :=
  BsMem.world [BsMem.broken "Disk full"; BsMem.fresh].

(** Neither store holds the blob; the second one is a remote that words
    its not-found error its own way. *)
Definition missTwice : World BsMem.State :=
  BsMem.world [BsMem.fresh; BsMem.broken "Remote: Blob not found"].

(** The first store times out, the second does not hold the blob. *)
Definition timeoutThenMiss : World BsMem.State :=
  BsMem.world [BsMem.broken "Network timeout"; BsMem.fresh].

(** Both stores are down. *)
Definition bothDown : World BsMem.State :=
  BsMem.world [BsMem.broken "Check failed"; BsMem.broken "Check failed"].

(** The cache and the remote both hold the blob of [a], stored at
    different moments. *)
Definition staggered : World BsMem.State :=
  BsMem.world [BsMem.holding ["b"; "a"]; BsMem.holding ["a"; "c"]].

(** What [listBlobs] has collected from [staggered] after the cache, the
    first tier, and after both tiers. *)
Definition collectedFromCache : Js.Map BlobProperties :=
  [ ("sha:a", {| blobId := "sha:a"; size := 1; createdAt := 1 |});
    ("sha:b", {| blobId := "sha:b"; size := 1; createdAt := 0 |}) ].

Definition collectedStaggered : Js.Map BlobProperties :=
  [ ("sha:a", {| blobId := "sha:a"; size := 1; createdAt := 1 |});
    ("sha:b", {| blobId := "sha:b"; size := 1; createdAt := 0 |});
    ("sha:c", {| blobId := "sha:c"; size := 1; createdAt := 1 |}) ].

Definition mergedStaggered : list BlobProperties :=
  [ {| blobId := "sha:a"; size := 1; createdAt := 1 |};
    {| blobId := "sha:b"; size := 1; createdAt := 0 |};
    {| blobId := "sha:c"; size := 1; createdAt := 1 |} ].

End MoreExamples.

(* ====================================================================== *)
(** ** The socket mock, the peer, the bridge and the server
       (src/bs-peer.ts, src/bs-peer-bridge.ts, src/bs-server.ts) *)

(** [map.get(key)] *)
Definition mapGet {V : Type} (m : Js.Map V) (key : string) : option V :=
  option_map snd (List.find (fun kv => (fst kv =? key)%string) m).

(** [map.delete(key)] *)
Definition mapDelete {V : Type} (m : Js.Map V) (key : string) : Js.Map V :=
  filter (fun kv => negb (fst kv =? key)%string) m.

(** [arr.splice(index, 1)] for an index that [indexOf] has found. *)
Definition splice1 {A : Type} (l : list A) (index : Z) : list A :=
  (firstn (Z.to_nat index) l ++ skipn (Z.to_nat index + 1) l)%list.

(** How a promise stands when the call that made it has run. *)
Inductive Settled : Type := Resolved | Rejected | Pending.

Module PeerSocketMock.

Section WithListeners.

(** The listener functions; the socket only stores them, compares them by
    identity and calls them. *)
Context {L : Type}.

Record State : Type := mkState {
  _listenersMap : Js.Map (list L);
  connected : bool;
  disconnected : bool;
  _bs : Ref
}.

(** [new PeerSocketMock(bs)] *)
Definition create (bs0 : Ref) : State :=
  {| _listenersMap := []; connected := false; disconnected := true;
     _bs := bs0 |}.

Definition withListeners (m : Js.Map (list L)) (s : State) : State :=
  {| _listenersMap := m; connected := connected s;
     disconnected := disconnected s; _bs := _bs s |}.

(** [this._listenersMap.get(eventName) || []] *)
Definition listeners (eventName : string) (s : State) : list L :=
  Js.nullish (mapGet (_listenersMap s) eventName) [].

(** [on(eventName, listener)]: the array under the event, created if
    missing, gets the listener pushed at its end. *)
Definition on (eventName : string) (listener : L) (s : State) : State :=
  let m1 :=
    if negb (Js.mapHas (_listenersMap s) eventName)
    then Js.mapSet (_listenersMap s) eventName []
    else _listenersMap s in
  withListeners
    (Js.mapSet m1 eventName
       (Js.nullish (mapGet m1 eventName) [] ++ [listener])%list) s.

(** [off(eventName, listener)]; [same] is the identity of listener
    functions.  [indexOf] finds the first registration. *)
Definition off (same : L -> L -> bool) (eventName : string) (listener : L)
  (s : State) : State :=
  let found := listeners eventName s in
  let index := Js.findIndex (fun l => same l listener) found in
  if negb (index =? -1)
  then withListeners
         (Js.mapSet (_listenersMap s) eventName (splice1 found index)) s
  else s.

(** [removeAllListeners(eventName?)] *)
Definition removeAllListeners (eventName : option string) (s : State)
  : State :=
  match eventName with
  | Some e =>
      if Js.truthy e then withListeners (mapDelete (_listenersMap s) e) s
      else withListeners [] s
  | None => withListeners [] s
  end.

(** [connect()]: the socket afterwards, and the listeners it has called,
    in order, each with [{}]. *)
Definition connect (s : State) : State * list L :=
  ({| _listenersMap := _listenersMap s; connected := true;
      disconnected := false; _bs := _bs s |},
   listeners "connect" s).

(** [disconnect()] *)
Definition disconnect (s : State) : State * list L :=
  ({| _listenersMap := _listenersMap s; connected := false;
      disconnected := true; _bs := _bs s |},
   listeners "disconnect" s).

End WithListeners.

Arguments State L : clear implicits.

End PeerSocketMock.

Module BsPeer.

(** The listeners [BsPeer] registers: the two that track the connection,
    and the ones that resolve the promise of an [init] or a [close]. *)
Inductive Listener : Type :=
| SetIsOpen (open : bool)
| Resolve (promise : nat).

(** A peer and the socket mock it was constructed with; [promises] counts
    the promises made so far and so names the next one. *)
Record State : Type := mkState {
  isOpen : bool;
  _socket : PeerSocketMock.State Listener;
  promises : nat
}.

(** [new BsPeer(new PeerSocketMock(bs))] *)
Definition create (bs0 : Ref) : State :=
  {| isOpen := false; _socket := PeerSocketMock.create bs0; promises := 0 |}.

(** A listener is called: [isOpen] and the promises resolved so far. *)
Definition call (st : bool * list nat) (l : Listener) : bool * list nat :=
  match l with
  | SetIsOpen open => (open, snd st)
  | Resolve promise => (fst st, (snd st ++ [promise])%list)
  end.

(** [init()] *)
Definition init (p : State) : State * Settled :=
  let s1 := PeerSocketMock.on "connect" (SetIsOpen true) (_socket p) in
  let s2 := PeerSocketMock.on "disconnect" (SetIsOpen false) s1 in
  let '(s3, called) := PeerSocketMock.connect s2 in
  let '(open, _) := fold_left call called (isOpen p, []) in
  let promise := promises p in
  if PeerSocketMock.connected s3
  then ({| isOpen := true; _socket := s3; promises := Datatypes.S promise |},
        Resolved)
  else ({| isOpen := open;
           _socket := PeerSocketMock.on "connect" (Resolve promise) s3;
           promises := Datatypes.S promise |},
        Pending).

(** [close()] *)
Definition close (p : State) : State * Settled :=
  if negb (PeerSocketMock.connected (_socket p)) then (p, Resolved)
  else
    let promise := promises p in
    let s1 := PeerSocketMock.on "disconnect" (Resolve promise) (_socket p) in
    let '(s2, called) := PeerSocketMock.disconnect s1 in
    let '(open, resolved) := fold_left call called (isOpen p, []) in
    ({| isOpen := open; _socket := s2; promises := Datatypes.S promise |},
     if existsb (Nat.eqb promise) resolved then Resolved else Pending).

(** [isReady()] *)
Definition isReady (p : State) : State * Settled :=
  let open := PeerSocketMock.connected (_socket p) in
  ({| isOpen := open; _socket := _socket p; promises := promises p |},
   if open then Resolved else Rejected).

(** The calls a user makes on a peer. *)
Inductive Op : Type := Init | Close | IsReady.

Definition step (p : State) (op : Op) : State :=
  match op with
  | Init => fst (init p)
  | Close => fst (close p)
  | IsReady => fst (isReady p)
  end.

(** A peer after a sequence of calls. *)
Definition run (ops : list Op) (p : State) : State := fold_left step ops p.

(** What holds of a peer that has only been used through its own calls:
    its flag mirrors the socket, the listeners on the socket are its own,
    and while connected the listener that clears the flag is in place. *)
Definition onConnect (l : Listener) : Prop :=
  l = SetIsOpen true \/ exists promise, l = Resolve promise.

Definition onDisconnect (l : Listener) : Prop :=
  l = SetIsOpen false \/ exists promise, l = Resolve promise.

Definition consistent (p : State) : Prop :=
  isOpen p = PeerSocketMock.connected (_socket p) /\
  PeerSocketMock.disconnected (_socket p)
  = negb (PeerSocketMock.connected (_socket p)) /\
  Forall onConnect (PeerSocketMock.listeners "connect" (_socket p)) /\
  Forall onDisconnect (PeerSocketMock.listeners "disconnect" (_socket p)) /\
  (PeerSocketMock.connected (_socket p) = true ->
   In (SetIsOpen false) (PeerSocketMock.listeners "disconnect" (_socket p))).

End BsPeer.

Module BsPeerBridge.

(** The functions a bridge registers on its socket: the two bound
    connection handlers, made once per bridge, and the handler
    [registerEvent] makes on each call, told apart by the number of the
    call that made it. *)
Inductive Listener : Type :=
| HandleConnect
| HandleDisconnect
| Handler (closure : nat) (methodName : string).

(** Identity of these functions. *)
Definition same (a b : Listener) : bool :=
  match a, b with
  | HandleConnect, HandleConnect => true
  | HandleDisconnect, HandleDisconnect => true
  | Handler c m, Handler c' m' => Nat.eqb c c' && (m =? m')%string
  | _, _ => false
  end.

Record State : Type := mkState {
  _eventHandlers : Js.Map Listener;
  _socket : PeerSocketMock.State Listener;
  _bs : Ref;
  closures : nat
}.

(** [new BsPeerBridge(bs, socket)] *)
Definition create (bs0 : Ref) (socket : PeerSocketMock.State Listener)
  : State :=
  {| _eventHandlers := []; _socket := socket; _bs := bs0; closures := 0 |}.

(** [bsMethodName || eventName] *)
Definition methodNameOf (eventName : string) (bsMethodName : option string)
  : string :=
  match bsMethodName with
  | Some name => if Js.truthy name then name else eventName
  | None => eventName
  end.

(** [registerEvent(eventName, bsMethodName?)] *)
Definition registerEvent (eventName : string) (bsMethodName : option string)
  (b : State) : State :=
  let handler := Handler (closures b) (methodNameOf eventName bsMethodName) in
  {| _eventHandlers := Js.mapSet (_eventHandlers b) eventName handler;
     _socket := PeerSocketMock.on eventName handler (_socket b);
     _bs := _bs b;
     closures := Datatypes.S (closures b) |}.

(** The methods [_registerBsMethods] registers. *)
Definition bsMethods : list string :=
  ["getBlob"; "getBlobStream"; "blobExists"; "getBlobProperties";
   "listBlobs"].

(** [registerEvents(eventNames)] *)
Definition registerEvents (eventNames : list string) (b : State) : State :=
  fold_left (fun b0 eventName => registerEvent eventName None b0)
    eventNames b.

(** [_registerBsMethods()] *)
Definition _registerBsMethods (b : State) : State :=
  fold_left (fun b0 methodName => registerEvent methodName None b0)
    bsMethods b.

Definition withSocket (socket : PeerSocketMock.State Listener) (b : State)
  : State :=
  {| _eventHandlers := _eventHandlers b; _socket := socket; _bs := _bs b;
     closures := closures b |}.

(** [start()] *)
Definition start (b : State) : State :=
  let s1 := PeerSocketMock.on "connect" HandleConnect (_socket b) in
  let s2 := PeerSocketMock.on "disconnect" HandleDisconnect s1 in
  _registerBsMethods (withSocket s2 b).

(** [stop()] *)
Definition stop (b : State) : State :=
  let s1 := PeerSocketMock.off same "connect" HandleConnect (_socket b) in
  let s2 := PeerSocketMock.off same "disconnect" HandleDisconnect s1 in
  let s3 :=
    fold_left (fun s kv => PeerSocketMock.off same (fst kv) (snd kv) s)
      (_eventHandlers b) s2 in
  {| _eventHandlers := []; _socket := s3; _bs := _bs b;
     closures := closures b |}.

(** [unregisterEvent(eventName)] *)
Definition unregisterEvent (eventName : string) (b : State) : State :=
  match mapGet (_eventHandlers b) eventName with
  | Some handler =>
      {| _eventHandlers := mapDelete (_eventHandlers b) eventName;
         _socket := PeerSocketMock.off same eventName handler (_socket b);
         _bs := _bs b;
         closures := closures b |}
  | None => b
  end.

(** [get isConnected()] *)
Definition isConnected (b : State) : bool :=
  PeerSocketMock.connected (_socket b).

(** No function on the socket is one a later [registerEvent] will make,
    and the bound connection handlers are not registered yet. *)
Definition fresh (b : State) : Prop :=
  (forall e c name,
     In (Handler c name) (PeerSocketMock.listeners e (_socket b)) ->
     (c < closures b)%nat) /\
  ~ In HandleConnect (PeerSocketMock.listeners "connect" (_socket b)) /\
  ~ In HandleDisconnect (PeerSocketMock.listeners "disconnect" (_socket b)).

End BsPeerBridge.

Module BsServer.

(** The listeners [_addTransportLayer] registers, one per method of the
    transport layer and per call. *)
Inductive Listener : Type :=
| Transport (closure : nat) (key : string).

Record State : Type := mkState {
  _sockets : list Ref;
  _bs : Ref;
  closures : nat
}.

(** The sockets, by reference. *)
Definition Sockets : Type := Ref -> PeerSocketMock.State Listener.

(** The keys of [_generateTransportLayer(bs)], in the order of the object
    literal. *)
Definition transportKeys : list string :=
  ["setBlob"; "getBlob"; "getBlobStream"; "deleteBlob"; "blobExists";
   "getBlobProperties"; "listBlobs"; "generateSignedUrl"].

(** [_addTransportLayer(socket)]: one [socket.on] per method. *)
Definition _addTransportLayer (closure : nat)
  (socket : PeerSocketMock.State Listener)
  : PeerSocketMock.State Listener * nat :=
  fold_left
    (fun sc key =>
       (PeerSocketMock.on key (Transport (snd sc) key) (fst sc),
        Datatypes.S (snd sc)))
    transportKeys (socket, closure).

(** [addSocket(socket)] *)
Definition addSocket (socket : Ref) (srv : State) (sockets : Sockets)
  : State * Sockets :=
  let '(s, closure) := _addTransportLayer (closures srv) (sockets socket) in
  ({| _sockets := (_sockets srv ++ [socket])%list; _bs := _bs srv;
      closures := closure |},
   fun r => if Nat.eqb r socket then s else sockets r).

(** [removeSocket(socket)] *)
Definition removeSocket (socket : Ref) (srv : State) : State :=
  {| _sockets := filter (fun s => negb (Nat.eqb s socket)) (_sockets srv);
     _bs := _bs srv;
     closures := closures srv |}.

End BsServer.

Module BridgeExamples.

(** A bridge just constructed over a socket nobody listens to. *)
Definition idle : BsPeerBridge.State :=
  BsPeerBridge.create 0%nat (PeerSocketMock.create 0%nat).

(** [getBlob] registered twice, then unregistered. *)
Definition reRegistered : BsPeerBridge.State :=
  BsPeerBridge.unregisterEvent "getBlob"
    (BsPeerBridge.registerEvent "getBlob" None
       (BsPeerBridge.registerEvent "getBlob" None idle)).

End BridgeExamples.

(* ====================================================================== *)
(** ** A store whose ids are not digests *)

Module PagingExamples.

(** A store that lists [all] in one page and does nothing else: [BsMulti]
    takes the ids a store lists as they come. *)
Definition listing (all : list BlobProperties) : Bs BsMem.State :=
  {| bs_setBlob := bs_setBlob (BsMem.down "Not supported");
     bs_getBlob := bs_getBlob (BsMem.down "Not supported");
     bs_getBlobStream := bs_getBlobStream (BsMem.down "Not supported");
     bs_deleteBlob := bs_deleteBlob (BsMem.down "Not supported");
     bs_blobExists := bs_blobExists (BsMem.down "Not supported");
     bs_getBlobProperties :=
       bs_getBlobProperties (BsMem.down "Not supported");
     bs_listBlobs := fun _ s =>
       (Ok {| blobs := all; nextToken := None |}, s);
     bs_generateSignedUrl :=
       bs_generateSignedUrl (BsMem.down "Not supported") |}.

(** A blob listed under the empty string. *)
Definition blobNoId : BlobProperties :=
  {| blobId := ""; size := 1; createdAt := 0 |}.

Definition reader : BsMulti := {| _stores := [Examples.tier0] |}.

Definition listsEmptyId : World BsMem.State :=
  BsMem.world
    [ {| methods := listing [Examples.blobA; blobNoId];
         fields := BsMem.empty |} ].

(** What [listBlobs] makes of it: two blobs, the one without id first. *)
Definition mergedEmptyId : list BlobProperties := [blobNoId; Examples.blobA].

End PagingExamples.

(* ====================================================================== *)
(** ** Facts about the built-ins *)

Local Open Scope list_scope.

Section SortFacts.

Context {A : Type}.
Variable cmp : A -> A -> Z.

Lemma insertBy_perm (x : A) (l : list A) :
  Permutation (Js.insertBy cmp x l) (x :: l).
Proof.
  induction l as [|y ys IH]; simpl.
  - apply Permutation_refl.
  - destruct (cmp x y <=? 0).
    + apply Permutation_refl.
    + eapply perm_trans; [apply perm_skip, IH | apply perm_swap].
Qed.

Lemma sort_perm (l : list A) : Permutation (Js.sort cmp l) l.
Proof.
  induction l as [|x xs IH]; simpl.
  - apply perm_nil.
  - eapply perm_trans; [apply insertBy_perm | apply perm_skip, IH].
Qed.

Lemma sort_length (l : list A) :
  List.length (Js.sort cmp l) = List.length l.
Proof. apply Permutation_length, sort_perm. Qed.

Lemma sort_in (l : list A) (x : A) : In x (Js.sort cmp l) <-> In x l.
Proof.
  split; apply Permutation_in;
    [apply sort_perm | apply Permutation_sym, sort_perm].
Qed.

(** Filtering commutes with the sort for a predicate the comparator cannot
    tell apart from "greater": an element skipped on the way in fails it. *)
Lemma insertBy_filter (p : A -> bool) (x : A) (l : list A) :
  (forall y, p x = true -> 0 < cmp x y -> p y = false) ->
  filter p (Js.insertBy cmp x l) = filter p (x :: l).
Proof.
  intros Hskip. induction l as [|y ys IH]; simpl; [reflexivity|].
  destruct (cmp x y <=? 0) eqn:Hle; simpl; [reflexivity|].
  apply Z.leb_gt in Hle. simpl in IH. rewrite IH.
  pose proof (Hskip y) as Hy.
  destruct (p x); [|reflexivity].
  rewrite (Hy eq_refl Hle). reflexivity.
Qed.

End SortFacts.

(** A comparator that is a total preorder sorts. *)
Section SortedBy.

Context {A : Type}.
Variable cmp : A -> A -> Z.
Hypothesis cmp_total : forall a b, cmp a b <= 0 \/ cmp b a <= 0.
Hypothesis cmp_trans :
  forall a b c, cmp a b <= 0 -> cmp b c <= 0 -> cmp a c <= 0.

Lemma insertBy_sorted_by (x : A) (l : list A) :
  StronglySorted (fun a b => cmp a b <= 0) l ->
  StronglySorted (fun a b => cmp a b <= 0) (Js.insertBy cmp x l).
Proof.
  induction 1 as [|y ys Hs IH Hall]; simpl.
  - constructor; constructor.
  - destruct (cmp x y <=? 0) eqn:Hle.
    + apply Z.leb_le in Hle. constructor.
      * constructor; assumption.
      * constructor; [exact Hle|].
        eapply Forall_impl; [|exact Hall].
        intros z Hz. exact (cmp_trans x y z Hle Hz).
    + apply Z.leb_gt in Hle. constructor; [exact IH|].
      eapply Permutation_Forall;
        [apply Permutation_sym, insertBy_perm|].
      constructor; [|exact Hall].
      destruct (cmp_total x y) as [H | H]; [lia | exact H].
Qed.

Lemma sort_sorted_by (l : list A) :
  StronglySorted (fun a b => cmp a b <= 0) (Js.sort cmp l).
Proof.
  induction l as [|x xs IH]; simpl.
  - constructor.
  - apply insertBy_sorted_by, IH.
Qed.

End SortedBy.

Section PriorityOrder.

Lemma insertBy_sorted (x : BsMultiBs) (l : list BsMultiBs) :
  StronglySorted priorityLe l ->
  StronglySorted priorityLe (Js.insertBy byPriority x l).
Proof.
  induction 1 as [|y ys Hs IH Hall]; simpl.
  - constructor; [constructor | constructor].
  - unfold byPriority at 1.
    destruct (priority x - priority y <=? 0) eqn:Hle.
    + apply Z.leb_le in Hle. constructor.
      * constructor; assumption.
      * constructor; [unfold priorityLe; lia|].
        eapply Forall_impl; [|exact Hall].
        unfold priorityLe. intros b Hb. lia.
    + apply Z.leb_gt in Hle. constructor; [exact IH|].
      eapply Permutation_Forall;
        [apply Permutation_sym, insertBy_perm|].
      constructor; [unfold priorityLe; lia | exact Hall].
Qed.

Lemma sort_sorted (l : list BsMultiBs) :
  StronglySorted priorityLe (Js.sort byPriority l).
Proof.
  induction l as [|x xs IH]; simpl.
  - constructor.
  - apply insertBy_sorted, IH.
Qed.

Lemma sort_stable (p : Z) (l : list BsMultiBs) :
  filter (samePriority p) (Js.sort byPriority l) = filter (samePriority p) l.
Proof.
  induction l as [|x xs IH]; simpl; [reflexivity|].
  rewrite insertBy_filter.
  - simpl. rewrite IH. reflexivity.
  - unfold samePriority, byPriority. intros y Hx Hgt.
    apply Z.eqb_eq in Hx. apply Z.eqb_neq. lia.
Qed.

(** The sort acts alike on two arrays that agree on priorities. *)
Lemma insertBy_Forall2 (R : BsMultiBs -> BsMultiBs -> Prop) x x' l l' :
  (forall a b, R a b -> priority a = priority b) ->
  R x x' -> Forall2 R l l' ->
  Forall2 R (Js.insertBy byPriority x l) (Js.insertBy byPriority x' l').
Proof.
  intros Hp Hx Hl. induction Hl as [|y y' ys ys' Hy Hys IH]; simpl.
  - constructor; [exact Hx | constructor].
  - unfold byPriority at 1 3.
    rewrite <- (Hp _ _ Hx), <- (Hp _ _ Hy).
    destruct (priority x - priority y <=? 0).
    + constructor; [exact Hx|]. constructor; assumption.
    + constructor; assumption.
Qed.

Lemma sort_Forall2 (R : BsMultiBs -> BsMultiBs -> Prop) l l' :
  (forall a b, R a b -> priority a = priority b) ->
  Forall2 R l l' ->
  Forall2 R (Js.sort byPriority l) (Js.sort byPriority l').
Proof.
  intros Hp Hl. induction Hl; simpl.
  - constructor.
  - apply insertBy_Forall2; assumption.
Qed.

Lemma filter_Forall2 (R : BsMultiBs -> BsMultiBs -> Prop)
  (f : BsMultiBs -> bool) l l' :
  (forall a b, R a b -> f a = f b) ->
  Forall2 R l l' -> Forall2 R (filter f l) (filter f l').
Proof.
  intros Hf Hl. induction Hl as [|y y' ys ys' Hy Hys IH]; simpl.
  - constructor.
  - rewrite <- (Hf _ _ Hy). destruct (f y); [constructor|]; assumption.
Qed.

End PriorityOrder.

(* ====================================================================== *)
(** ** [init] *)

Section InitFacts.

Lemma initFrom_assigned (k : nat) (l : list BsMultiBs) :
  Forall2 assigned l (initFrom k l).
Proof.
  revert k. induction l as [|x xs IH]; intros k; simpl.
  - constructor.
  - constructor; [exists k; reflexivity | apply IH].
Qed.

Lemma initFrom_ids (k : nat) (l : list BsMultiBs) :
  map id (initFrom k l) =
  map (fun idx => Some ("bs-" ++ Js.numberToString idx)%string)
    (seq k (List.length l)).
Proof.
  revert k. induction l as [|x xs IH]; intros k; simpl.
  - reflexivity.
  - rewrite IH. reflexivity.
Qed.

Lemma initFrom_keeps {B : Type} (f : BsMultiBs -> B) (k : nat) l :
  (forall idx store, f (withId idx store) = f store) ->
  map f (initFrom k l) = map f l.
Proof.
  intros Hf. revert k. induction l as [|x xs IH]; intros k; simpl.
  - reflexivity.
  - rewrite Hf, IH. reflexivity.
Qed.

Lemma initFrom_idem (k : nat) (l : list BsMultiBs) :
  initFrom k (initFrom k l) = initFrom k l.
Proof.
  revert k. induction l as [|x xs IH]; intros k; simpl.
  - reflexivity.
  - rewrite IH. reflexivity.
Qed.

Lemma numberToString_inj (i j : nat) :
  Js.numberToString i = Js.numberToString j -> i = j.
Proof.
  unfold Js.numberToString. intros H.
  apply (f_equal NilEmpty.uint_of_string) in H.
  rewrite !NilEmpty.usu in H. injection H as H.
  apply DecimalNat.Unsigned.to_uint_inj. exact H.
Qed.

Lemma initFrom_nth (k : nat) (l : list BsMultiBs) (b : BsMultiBs) :
  In b (initFrom k l) ->
  exists i store, nth_error l i = Some store /\ b = withId (k + i) store.
Proof.
  revert k. induction l as [|x xs IH]; intros k; simpl; [contradiction|].
  intros [Hb | Hb].
  - exists 0%nat, x. rewrite Nat.add_0_r. split; [reflexivity | congruence].
  - destruct (IH _ Hb) as (i & store & Hi & ->).
    exists (Datatypes.S i), store. split; [exact Hi|].
    f_equal. lia.
Qed.

(** After [init] a binding is determined by its id. *)
Lemma init_id_inj (m : BsMulti) (a b : BsMultiBs) :
  In a (_stores (init m)) -> In b (_stores (init m)) ->
  id a = id b -> a = b.
Proof.
  unfold init; simpl. intros Ha Hb Hid.
  destruct (initFrom_nth _ _ _ Ha) as (i & sa & Hi & ->).
  destruct (initFrom_nth _ _ _ Hb) as (j & sb & Hj & ->).
  simpl in Hid. injection Hid as Hid.
  apply numberToString_inj in Hid. subst j.
  congruence.
Qed.

End InitFacts.

(* ====================================================================== *)
(** ** The effects of the fan-out loops *)

Section EffectFacts.

Context {S : Type}.

Lemma pair_fst_snd {A B : Type} (p : A * B) (a : A) :
  fst p = a -> p = (a, snd p).
Proof. intros <-. destruct p; reflexivity. Qed.

Lemma invoke_calls {A : Type} (r : Ref) (c : Call)
  (method : Bs S -> S -> Result A * S) (w : World S) :
  calls (snd (invoke r c method w)) = calls w ++ [c].
Proof.
  unfold invoke.
  destruct (method (methods (heap w r)) (fields (heap w r))); reflexivity.
Qed.

(** Starting a list of writes never throws, and logs one call per write,
    in array order. *)
Lemma callAll_setBlob (content : Content) (l : list BsMultiBs) (w : World S) :
  exists rs w',
    callAll (map (callSetBlob content) l) w = (Ok rs, w') /\
    List.length rs = List.length l /\
    calls w' = calls w ++ map (fun b => CallSetBlob (bs b) content) l.
Proof.
  revert w. induction l as [|b bs' IH]; intros w; simpl.
  - exists [], w. rewrite app_nil_r. repeat split.
  - unfold bind, settle.
    destruct (callSetBlob content b w) as [r w1] eqn:E1.
    destruct (IH w1) as (rs & w' & E & Hlen & Hcalls).
    rewrite E. exists (r :: rs), w'. simpl. repeat split.
    + congruence.
    + rewrite Hcalls.
      pose proof (invoke_calls (bs b) (CallSetBlob (bs b) content)
                    (fun v => bs_setBlob v content) w) as Hc.
      unfold callSetBlob in E1. rewrite E1 in Hc. simpl in Hc.
      rewrite Hc, <- app_assoc. reflexivity.
Qed.



Lemma tryReadables_first_success {A : Type} (call : BsMultiBs -> M S A)
  pre r post w es w1 a w2 (errors : list Error) :
  allFail call pre w es w1 ->
  call r w1 = (Ok a, w2) ->
  tryReadables call (pre ++ r :: post) errors w
  = (Ok (Some (a, r), errors ++ es), w2).
Proof.
  intros Hfail Hr. revert errors.
  induction Hfail as [w|r0 rest w e w1 es w2' Hcall Hrest IH];
    intros errors; simpl.
  - unfold bind, settle. rewrite Hr. rewrite app_nil_r. reflexivity.
  - unfold bind, settle. rewrite Hcall. simpl.
    rewrite (IH Hr). rewrite <- app_assoc. reflexivity.
Qed.

Lemma tryReadables_all_fail {A : Type} (call : BsMultiBs -> M S A)
  rs w es w1 (errors : list Error) :
  allFail call rs w es w1 ->
  tryReadables call rs errors w = (Ok (None, errors ++ es), w1).
Proof.
  intros Hfail. revert errors.
  induction Hfail as [w|r0 rest w e w1 es w2' Hcall Hrest IH];
    intros errors; simpl.
  - rewrite app_nil_r. reflexivity.
  - unfold bind, settle. rewrite Hcall. simpl.
    rewrite IH, <- app_assoc. reflexivity.
Qed.

(** A served binding is one of the bindings tried. *)
Lemma tryReadables_served_in {A : Type} (call : BsMultiBs -> M S A)
  rs errors w a r errors' w' :
  tryReadables call rs errors w = (Ok (Some (a, r), errors'), w') ->
  In r rs.
Proof.
  revert errors w. induction rs as [|r0 rest IH]; intros errors w; simpl.
  - unfold ret. discriminate.
  - unfold bind, settle. destruct (call r0 w) as [[a0|e] w1].
    + unfold ret. intros H. injection H as _ <- _ _. left; reflexivity.
    + intros H. right. eapply IH, H.
Qed.

Lemma length_zero_nil {A : Type} (l : list A) :
  (List.length l =? 0)%nat = true -> l = [].
Proof. destruct l; [reflexivity | discriminate]. Qed.

(** What [getBlob] does once a binding has answered: the hot-swap writes
    go to [hotSwapTargets], their outcome is dropped, the answer is
    returned after them. *)
Lemma getBlob_served (m : BsMulti) blob options (w : World S)
  res r errors w1 :
  tryReadables (callGetBlob blob options) (readables m) [] w
  = (Ok (Some (res, r), errors), w1) ->
  exists w2,
    getBlob m blob options w = (Ok res, w2) /\
    calls w2 = calls w1 ++
      map (fun b => CallSetBlob (bs b) (fst res))
        (hotSwapTargets m (Js.nullish (id r) "")).
Proof.
  intros Htry. unfold getBlob.
  destruct (List.length (readables m) =? 0)%nat eqn:Hlen.
  - apply length_zero_nil in Hlen. rewrite Hlen in Htry.
    simpl in Htry. discriminate.
  - unfold bind at 1. rewrite Htry.
    destruct (0 <? List.length (writables m))%nat eqn:Hw.
    + destruct (callAll_setBlob (fst res)
                  (hotSwapTargets m (Js.nullish (id r) "")) w1)
        as (rs & w2 & E & _ & Hcalls).
      exists w2. unfold bind. rewrite E. split; [reflexivity | exact Hcalls].
    + exists w1. split; [reflexivity|].
      apply Nat.ltb_ge in Hw.
      assert (Hnil : writables m = [])
        by (destruct (writables m); [reflexivity | simpl in Hw; lia]).
      unfold hotSwapTargets. rewrite Hnil. simpl.
      rewrite app_nil_r. reflexivity.
Qed.

(** What [getBlob] does when no readable binding answers. *)
Lemma getBlob_all_failed (m : BsMulti) blob options (w : World S)
  errors w1 :
  readables m <> [] ->
  allFail (callGetBlob blob options) (readables m) w errors w1 ->
  getBlob m blob options w = (Throw (reconcile blob errors), w1).
Proof.
  intros Hne Hfail. unfold getBlob.
  destruct (List.length (readables m) =? 0)%nat eqn:Hlen.
  - apply length_zero_nil in Hlen. contradiction.
  - unfold bind. rewrite (tryReadables_all_fail _ _ _ _ _ [] Hfail).
    reflexivity.
Qed.

Lemma firstAnswer_all_failed {A : Type} (m : BsMulti) blob
  (call : BsMultiBs -> M S A) (w : World S) errors w1 :
  readables m <> [] ->
  allFail call (readables m) w errors w1 ->
  firstAnswer m blob call w = (Throw (reconcile blob errors), w1).
Proof.
  intros Hne Hfail. unfold firstAnswer.
  destruct (List.length (readables m) =? 0)%nat eqn:Hlen.
  - apply length_zero_nil in Hlen. contradiction.
  - unfold bind. rewrite (tryReadables_all_fail _ _ _ _ _ [] Hfail).
    reflexivity.
Qed.

Lemma firstAnswer_served {A : Type} (m : BsMulti) blob
  (call : BsMultiBs -> M S A) (w : World S) a r errors w1 :
  tryReadables call (readables m) [] w = (Ok (Some (a, r), errors), w1) ->
  firstAnswer m blob call w = (Ok a, w1).
Proof.
  intros Htry. unfold firstAnswer.
  destruct (List.length (readables m) =? 0)%nat eqn:Hlen.
  - apply length_zero_nil in Hlen. rewrite Hlen in Htry.
    simpl in Htry. discriminate.
  - unfold bind. rewrite Htry. reflexivity.
Qed.

End EffectFacts.

(* ====================================================================== *)
(** ** The derived views *)

(** C8: for every binding sequence, [readables] and [writables] hold exactly
    the bindings whose [read] (respectively [write]) flag is true, ascending
    by priority, the bindings of equal priority in the order they have in
    the binding sequence.  Both are functions of the current [_stores]
    alone, recomputed from it: after [init] has replaced the bindings, the
    views are the earlier views with the ids assigned. *)
Theorem views_filter_then_stable_sort (m : BsMulti) :
  (Permutation (readables m) (filter read (_stores m)) /\
   StronglySorted priorityLe (readables m) /\
   forall p, filter (samePriority p) (readables m)
             = filter (samePriority p) (filter read (_stores m))) /\
  (Permutation (writables m) (filter write (_stores m)) /\
   StronglySorted priorityLe (writables m) /\
   forall p, filter (samePriority p) (writables m)
             = filter (samePriority p) (filter write (_stores m))) /\
  Forall2 assigned (readables m) (readables (init m)) /\
  Forall2 assigned (writables m) (writables (init m)).
Proof.
  assert (Hkeep : forall a b, assigned a b ->
            priority a = priority b /\ read a = read b /\ write a = write b).
  { intros a b [idx ->]. repeat split. }
  repeat split.
  - apply sort_perm.
  - apply sort_sorted.
  - intros p. apply sort_stable.
  - apply sort_perm.
  - apply sort_sorted.
  - intros p. apply sort_stable.
  - unfold readables. apply sort_Forall2; [intros a b H; apply Hkeep, H|].
    apply filter_Forall2; [intros a b H; apply Hkeep, H|].
    apply initFrom_assigned.
  - unfold writables. apply sort_Forall2; [intros a b H; apply Hkeep, H|].
    apply filter_Forall2; [intros a b H; apply Hkeep, H|].
    apply initFrom_assigned.
Qed.

(* ====================================================================== *)
(** ** Initialisation *)

(** C4, as the code has it: [init] gives every binding the id [bs-<index>]
    of its position in the binding sequence, whether or not the caller had
    supplied one; it leaves store, priority and flags of every binding as
    they were; and running it again changes nothing. *)
Theorem init_assigns_index_ids (m : BsMulti) :
  map id (_stores (init m))
  = map (fun idx => Some ("bs-" ++ Js.numberToString idx)%string)
      (seq 0 (List.length (_stores m))) /\
  map bs (_stores (init m)) = map bs (_stores m) /\
  map priority (_stores (init m)) = map priority (_stores m) /\
  map read (_stores (init m)) = map read (_stores m) /\
  map write (_stores (init m)) = map write (_stores m) /\
  init (init m) = init m.
Proof.
  unfold init; simpl. repeat split.
  - apply initFrom_ids.
  - apply initFrom_keeps; reflexivity.
  - apply initFrom_keeps; reflexivity.
  - apply initFrom_keeps; reflexivity.
  - apply initFrom_keeps; reflexivity.
  - rewrite initFrom_idem. reflexivity.
Qed.

(** C4 as stated fails: a binding constructed with the id [cache] carries
    the id [bs-0] after [init]; the supplied id is not preserved. *)
Lemma init_overwrites_supplied_id :
  map id (_stores Examples.named) = [Some "cache"] /\
  map id (_stores (init Examples.named)) = [Some "bs-0"] /\
  ~ (forall store store',
       nth_error (_stores Examples.named) 0 = Some store ->
       nth_error (_stores (init Examples.named)) 0 = Some store' ->
       id store <> None -> id store' = id store).
Proof.
  split; [reflexivity|]. split; [reflexivity|].
  intros H. specialize (H _ _ eq_refl eq_refl). simpl in H.
  assert (Hneq : Some "cache" <> @None string) by discriminate.
  specialize (H Hneq). discriminate H.
Qed.

(* ====================================================================== *)
(** ** Configuration errors *)

Section NoTier.

Context {S : Type}.

Lemma no_flag_no_view (flag : BsMultiBs -> bool) (stores : list BsMultiBs) :
  forallb (fun b => negb (flag b)) stores = true ->
  Js.sort byPriority (filter flag stores) = [].
Proof.
  intros H. induction stores as [|b rest IH]; simpl; [reflexivity|].
  simpl in H. apply andb_prop in H as [Hb Hrest].
  apply negb_true_iff in Hb. rewrite Hb. apply IH, Hrest.
Qed.

End NoTier.

(** C7: with no writable binding, [setBlob] and [deleteBlob] throw
    [No writable Bs available]; with no readable binding, [getBlob],
    [getBlobStream], [listBlobs], [blobExists], [getBlobProperties] and
    [generateSignedUrl] throw [No readable Bs available]; in each case the
    world is returned as it was: no store was called, nothing was logged. *)
Theorem no_tier_fails_before_any_call {S : Type}
  (localeCompare : string -> string -> Z) (m : BsMulti) :
  (forallb (fun b => negb (write b)) (_stores m) = true ->
   forall (w : World S) content blob,
     setBlob m content w = (Throw noWritable, w) /\
     deleteBlob m blob w = (Throw noWritable, w)) /\
  (forallb (fun b => negb (read b)) (_stores m) = true ->
   forall (w : World S) blob options listOptions fuel expiresIn permissions,
     getBlob m blob options w = (Throw noReadable, w) /\
     getBlobStream m blob w = (Throw noReadable, w) /\
     listBlobs localeCompare fuel m listOptions w
     = Some (Throw noReadable, w) /\
     blobExists m blob w = (Throw noReadable, w) /\
     getBlobProperties m blob w = (Throw noReadable, w) /\
     generateSignedUrl m blob expiresIn permissions w
     = (Throw noReadable, w)).
Proof.
  split.
  - intros H w content blob.
    unfold setBlob, deleteBlob, writables.
    rewrite (no_flag_no_view write _ H). simpl. split; reflexivity.
  - intros H w blob options listOptions fuel expiresIn permissions.
    unfold getBlob, getBlobStream, listBlobs, blobExists, getBlobProperties,
      generateSignedUrl, firstAnswer, readables.
    rewrite (no_flag_no_view read _ H). simpl. repeat split; reflexivity.
Qed.

(** A binding that is neither readable nor writable, over a fresh store. *)
Lemma no_tier_fails_before_any_call_witness :
  (setBlob Examples.inert "hello" Examples.oneFresh
   = (Throw noWritable, Examples.oneFresh) /\
   deleteBlob Examples.inert "sha:hello" Examples.oneFresh
   = (Throw noWritable, Examples.oneFresh)) /\
  getBlob Examples.inert "sha:hello" None Examples.oneFresh
  = (Throw noReadable, Examples.oneFresh) /\
  listBlobs BsMem.compareIds 0 Examples.inert None Examples.oneFresh
  = Some (Throw noReadable, Examples.oneFresh).
Proof.
  pose (w := Examples.oneFresh).
  destruct (no_tier_fails_before_any_call
              (S := BsMem.State) BsMem.compareIds Examples.inert)
    as [Hwrite Hread].
  split.
  - apply (Hwrite eq_refl w "hello" "sha:hello").
  - destruct (Hread eq_refl w "sha:hello" None None 0%nat 0 PermRead)
      as (Hget & _ & Hlist & _).
    split; [exact Hget | exact Hlist].
Defined.

(* ====================================================================== *)
(** ** [setBlob] *)



(* ====================================================================== *)
(** ** Error reconciliation of the fan-out reads *)

Section Reconcile.

Lemma filter_length_all {A : Type} (f : A -> bool) (l : list A) :
  (List.length (filter f l) =? List.length l)%nat = forallb f l.
Proof.
  induction l as [|x xs IH]; simpl; [reflexivity|].
  destruct (f x); simpl.
  - exact IH.
  - pose proof (filter_length_le f xs) as Hle.
    apply Nat.eqb_neq. lia.
Qed.

(** If every caught error is a not-found error, a fresh not-found error
    is thrown. *)
Lemma reconcile_all_not_found (b : BlobId) (errors : list Error) :
  forallb isNotFound errors = true ->
  reconcile b errors = blobNotFound b.
Proof.
  intros H. unfold reconcile. rewrite filter_length_all, H. reflexivity.
Qed.

(** Otherwise the first caught error is thrown, whatever its kind. *)
Lemma reconcile_mixed (b : BlobId) (e : Error) (errors : list Error) :
  forallb isNotFound (e :: errors) = false ->
  reconcile b (e :: errors) = e.
Proof.
  intros H. unfold reconcile. rewrite filter_length_all, H. reflexivity.
Qed.

End Reconcile.

(** C1, checked on the code: the highest tier does not hold the blob and
    the next one throws [Network timeout].  The failures are mixed, and the
    first error that is not a not-found error is [Network timeout]; yet
    [getBlob], [getBlobProperties] and [generateSignedUrl] all throw the
    first error caught, the highest tier's [Blob not found: x]. *)
Theorem mixed_failures_throw_first_caught_error :
  map bs (readables Examples.twoReaders) = [0%nat; 1%nat] /\
  fst (tryReadables (callGetBlob "x" None)
         (readables Examples.twoReaders) [] Examples.missThenTimeout)
  = Ok (None, [blobNotFound "x"; mkError "Network timeout"]) /\
  find (fun e => negb (isNotFound e))
    [blobNotFound "x"; mkError "Network timeout"]
  = Some (mkError "Network timeout") /\
  fst (getBlob Examples.twoReaders "x" None Examples.missThenTimeout)
  = Throw (blobNotFound "x") /\
  fst (getBlobProperties Examples.twoReaders "x" Examples.missThenTimeout)
  = Throw (blobNotFound "x") /\
  fst (generateSignedUrl Examples.twoReaders "x" 3600 PermRead
         Examples.missThenTimeout)
  = Throw (blobNotFound "x").
Proof. vm_compute. repeat split; reflexivity. Qed.

(* ====================================================================== *)
(** ** Fallback of [getBlob] *)

(** C2, as the code has it: if the readable bindings before [r] in priority
    order all fail, with whatever errors, and [r] answers, then [getBlob]
    returns the answer of [r]; a failure of a higher tier, not-found or
    not, never outweighs a lower tier that holds the blob. *)
Theorem getBlob_falls_back_to_first_answer {S : Type} (m : BsMulti)
  (blob : BlobId) (options : option DownloadBlobOptions)
  (pre post : list BsMultiBs) (r : BsMultiBs) (errors : list Error)
  (w w1 w2 : World S) (result : Content * BlobProperties) :
  readables m = pre ++ r :: post ->
  allFail (callGetBlob blob options) pre w errors w1 ->
  callGetBlob blob options r w1 = (Ok result, w2) ->
  exists w3, getBlob m blob options w = (Ok result, w3).
Proof.
  intros Hrs Hfail Hr.
  pose proof (tryReadables_first_success _ pre r post w errors w1 result w2 []
                Hfail Hr) as Htry.
  rewrite <- Hrs in Htry.
  destruct (getBlob_served m blob options w result r _ w2 Htry)
    as (w3 & Hget & _).
  exists w3. exact Hget.
Qed.

(** The first tier is down, the second holds the blob. *)
Lemma getBlob_falls_back_to_first_answer_witness :
  exists w3,
    getBlob Examples.twoReaders "sha:Test" None Examples.failureThenHolding
    = (Ok ("Test", {| blobId := "sha:Test"; size := 4; createdAt := 0 |}), w3).
Proof.
  pose (w := Examples.failureThenHolding).
  apply (getBlob_falls_back_to_first_answer Examples.twoReaders "sha:Test" None
           [withId 0 Examples.tier0] [] (withId 1 Examples.tier1)
           [mkError "Store failure"] w
           (snd (callGetBlob "sha:Test" None (withId 0 Examples.tier0) w))
           (snd (callGetBlob "sha:Test" None (withId 1 Examples.tier1)
                   (snd (callGetBlob "sha:Test" None
                           (withId 0 Examples.tier0) w))))).
  - reflexivity.
  - eapply allFail_cons; [|apply allFail_nil].
    apply pair_fst_snd. reflexivity.
  - apply pair_fst_snd. reflexivity.
Defined.

(** C2 as stated fails: the highest-priority readable binding throws
    [Store failure], which is not a not-found error, the lower one holds
    the blob, and [getBlob] returns the lower tier's content. *)
Lemma higher_tier_error_does_not_outweigh_lower_tier :
  map bs (readables Examples.twoReaders) = [0%nat; 1%nat] /\
  fst (callGetBlob "sha:Test" None (withId 0 Examples.tier0)
         Examples.failureThenHolding)
  = Throw (mkError "Store failure") /\
  isNotFound (mkError "Store failure") = false /\
  fst (callBlobExists "sha:Test" (withId 1 Examples.tier1)
         Examples.failureThenHolding)
  = Ok true /\
  fst (getBlob Examples.twoReaders "sha:Test" None
         Examples.failureThenHolding)
  = Ok ("Test", {| blobId := "sha:Test"; size := 4; createdAt := 0 |}) /\
  fst (getBlob Examples.twoReaders "sha:Test" None
         Examples.failureThenHolding)
  <> Throw (mkError "Store failure").
Proof. vm_compute. repeat split; try reflexivity. discriminate. Qed.

(* ====================================================================== *)
(** ** Hot-swap caching *)

Section HotSwap.

Lemma filter_all {A : Type} (f : A -> bool) (l : list A) :
  (forall x, In x l -> f x = true) -> filter f l = l.
Proof.
  intros H. induction l as [|x xs IH]; simpl; [reflexivity|].
  rewrite (H x (or_introl eq_refl)), IH; [reflexivity|].
  intros y Hy. apply H. right. exact Hy.
Qed.

Lemma readables_in (m : BsMulti) (b : BsMultiBs) :
  In b (readables m) <-> In b (_stores m) /\ read b = true.
Proof. unfold readables. rewrite sort_in. apply filter_In. Qed.

Lemma writables_in (m : BsMulti) (b : BsMultiBs) :
  In b (writables m) <-> In b (_stores m) /\ write b = true.
Proof. unfold writables. rewrite sort_in. apply filter_In. Qed.

Lemma init_has_id (m : BsMulti) (b : BsMultiBs) :
  In b (_stores (init m)) -> exists s, id b = Some s.
Proof.
  unfold init; simpl. intros Hb.
  destruct (initFrom_nth _ _ _ Hb) as (i & store & _ & ->).
  simpl. eexists. reflexivity.
Qed.

(** Without ids nothing is filtered out of the hot-swap. *)
Lemma hotSwapTargets_no_ids (m : BsMulti) :
  Forall (fun b => id b = None) (_stores m) ->
  hotSwapTargets m "" = writables m.
Proof.
  intros Hnone. unfold hotSwapTargets. apply filter_all.
  intros b Hb. apply writables_in in Hb as [Hb _].
  rewrite Forall_forall in Hnone. rewrite (Hnone b Hb). reflexivity.
Qed.

(** With the ids of [init], exactly the serving binding is filtered out. *)
Lemma hotSwapTargets_init (m : BsMulti) (r b : BsMultiBs) :
  In r (_stores (init m)) ->
  (In b (hotSwapTargets (init m) (Js.nullish (id r) ""))
   <-> In b (writables (init m)) /\ b <> r).
Proof.
  intros Hr. destruct (init_has_id m r Hr) as [s Hs].
  unfold hotSwapTargets. rewrite filter_In, Hs. simpl.
  split; intros [Hb Hd]; (split; [exact Hb|]).
  - intros ->. rewrite Hs in Hd. simpl in Hd.
    rewrite String.eqb_refl in Hd. discriminate.
  - destruct (id b) as [t|] eqn:Ht; simpl; [|reflexivity].
    apply negb_true_iff, String.eqb_neq. intros ->.
    apply Hd. apply (init_id_inj m); [|exact Hr|congruence].
    apply writables_in in Hb. apply Hb.
Qed.

End HotSwap.

(** C5, checked on the code: the read-only remote holds [0123456789], the
    writable local cache is empty, and [getBlob] is called with the byte
    range 2..5.  The remote serves the bytes [234]; the hot-swap stores
    those bytes in the cache, under their own digest, and the cache still
    does not hold the blob that was asked for.  Without a range the same
    call leaves the blob in the cache. *)
Theorem ranged_read_caches_fragment_only :
  fst (getBlob Examples.example "sha:0123456789"
         (Some {| range := Some {| start := 2; end_ := Some 5 |} |})
         (Examples.emptyCacheRemoteHolds ["0123456789"]))
  = Ok ("234", {| blobId := "sha:0123456789"; size := 10; createdAt := 0 |}) /\
  calls (snd (getBlob Examples.example "sha:0123456789"
                (Some {| range := Some {| start := 2; end_ := Some 5 |} |})
                (Examples.emptyCacheRemoteHolds ["0123456789"])))
  = [ CallGetBlob 0%nat "sha:0123456789"
        (Some {| range := Some {| start := 2; end_ := Some 5 |} |});
      CallGetBlob 1%nat "sha:0123456789"
        (Some {| range := Some {| start := 2; end_ := Some 5 |} |});
      CallSetBlob 0%nat "234" ] /\
  fst (callBlobExists "sha:0123456789" (withId 0 Examples.bsLocal)
         (snd (getBlob Examples.example "sha:0123456789"
                 (Some {| range := Some {| start := 2; end_ := Some 5 |} |})
                 (Examples.emptyCacheRemoteHolds ["0123456789"]))))
  = Ok false /\
  fst (callBlobExists "sha:0123456789" (withId 0 Examples.bsLocal)
         (snd (getBlob Examples.example "sha:0123456789" None
                 (Examples.emptyCacheRemoteHolds ["0123456789"]))))
  = Ok true.
Proof. vm_compute. repeat split; reflexivity. Qed.

(** C10, as the code has it: when no binding carries an id (none was given
    at construction and [init] has not run), the serving tier is recorded
    as the empty string and the hot-swap writes to every writable binding,
    the serving one included if it is writable.  Once [init] has assigned
    the ids, the hot-swap writes to every writable binding but the serving
    one. *)
Theorem hot_swap_excludes_source_only_with_ids {S : Type} (m : BsMulti) :
  (Forall (fun b => id b = None) (_stores m) ->
   forall blob options (w w1 : World S) result r errors,
     tryReadables (callGetBlob blob options) (readables m) [] w
     = (Ok (Some (result, r), errors), w1) ->
     Js.nullish (id r) "" = "" /\
     (write r = true -> In r (writables m)) /\
     exists w2,
       getBlob m blob options w = (Ok result, w2) /\
       calls w2 = calls w1 ++
         map (fun b => CallSetBlob (bs b) (fst result)) (writables m)) /\
  (forall blob options (w w1 : World S) result r errors,
     tryReadables (callGetBlob blob options) (readables (init m)) [] w
     = (Ok (Some (result, r), errors), w1) ->
     exists targets w2,
       getBlob (init m) blob options w = (Ok result, w2) /\
       calls w2 = calls w1 ++
         map (fun b => CallSetBlob (bs b) (fst result)) targets /\
       forall b, In b targets <-> In b (writables (init m)) /\ b <> r).
Proof.
  split.
  - intros Hnone blob options w w1 result r errors Htry.
    pose proof (tryReadables_served_in _ _ _ _ _ _ _ _ Htry) as Hr.
    apply readables_in in Hr as [Hr _].
    assert (Hid : id r = None)
      by (rewrite Forall_forall in Hnone; apply Hnone, Hr).
    split; [rewrite Hid; reflexivity|].
    split; [intros Hw; apply writables_in; split; assumption|].
    destruct (getBlob_served m blob options w result r errors w1 Htry)
      as (w2 & Hget & Hcalls).
    exists w2. split; [exact Hget|].
    rewrite Hcalls, Hid. simpl. rewrite (hotSwapTargets_no_ids m Hnone).
    reflexivity.
  - intros blob options w w1 result r errors Htry.
    pose proof (tryReadables_served_in _ _ _ _ _ _ _ _ Htry) as Hr.
    apply readables_in in Hr as [Hr _].
    destruct (getBlob_served (init m) blob options w result r errors w1 Htry)
      as (w2 & Hget & Hcalls).
    exists (hotSwapTargets (init m) (Js.nullish (id r) "")), w2.
    split; [exact Hget|]. split; [exact Hcalls|].
    intros b. apply hotSwapTargets_init, Hr.
Qed.

(** The bindings of [BsMulti.example] over a cache that holds the blob,
    before and after [init]. *)
Lemma hot_swap_excludes_source_only_with_ids_witness :
  (exists w2,
     getBlob Examples.uninitialised "sha:Test" None Examples.cacheHolds
     = (Ok ("Test", {| blobId := "sha:Test"; size := 4; createdAt := 0 |}), w2)
     /\ calls w2
        = [CallGetBlob 0%nat "sha:Test" None] ++ [CallSetBlob 0%nat "Test"]) /\
  (exists targets w2,
     getBlob Examples.example "sha:Test" None Examples.cacheHolds
     = (Ok ("Test", {| blobId := "sha:Test"; size := 4; createdAt := 0 |}), w2)
     /\ calls w2
        = [CallGetBlob 0%nat "sha:Test" None] ++
          map (fun b => CallSetBlob (bs b) "Test") targets
     /\ forall b, In b targets
          <-> In b (writables Examples.example)
              /\ b <> withId 0 Examples.bsLocal).
Proof.
  destruct (hot_swap_excludes_source_only_with_ids
              (S := BsMem.State) Examples.uninitialised) as [Hnoid Hinit].
  split.
  - destruct (Hnoid
                ltac:(repeat constructor)
                "sha:Test" None Examples.cacheHolds
                (snd (tryReadables (callGetBlob "sha:Test" None)
                        (readables Examples.uninitialised) []
                        Examples.cacheHolds))
                ("Test", {| blobId := "sha:Test"; size := 4; createdAt := 0 |})
                Examples.bsLocal []
                ltac:(apply pair_fst_snd; reflexivity))
      as (_ & _ & w2 & Hget & Hcalls).
    exists w2. split; [exact Hget | exact Hcalls].
  - apply (Hinit "sha:Test" None Examples.cacheHolds
             (snd (tryReadables (callGetBlob "sha:Test" None)
                     (readables Examples.example) []
                     Examples.cacheHolds))
             ("Test", {| blobId := "sha:Test"; size := 4; createdAt := 0 |})
             (withId 0 Examples.bsLocal) []).
    apply pair_fst_snd. reflexivity.
Defined.

(** C10 as stated fails: [init] has never run, yet the binding was
    constructed with the id [cache]; its id is not undefined, the serving
    tier is recorded under that id, and the hot-swap issues no write to the
    serving binding although it is writable. *)
Lemma supplied_id_excludes_source_without_init :
  map id (_stores Examples.named) = [Some "cache"] /\
  map bs (writables Examples.named) = [0%nat] /\
  fst (getBlob Examples.named "sha:Test" None Examples.cacheHolds)
  = Ok ("Test", {| blobId := "sha:Test"; size := 4; createdAt := 0 |}) /\
  calls (snd (getBlob Examples.named "sha:Test" None Examples.cacheHolds))
  = [CallGetBlob 0%nat "sha:Test" None].
Proof. vm_compute. repeat split; reflexivity. Qed.

(* ====================================================================== *)
(** ** Pagination over the merged listing *)

Section FindIndex.

Context {A : Type}.
Variable p : A -> bool.

Lemma findIndexFrom_none (l : list A) (i : Z) :
  (forall x, In x l -> p x = false) -> Js.findIndexFrom p l i = -1.
Proof.
  revert i. induction l as [|x xs IH]; intros i H; simpl; [reflexivity|].
  rewrite (H x (or_introl eq_refl)). apply IH.
  intros y Hy. apply H. right. exact Hy.
Qed.

Lemma findIndexFrom_first (l : list A) (i : Z) (j : nat) (b : A) :
  nth_error l j = Some b ->
  p b = true ->
  (forall j' b', (j' < j)%nat -> nth_error l j' = Some b' -> p b' = false) ->
  Js.findIndexFrom p l i = i + Z.of_nat j.
Proof.
  revert i j. induction l as [|x xs IH]; intros i j Hnth Hb Hbefore.
  - destruct j; discriminate Hnth.
  - destruct j as [|j]; simpl in *.
    + injection Hnth as ->. rewrite Hb. lia.
    + rewrite (Hbefore 0%nat x ltac:(lia) eq_refl).
      rewrite (IH (i + 1) j Hnth Hb).
      * lia.
      * intros j' b' Hlt Hj'. apply (Hbefore (Datatypes.S j') b');
          [lia | exact Hj'].
Qed.

Lemma lastElem_nth (l : list A) :
  Js.lastElem l = nth_error l (List.length l - 1).
Proof.
  induction l as [|x xs IH]; [reflexivity|].
  destruct xs as [|y ys]; [reflexivity|].
  change (Js.lastElem (x :: y :: ys)) with (Js.lastElem (y :: ys)).
  rewrite IH. simpl. rewrite Nat.sub_0_r. reflexivity.
Qed.

Lemma slice_in_range (l : list A) (s e : Z) :
  0 <= s <= e -> e <= Z.of_nat (List.length l) ->
  Js.slice l s e = firstn (Z.to_nat (e - s)) (skipn (Z.to_nat s) l).
Proof.
  intros Hs He. unfold Js.slice.
  destruct (s <? 0) eqn:Hs0; [apply Z.ltb_lt in Hs0; lia|].
  destruct (e <? 0) eqn:He0; [apply Z.ltb_lt in He0; lia|].
  rewrite !Z.min_l by lia. reflexivity.
Qed.

End FindIndex.

(** Where a search and a page can start. *)
Lemma findIndexFrom_range {A : Type} (p : A -> bool) (l : list A) (i : Z) :
  Js.findIndexFrom p l i = -1 \/
  i <= Js.findIndexFrom p l i < i + Z.of_nat (List.length l).
Proof.
  revert i. induction l as [|x xs IH]; intros i; simpl List.length.
  - left. reflexivity.
  - simpl Js.findIndexFrom. destruct (p x).
    + right. lia.
    + destruct (IH (i + 1)) as [H | H]; [left; exact H | right; lia].
Qed.

Lemma startIndexOf_range (all : list BlobProperties)
  (options : option ListBlobsOptions) :
  0 <= startIndexOf all options <= Z.of_nat (List.length all).
Proof.
  unfold startIndexOf. destruct options as [o|]; [|lia].
  destruct (continuationToken o) as [token|]; [|lia].
  destruct (Js.truthy token); [|lia].
  unfold Js.findIndex.
  destruct (findIndexFrom_range
              (fun blob => (blobId blob =? token)%string) all 0) as [H | H].
  - rewrite H. simpl. lia.
  - destruct (Js.findIndexFrom _ all 0 =? -1) eqn:E; lia.
Qed.

Section Pagination.

Variable merged : list BlobProperties.
Variable k : Z.
Hypothesis Hnodup : NoDup (map blobId merged).
Hypothesis Hnonempty : Forall (fun b => blobId b <> "") merged.
Hypothesis Hk : 1 <= k.

(** The token that is the id of the blob at index [j] resumes at [j + 1]. *)
Lemma startIndexOf_token (j : nat) (b : BlobProperties) :
  nth_error merged j = Some b ->
  startIndexOf merged (pageOptions k (Some (blobId b))) = Z.of_nat j + 1.
Proof.
  intros Hj. unfold startIndexOf, pageOptions. simpl.
  assert (Hne : Js.truthy (blobId b) = true).
  { unfold Js.truthy. apply negb_true_iff, String.eqb_neq.
    rewrite Forall_forall in Hnonempty. apply Hnonempty.
    eapply nth_error_In, Hj. }
  rewrite Hne. unfold Js.findIndex.
  rewrite (findIndexFrom_first _ merged 0 j b Hj (String.eqb_refl _)).
  - destruct (0 + Z.of_nat j =? -1) eqn:E; [apply Z.eqb_eq in E; lia | lia].
  - intros j' b' Hlt Hj'. apply String.eqb_neq. intros Heq.
    assert (Hlen : (j' < List.length (map blobId merged))%nat).
    { rewrite length_map. apply nth_error_Some. congruence. }
    pose proof (proj1 (NoDup_nth_error _) Hnodup j' j Hlen) as Hinj.
    rewrite !nth_error_map, Hj, Hj' in Hinj. simpl in Hinj.
    specialize (Hinj ltac:(congruence)). lia.
Qed.

(** The page that starts at index [i]. *)
Lemma paginate_from (i : nat) (token : option string) :
  (i <= List.length merged)%nat ->
  startIndexOf merged (pageOptions k token) = Z.of_nat i ->
  blobs (paginate merged (pageOptions k token))
  = firstn (Z.to_nat k) (skipn i merged) /\
  nextToken (paginate merged (pageOptions k token))
  = if Z.of_nat i + k <? Z.of_nat (List.length merged)
    then option_map blobId (nth_error merged (i + Z.to_nat k - 1))
    else None.
Proof.
  intros Hi Hstart. unfold paginate. rewrite Hstart.
  change (Js.nullish
            (match pageOptions k token with
             | Some o => maxResults o
             | None => None
             end) (Z.of_nat (List.length merged))) with k.
  cbv zeta. simpl blobs. simpl nextToken.
  set (len := Z.of_nat (List.length merged)).
  rewrite slice_in_range by (fold len; lia).
  rewrite Nat2Z.id.
  assert (Hpage :
    firstn (Z.to_nat (Z.min (Z.of_nat i + k) len - Z.of_nat i))
      (skipn i merged)
    = firstn (Z.to_nat k) (skipn i merged)).
  { destruct (Z.le_gt_cases (Z.of_nat i + k) len) as [Hle|Hgt].
    - rewrite Z.min_l by lia. f_equal. lia.
    - rewrite Z.min_r by lia.
      rewrite !firstn_all2; [reflexivity | |];
        rewrite length_skipn; unfold len in *; lia. }
  rewrite Hpage. split; [reflexivity|].
  destruct (Z.of_nat i + k <? len) eqn:Hlt.
  - apply Z.ltb_lt in Hlt.
    assert (Hmin : (Z.min (Z.of_nat i + k) len <? len) = true)
      by (apply Z.ltb_lt; lia).
    rewrite Hmin. f_equal.
    rewrite lastElem_nth, length_firstn, length_skipn.
    rewrite nth_error_firstn, nth_error_skipn.
    assert (Hin : (Nat.min (Z.to_nat k) (List.length merged - i) - 1
                   <? Z.to_nat k)%nat = true)
      by (apply Nat.ltb_lt; unfold len in *; lia).
    rewrite Hin. f_equal. unfold len in *. lia.
  - apply Z.ltb_ge in Hlt.
    assert (Hmin : (Z.min (Z.of_nat i + k) len <? len) = false)
      by (apply Z.ltb_ge; lia).
    rewrite Hmin. reflexivity.
Qed.

Lemma chainPages_step (fuel : nat) (token : option string) :
  chainPages (Datatypes.S fuel) k merged token
  = match nextToken (paginate merged (pageOptions k token)) with
    | None => Some [blobs (paginate merged (pageOptions k token))]
    | Some t =>
        match chainPages fuel k merged (Some t) with
        | Some pages =>
            Some (blobs (paginate merged (pageOptions k token)) :: pages)
        | None => None
        end
    end.
Proof. reflexivity. Qed.

(** Chaining from index [i] yields the rest of the listing. *)
Lemma chainPages_from (fuel i : nat) (token : option string) :
  (i <= List.length merged)%nat ->
  (List.length merged - i < fuel)%nat ->
  startIndexOf merged (pageOptions k token) = Z.of_nat i ->
  exists pages,
    chainPages fuel k merged token = Some pages /\
    List.concat pages = skipn i merged.
Proof.
  revert i token. induction fuel as [|fuel IH]; intros i token Hi Hfuel Hstart;
    [lia|].
  rewrite chainPages_step.
  destruct (paginate_from i token Hi Hstart) as [Hblobs Htoken].
  rewrite Htoken, Hblobs.
  destruct (Z.of_nat i + k <? Z.of_nat (List.length merged)) eqn:Hlt.
  - apply Z.ltb_lt in Hlt.
    destruct (nth_error merged (i + Z.to_nat k - 1)) as [b|] eqn:Hb.
    + cbn [option_map].
      destruct (IH (i + Z.to_nat k)%nat (Some (blobId b)))
        as (pages & Hchain & Hconcat).
      * lia.
      * lia.
      * rewrite (startIndexOf_token _ b Hb). lia.
      * exists (firstn (Z.to_nat k) (skipn i merged) :: pages).
        split; [unfold BlobId in *; rewrite Hchain; reflexivity|].
        simpl. rewrite Hconcat.
        etransitivity; [|apply (firstn_skipn (Z.to_nat k))].
        f_equal. rewrite skipn_skipn. f_equal. lia.
    + apply nth_error_None in Hb. lia.
  - apply Z.ltb_ge in Hlt. eexists. split; [reflexivity|].
    simpl. rewrite app_nil_r. apply firstn_all2.
    rewrite length_skipn. lia.
Qed.

End Pagination.

(** Chaining over a listing without duplicate ids. *)
Lemma chain_over_listing (merged : list BlobProperties) (k : Z) :
  NoDup (map blobId merged) ->
  Forall (fun b => blobId b <> "") merged ->
  1 <= k ->
  (forall fuel, (List.length merged < fuel)%nat ->
     exists pages,
       chainPages fuel k merged None = Some pages /\
       List.concat pages = merged) /\
  (forall options t,
     nextToken (paginate merged options) = Some t ->
     exists b,
       Js.lastElem (blobs (paginate merged options)) = Some b /\
       blobId b = t) /\
  (forall pre mx t,
     ~ In t (map blobId merged) ->
     paginate merged
       (Some {| prefix := pre; maxResults := mx;
                continuationToken := Some t |})
     = paginate merged
         (Some {| prefix := pre; maxResults := mx;
                  continuationToken := None |})).
Proof.
  intros Hnodup Hnonempty Hk. split; [|split].
  - intros fuel Hfuel.
    destruct (chainPages_from merged k Hnodup Hnonempty Hk fuel 0 None)
      as (pages & Hchain & Hconcat); [lia | lia | reflexivity |].
    exists pages. split; [exact Hchain | exact Hconcat].
  - intros options t. unfold paginate. cbv zeta. simpl blobs. simpl nextToken.
    match goal with
    | |- (if ?c then _ else _) = _ -> _ => destruct c; [|discriminate]
    end.
    match goal with
    | |- option_map _ ?l = _ -> _ => destruct l as [b|]; [|discriminate]
    end.
    simpl. intros H. injection H as <-. exists b. split; reflexivity.
  - intros pre mx t Hnotin.
    assert (Hstart :
      startIndexOf merged
        (Some {| prefix := pre; maxResults := mx;
                 continuationToken := Some t |}) = 0).
    { unfold startIndexOf. simpl. destruct (Js.truthy t); [|reflexivity].
      unfold Js.findIndex. rewrite findIndexFrom_none; [reflexivity|].
      intros b Hb. apply String.eqb_neq. intros <-.
      apply Hnotin, in_map, Hb. }
    unfold paginate. rewrite Hstart. reflexivity.
Qed.

(** The page a call with page size [k] returns: the first [k] blobs from
    the start index on, with a token exactly when blobs remain after it. *)
Lemma page_of_call (merged : list BlobProperties) (k : Z)
  (token : option string) :
  1 <= k ->
  exists start,
    Z.of_nat start = startIndexOf merged (pageOptions k token) /\
    (start <= List.length merged)%nat /\
    blobs (paginate merged (pageOptions k token))
    = firstn (Z.to_nat k) (skipn start merged) /\
    (nextToken (paginate merged (pageOptions k token)) = None <->
     Z.of_nat (List.length merged) <= Z.of_nat start + k).
Proof.
  intros Hk.
  pose proof (startIndexOf_range merged (pageOptions k token)) as Hrange.
  exists (Z.to_nat (startIndexOf merged (pageOptions k token))).
  set (start := Z.to_nat (startIndexOf merged (pageOptions k token))).
  assert (Hstart : startIndexOf merged (pageOptions k token)
                   = Z.of_nat start) by (unfold start; lia).
  assert (Hle : (start <= List.length merged)%nat) by (unfold start; lia).
  destruct (paginate_from merged k Hk start token Hle Hstart)
    as [Hblobs Htoken].
  split; [symmetry; exact Hstart|]. split; [exact Hle|].
  split; [exact Hblobs|].
  rewrite Htoken.
  destruct (Z.of_nat start + k <? Z.of_nat (List.length merged)) eqn:Hlt.
  - apply Z.ltb_lt in Hlt.
    destruct (nth_error merged (start + Z.to_nat k - 1)) as [b|] eqn:Hb.
    + cbn [option_map]. split; [discriminate | lia].
    + apply nth_error_None in Hb. lia.
  - apply Z.ltb_ge in Hlt. split; [intros _; exact Hlt | reflexivity].
Qed.

(** The pages of a chain are chunks of [k] blobs, the last one the rest. *)
Lemma chainPages_chunks (merged : list BlobProperties) (k : Z) :
  NoDup (map blobId merged) ->
  Forall (fun b => blobId b <> "") merged ->
  1 <= k ->
  forall (fuel i : nat) (token : option string),
    (i <= List.length merged)%nat ->
    (List.length merged - i < fuel)%nat ->
    startIndexOf merged (pageOptions k token) = Z.of_nat i ->
    exists pages,
      chainPages fuel k merged token = Some pages /\
      List.concat pages = skipn i merged /\
      Forall (fun page => Z.of_nat (List.length page) <= k) pages /\
      (forall j, (Datatypes.S j < List.length pages)%nat ->
         Z.of_nat (List.length (nth j pages [])) = k) /\
      ((i < List.length merged)%nat ->
       Forall (fun page => page <> []) pages).
Proof.
  intros Hnodup Hnonempty Hk fuel.
  induction fuel as [|fuel IH]; intros i token Hi Hfuel Hstart; [lia|].
  rewrite chainPages_step.
  destruct (paginate_from merged k Hk i token Hi Hstart)
    as [Hblobs Htoken].
  rewrite Htoken, Hblobs.
  assert (Hsize :
    List.length (firstn (Z.to_nat k) (skipn i merged))
    = Nat.min (Z.to_nat k) (List.length merged - i))
    by (rewrite length_firstn, length_skipn; reflexivity).
  destruct (Z.of_nat i + k <? Z.of_nat (List.length merged)) eqn:Hlt.
  - apply Z.ltb_lt in Hlt.
    destruct (nth_error merged (i + Z.to_nat k - 1)) as [b|] eqn:Hb;
      [|apply nth_error_None in Hb; lia].
    cbn [option_map].
    destruct (IH (i + Z.to_nat k)%nat (Some (blobId b)))
      as (pages & Hchain & Hconcat & Hbound & Hfull & Hsome).
    + lia.
    + lia.
    + rewrite (startIndexOf_token merged k Hnodup Hnonempty _ b Hb). lia.
    + exists (firstn (Z.to_nat k) (skipn i merged) :: pages).
      split; [unfold BlobId in *; rewrite Hchain; reflexivity|].
      split.
      { simpl. rewrite Hconcat.
        etransitivity; [|apply (firstn_skipn (Z.to_nat k))].
        f_equal. rewrite skipn_skipn. f_equal. lia. }
      split; [constructor; [rewrite Hsize; lia | exact Hbound]|].
      split.
      { intros [|j] Hj.
        - simpl nth. rewrite Hsize. lia.
        - simpl nth. apply Hfull. simpl in Hj. lia. }
      intros _. constructor.
      * intros Hnil. apply (f_equal (@List.length _)) in Hnil.
        rewrite Hsize in Hnil. simpl in Hnil. lia.
      * apply Hsome. lia.
  - apply Z.ltb_ge in Hlt.
    exists [firstn (Z.to_nat k) (skipn i merged)].
    split; [reflexivity|].
    split.
    { simpl. rewrite app_nil_r. apply firstn_all2.
      rewrite length_skipn. lia. }
    split; [constructor; [rewrite Hsize; lia | constructor]|].
    split; [intros j Hj; simpl in Hj; lia|].
    intros Hsome. constructor; [|constructor].
    intros Hnil. apply (f_equal (@List.length _)) in Hnil.
    rewrite Hsize in Hnil. simpl in Hnil. lia.
Qed.

(* ====================================================================== *)
(** ** Collection of the listing *)

Section BlobMap.

Lemma mapHas_in {V : Type} (bm : Js.Map V) (key : string) :
  Js.mapHas bm key = true <-> In key (map fst bm).
Proof.
  unfold Js.mapHas. rewrite existsb_exists. split.
  - intros (kv & Hin & Heq). apply String.eqb_eq in Heq. subst key.
    apply in_map, Hin.
  - intros Hin. apply in_map_iff in Hin as (kv & <- & Hin).
    exists kv. split; [exact Hin | apply String.eqb_refl].
Qed.

Lemma mapSet_absent {V : Type} (bm : Js.Map V) (key : string) (v : V) :
  Js.mapHas bm key = false -> Js.mapSet bm key v = bm ++ [(key, v)].
Proof.
  induction bm as [|[k' v'] rest IH]; simpl; [reflexivity|].
  intros H. apply orb_false_iff in H as [Hk Hrest].
  rewrite Hk, (IH Hrest). reflexivity.
Qed.

(** The step of [addPage]: one blob, set unless its id is there. *)
Lemma addPage_cons (bm : Js.Map BlobProperties) (blob : BlobProperties)
  (page : list BlobProperties) :
  addPage bm (blob :: page)
  = addPage (if Js.mapHas bm (blobId blob) then bm
             else bm ++ [(blobId blob, blob)]) page.
Proof.
  unfold addPage. simpl.
  destruct (Js.mapHas bm (blobId blob)) eqn:Hhas; [reflexivity|].
  rewrite (mapSet_absent _ _ _ Hhas). reflexivity.
Qed.

Lemma addPage_keeps_keys bm page key :
  In key (map fst bm) -> In key (map fst (addPage bm page)).
Proof.
  revert bm. induction page as [|blob rest IH]; intros bm Hin;
    [exact Hin|].
  rewrite addPage_cons. apply IH.
  destruct (Js.mapHas bm (blobId blob)); [exact Hin|].
  rewrite map_app. apply in_or_app. left. exact Hin.
Qed.

Lemma addPage_adds bm page blob :
  In blob page -> In (blobId blob) (map fst (addPage bm page)).
Proof.
  revert bm. induction page as [|b rest IH]; intros bm Hin;
    [contradiction|].
  rewrite addPage_cons. destruct Hin as [-> | Hin]; [|apply IH, Hin].
  apply addPage_keeps_keys.
  destruct (Js.mapHas bm (blobId blob)) eqn:Hhas.
  - apply mapHas_in, Hhas.
  - rewrite map_app. apply in_or_app. right. left. reflexivity.
Qed.

Lemma addPage_keyed bm page : keyed bm -> keyed (addPage bm page).
Proof.
  revert bm. induction page as [|blob rest IH]; intros bm Hk; [exact Hk|].
  rewrite addPage_cons. apply IH.
  destruct (Js.mapHas bm (blobId blob)); [exact Hk|].
  apply Forall_app. split; [exact Hk|]. constructor; [reflexivity|constructor].
Qed.

Lemma addPage_nodup bm page :
  NoDup (map fst bm) -> NoDup (map fst (addPage bm page)).
Proof.
  revert bm. induction page as [|blob rest IH]; intros bm Hnd; [exact Hnd|].
  rewrite addPage_cons. apply IH.
  destruct (Js.mapHas bm (blobId blob)) eqn:Hhas; [exact Hnd|].
  rewrite map_app. simpl.
  apply NoDup_app; [exact Hnd | repeat constructor; intros [] |].
  intros key Hin [<- | []].
  apply mapHas_in in Hin. congruence.
Qed.

Lemma addPages_keyed bm pages : keyed bm -> keyed (addPages bm pages).
Proof.
  revert bm. induction pages as [|page rest IH]; intros bm Hk; [exact Hk|].
  apply IH, addPage_keyed, Hk.
Qed.

Lemma addPages_keeps_keys bm pages key :
  In key (map fst bm) -> In key (map fst (addPages bm pages)).
Proof.
  revert bm. induction pages as [|page rest IH]; intros bm Hin;
    [exact Hin|].
  apply IH, addPage_keeps_keys, Hin.
Qed.

Lemma addPages_adds bm pages blob :
  In blob (List.concat pages) ->
  In (blobId blob) (map fst (addPages bm pages)).
Proof.
  revert bm. induction pages as [|page rest IH]; intros bm Hin;
    [contradiction|].
  simpl in Hin.
  change (addPages bm (page :: rest)) with (addPages (addPage bm page) rest).
  apply in_app_or in Hin as [Hin | Hin].
  - apply addPages_keeps_keys, addPage_adds, Hin.
  - apply IH, Hin.
Qed.

Lemma keyed_ids bm : keyed bm -> map blobId (Js.mapValues bm) = map fst bm.
Proof.
  unfold Js.mapValues. induction 1 as [|kv rest Hkv _ IH]; simpl;
    [reflexivity|].
  f_equal; [symmetry; exact Hkv | exact IH].
Qed.

End BlobMap.

Section Collect.

Context {S : Type}.
Variable localeCompare : string -> string -> Z.

(** Whatever [addPage] preserves, the collection preserves. *)
Variable P : Js.Map BlobProperties -> Prop.
Hypothesis P_addPage : forall bm page, P bm -> P (addPage bm page).

Lemma collectStore_preserves fuel readable pre token bm (w : World S) bm' w' :
  P bm ->
  collectStore fuel readable pre token bm w = Some (bm', w') ->
  P bm'.
Proof.
  revert token bm w. induction fuel as [|fuel IH]; intros token bm w Hbm;
    simpl; [discriminate|].
  destruct (callListBlobs (pageRequest pre token) readable w)
    as [[result|e] w1].
  - destruct (Js.truthyOpt (nextToken result)).
    + apply IH, P_addPage, Hbm.
    + intros H. injection H as <- _. apply P_addPage, Hbm.
  - intros H. injection H as <- _. exact Hbm.
Qed.

Lemma collectAll_preserves fuel rs pre bm (w : World S) bm' w' :
  P bm ->
  collectAll fuel rs pre bm w = Some (bm', w') ->
  P bm'.
Proof.
  revert bm w. induction rs as [|r rest IH]; intros bm w Hbm; simpl.
  - intros H. injection H as <- _. exact Hbm.
  - destruct (collectStore fuel r pre None bm w) as [[bm1 w1]|] eqn:E;
      [|discriminate].
    apply IH. eapply collectStore_preserves; eassumption.
Qed.

End Collect.

Section CollectRuns.

Context {S : Type}.

(** Paging through a store that throws after [pages] leaves these pages
    in the map. *)
Lemma collectStore_pagesThenThrow fuel readable pre token (w : World S)
  pages w1 bm :
  pagesThenThrow readable pre token w pages w1 ->
  (List.length pages < fuel)%nat ->
  collectStore fuel readable pre token bm w = Some (addPages bm pages, w1).
Proof.
  intros Hrun. revert fuel bm.
  induction Hrun as [token w e w' Hcall
                    |token w result w1 pages w2 Hcall Htoken Hrest IH];
    intros fuel bm Hfuel.
  - destruct fuel as [|fuel]; [simpl in Hfuel; lia|].
    simpl. rewrite Hcall. reflexivity.
  - destruct fuel as [|fuel]; [simpl in Hfuel; lia|].
    simpl. rewrite Hcall, Htoken. apply IH. simpl in Hfuel. lia.
Qed.

Lemma collectAll_app fuel before rest pre bm (w : World S) :
  collectAll fuel (before ++ rest) pre bm w
  = match collectAll fuel before pre bm w with
    | Some (bm', w') => collectAll fuel rest pre bm' w'
    | None => None
    end.
Proof.
  revert bm w. induction before as [|r rs IH]; intros bm w; simpl;
    [reflexivity|].
  destruct (collectStore fuel r pre None bm w) as [[bm1 w1]|];
    [apply IH | reflexivity].
Qed.

Lemma option_pair_fst {A B : Type} (o : option (A * B)) (a : A) :
  option_map fst o = Some a -> exists b, o = Some (a, b).
Proof.
  destruct o as [[a' b]|]; simpl; [|discriminate].
  intros H. injection H as ->. exists b. reflexivity.
Qed.

End CollectRuns.

(** The merged listing never holds an id twice. *)
Lemma merged_listing_nodup {S : Type} (localeCompare : string -> string -> Z)
  fuel rs pre (w : World S) bm w' :
  collectAll fuel rs pre [] w = Some (bm, w') ->
  NoDup (map blobId (sortBlobs localeCompare (Js.mapValues bm))).
Proof.
  intros H.
  assert (Hkeyed : keyed bm).
  { eapply (collectAll_preserves keyed); [|constructor|exact H].
    intros bm0 page. apply addPage_keyed. }
  assert (Hnd : NoDup (map fst bm)).
  { apply (collectAll_preserves (fun bm => NoDup (map fst bm))
             (fun bm0 page => addPage_nodup bm0 page)
             _ _ _ [] _ _ _ (NoDup_nil _) H). }
  eapply Permutation_NoDup;
    [apply Permutation_map, Permutation_sym, sort_perm|].
  rewrite keyed_ids; assumption.
Qed.

(** C3, as the code has it: a readable tier that throws while it is paged
    through is left at that point and the call goes on with the remaining
    tiers and succeeds; the blobs of the pages the tier had returned before
    it threw are in the merged listing, they are not discarded. *)
Theorem erroring_tier_keeps_pages_before_error {S : Type}
  (localeCompare : string -> string -> Z) (fuel : nat) (m : BsMulti)
  (options : option ListBlobsOptions) (w w0 w1 wF : World S)
  (before rest : list BsMultiBs) (readable : BsMultiBs)
  (bm0 bmF : Js.Map BlobProperties) (pages : list (list BlobProperties)) :
  readables m = before ++ readable :: rest ->
  collectAll fuel before (prefixOf options) [] w = Some (bm0, w0) ->
  pagesThenThrow readable (prefixOf options) None w0 pages w1 ->
  (List.length pages < fuel)%nat ->
  collectAll fuel rest (prefixOf options) (addPages bm0 pages) w1
  = Some (bmF, wF) ->
  listBlobs localeCompare fuel m options w
  = Some (Ok (paginate (sortBlobs localeCompare (Js.mapValues bmF)) options),
          wF) /\
  forall blob,
    In blob (List.concat pages) ->
    In (blobId blob)
      (map blobId (sortBlobs localeCompare (Js.mapValues bmF))).
Proof.
  intros Hrs Hbefore Hrun Hfuel Hrest. split.
  - unfold listBlobs. rewrite Hrs.
    destruct (List.length (before ++ readable :: rest) =? 0)%nat eqn:Hlen.
    { apply length_zero_nil in Hlen. destruct before; discriminate Hlen. }
    rewrite collectAll_app, Hbefore. simpl.
    rewrite (collectStore_pagesThenThrow _ _ _ _ _ _ _ _ Hrun Hfuel).
    rewrite Hrest. reflexivity.
  - intros blob Hin.
    assert (Hkeyed0 : keyed bm0).
    { eapply (collectAll_preserves keyed); [|constructor|exact Hbefore].
      intros bm page. apply addPage_keyed. }
    assert (Hkeyed : keyed bmF).
    { eapply (collectAll_preserves keyed); [| |exact Hrest].
      - intros bm page. apply addPage_keyed.
      - apply addPages_keyed, Hkeyed0. }
    eapply Permutation_in;
      [apply Permutation_map, Permutation_sym, sort_perm|].
    rewrite (keyed_ids _ Hkeyed).
    eapply (collectAll_preserves
              (fun bm => In (blobId blob) (map fst bm))); [| |exact Hrest].
    + intros bm page. apply addPage_keeps_keys.
    + apply addPages_adds, Hin.
Qed.

(** A tier that lists one page and then throws, before a tier that holds
    one blob. *)
Lemma erroring_tier_keeps_pages_before_error_witness :
  exists wF,
    listBlobs BsMem.compareIds 3 Examples.twoReaders None
      Examples.flakyThenHolding
    = Some (Ok {| blobs := [Examples.blobA; Examples.blobZ];
                  nextToken := None |}, wF) /\
    In (blobId Examples.blobA)
      (map blobId
         (sortBlobs BsMem.compareIds
            (Js.mapValues [("a", Examples.blobA); ("sha:z", Examples.blobZ)]))).
Proof.
  pose (r0 := withId 0 Examples.tier0).
  pose (r1 := withId 1 Examples.tier1).
  pose (wa := snd (callListBlobs (pageRequest None None) r0
                     Examples.flakyThenHolding)).
  pose (wb := snd (callListBlobs (pageRequest None (Some "a")) r0 wa)).
  assert (Hrun : pagesThenThrow r0 None None Examples.flakyThenHolding
                   [[Examples.blobA]] wb).
  { apply (pagesThenThrow_page r0 None None Examples.flakyThenHolding
             {| blobs := [Examples.blobA]; nextToken := Some "a" |} wa [] wb).
    - apply pair_fst_snd. reflexivity.
    - reflexivity.
    - apply (pagesThenThrow_throw r0 None (Some "a") wa
               (mkError "Storage unavailable") wb).
      apply pair_fst_snd. reflexivity. }
  destruct (option_pair_fst
              (collectAll 3 [r1] None (addPages [] [[Examples.blobA]]) wb)
              [("a", Examples.blobA); ("sha:z", Examples.blobZ)]
              ltac:(vm_compute; reflexivity)) as [wF HF].
  destruct (erroring_tier_keeps_pages_before_error BsMem.compareIds 3
              Examples.twoReaders None
              Examples.flakyThenHolding Examples.flakyThenHolding wb wF
              [] [r1] r0 [] _ [[Examples.blobA]]
              eq_refl eq_refl Hrun ltac:(simpl; lia) HF) as [Hlist Hin].
  exists wF. split; [exact Hlist|].
  apply (Hin Examples.blobA). left. reflexivity.
Defined.

(** C3 as stated fails: the first tier returns the page [a] with a token
    for the next page and throws when asked for it; the second tier holds
    one blob.  The call succeeds, and the merged result holds the blob [a]
    of the page the first tier returned before it threw. *)
Lemma pages_before_error_are_not_discarded :
  (exists w1,
     pagesThenThrow (withId 0 Examples.tier0) None None
       Examples.flakyThenHolding [[Examples.blobA]] w1) /\
  exists result,
    option_map fst
      (listBlobs BsMem.compareIds 3 Examples.twoReaders None
         Examples.flakyThenHolding)
    = Some (Ok result) /\
    blobs result = [Examples.blobA; Examples.blobZ] /\
    In Examples.blobA (blobs result).
Proof.
  split.
  - eexists.
    eapply pagesThenThrow_page with
      (result := {| blobs := [Examples.blobA]; nextToken := Some "a" |}).
    + apply pair_fst_snd. reflexivity.
    + reflexivity.
    + eapply pagesThenThrow_throw with (e := mkError "Storage unavailable").
      apply pair_fst_snd. reflexivity.
  - eexists. split; [vm_compute; reflexivity|].
    split; [reflexivity | left; reflexivity].
Qed.

(* ====================================================================== *)
(** ** Pagination of [listBlobs] *)

Lemma compareIds_total (a b : string) :
  BsMem.compareIds a b <= 0 \/ BsMem.compareIds b a <= 0.
Proof.
  unfold BsMem.compareIds. rewrite (String.compare_antisym a b).
  destruct (String.compare b a); simpl; lia.
Qed.

Lemma compareIds_trans (a b c : string) :
  BsMem.compareIds a b <= 0 -> BsMem.compareIds b c <= 0 ->
  BsMem.compareIds a c <= 0.
Proof.
  unfold BsMem.compareIds.
  destruct (String.compare a b) eqn:Hab; [| |lia].
  - apply String.compare_eq_iff in Hab. subst b. intros _ H. exact H.
  - destruct (String.compare b c) eqn:Hbc; [| |lia].
    + apply String.compare_eq_iff in Hbc. subst c. rewrite Hab. lia.
    + apply OrderedTypeEx.String_as_OT.cmp_lt in Hab, Hbc.
      pose proof (OrderedTypeEx.String_as_OT.lt_trans _ _ _ Hab Hbc)
        as Hac.
      apply OrderedTypeEx.String_as_OT.cmp_lt in Hac.
      unfold OrderedTypeEx.String_as_OT.cmp in Hac. rewrite Hac. lia.
Qed.

(** C6, as amended: let [merged] be the merged listing [listBlobs] builds
    from the map it has collected and sorts by [localeCompare] of the ids,
    let no id of it be the empty string, and let [k >= 1] be a page size.
    No id occurs twice in [merged], which holds the blobs of the map and is
    sorted once [localeCompare] is a total preorder.  Every call with page
    size [k] returns the first [k] blobs from its start index on, with a
    token exactly when blobs remain after the page; the token is the id of
    the last blob of the page, and the token that is the id of the blob at
    index [j] starts the next page at [j + 1].  So a caller that starts
    without a token and passes each returned token to the next call is done
    within [length merged] calls, one call if the listing is empty, and the
    pages put end to end are [merged] itself, every blob once, none
    missing, in order: no page has more than [k] blobs, every page but the
    last has exactly [k], and no page is empty unless the listing is.  A
    token that is the id of no blob of [merged] gives the page that no
    token gives. *)
Theorem pagination_chain_reproduces_listing {S : Type}
  (localeCompare : string -> string -> Z) (fuel : nat)
  (rs : list BsMultiBs) (pre : option string) (w w' : World S)
  (blobMap : Js.Map BlobProperties) (merged : list BlobProperties) (k : Z) :
  collectAll fuel rs pre [] w = Some (blobMap, w') ->
  merged = sortBlobs localeCompare (Js.mapValues blobMap) ->
  Forall (fun b => blobId b <> "") merged ->
  1 <= k ->
  NoDup (map blobId merged) /\
  Permutation merged (Js.mapValues blobMap) /\
  ((forall a b, localeCompare a b <= 0 \/ localeCompare b a <= 0) ->
   (forall a b c,
      localeCompare a b <= 0 -> localeCompare b c <= 0 ->
      localeCompare a c <= 0) ->
   StronglySorted
     (fun a b => localeCompare (blobId a) (blobId b) <= 0) merged) /\
  (forall token,
     exists start,
       Z.of_nat start = startIndexOf merged (pageOptions k token) /\
       (start <= List.length merged)%nat /\
       blobs (paginate merged (pageOptions k token))
       = firstn (Z.to_nat k) (skipn start merged) /\
       (nextToken (paginate merged (pageOptions k token)) = None <->
        Z.of_nat (List.length merged) <= Z.of_nat start + k)) /\
  (forall j b,
     nth_error merged j = Some b ->
     startIndexOf merged (pageOptions k (Some (blobId b)))
     = Z.of_nat j + 1) /\
  (forall calls, (List.length merged < calls)%nat ->
     exists pages,
       chainPages calls k merged None = Some pages /\
       List.concat pages = merged /\
       Forall (fun page => Z.of_nat (List.length page) <= k) pages /\
       (forall j, (Datatypes.S j < List.length pages)%nat ->
          Z.of_nat (List.length (nth j pages [])) = k) /\
       (merged <> [] -> Forall (fun page => page <> []) pages)) /\
  (forall options t,
     nextToken (paginate merged options) = Some t ->
     exists b,
       Js.lastElem (blobs (paginate merged options)) = Some b /\
       blobId b = t) /\
  (forall pre' mx t,
     ~ In t (map blobId merged) ->
     paginate merged
       (Some {| prefix := pre'; maxResults := mx;
                continuationToken := Some t |})
     = paginate merged
         (Some {| prefix := pre'; maxResults := mx;
                  continuationToken := None |})).
Proof.
  intros Hcollect -> Hnonempty Hk.
  pose proof (merged_listing_nodup localeCompare _ _ _ _ _ _ Hcollect)
    as Hnodup.
  destruct (chain_over_listing _ k Hnodup Hnonempty Hk)
    as (_ & Hlast & Hrestart).
  split; [exact Hnodup|].
  split; [apply sort_perm|].
  split.
  { intros Htotal Htrans. unfold sortBlobs.
    apply (sort_sorted_by
             (fun a b => localeCompare (blobId a) (blobId b))).
    - intros a b. apply Htotal.
    - intros a b c. apply Htrans. }
  split; [intros token; apply page_of_call; exact Hk|].
  split; [intros j b; apply startIndexOf_token; assumption|].
  split; [|split; [exact Hlast | exact Hrestart]].
  intros calls Hcalls.
  destruct (chainPages_chunks _ k Hnodup Hnonempty Hk calls 0 None)
    as (pages & Hchain & Hconcat & Hbound & Hfull & Hsome);
    [lia | lia | reflexivity |].
  exists pages.
  split; [exact Hchain|]. split; [exact Hconcat|].
  split; [exact Hbound|]. split; [exact Hfull|].
  intros Hne. apply Hsome.
  destruct (sortBlobs localeCompare (Js.mapValues blobMap));
    [contradiction | simpl; lia].
Qed.

(** Two stores that share the blob of [a]: three blobs are listed, sorted,
    in two pages of at most two. *)
Lemma pagination_chain_reproduces_listing_witness :
  StronglySorted
    (fun a b => BsMem.compareIds (blobId a) (blobId b) <= 0)
    Examples.mergedAbc /\
  (exists pages,
     chainPages 4 2 Examples.mergedAbc None = Some pages /\
     List.concat pages = Examples.mergedAbc /\
     Forall (fun page => Z.of_nat (List.length page) <= 2) pages) /\
  paginate Examples.mergedAbc
    (Some {| prefix := None; maxResults := Some 2;
             continuationToken := Some "no-such-blob" |})
  = paginate Examples.mergedAbc
      (Some {| prefix := None; maxResults := Some 2;
               continuationToken := None |}).
Proof.
  destruct (option_pair_fst
              (collectAll 2 (readables Examples.example) None []
                 Examples.bothHolding)
              Examples.collectedAbc ltac:(vm_compute; reflexivity))
    as [w' Hcollect].
  destruct (pagination_chain_reproduces_listing BsMem.compareIds 2
              (readables Examples.example) None Examples.bothHolding w'
              Examples.collectedAbc Examples.mergedAbc 2
              Hcollect eq_refl
              ltac:(repeat constructor; discriminate) ltac:(lia))
    as (_ & _ & Hsorted & _ & _ & Hchain & _ & Hrestart).
  split; [exact (Hsorted compareIds_total compareIds_trans)|].
  split.
  - destruct (Hchain 4%nat ltac:(simpl; lia))
      as (pages & Hpages & Hconcat & Hbound & _).
    exists pages. split; [exact Hpages|]. split; [exact Hconcat|].
    exact Hbound.
  - apply Hrestart. simpl. intuition discriminate.
Defined.

(** A store lists a blob under the empty string, and the caller asks for
    pages of one blob: the first page ends with that blob and returns its
    id as the token, the call with that token starts at the beginning
    again, and three calls, one more than there are blobs, do not get
    through the listing. *)
Lemma empty_id_token_restarts_chain :
  option_map fst
    (listBlobs BsMem.compareIds 2 PagingExamples.reader None
       PagingExamples.listsEmptyId)
  = Some (Ok {| blobs := PagingExamples.mergedEmptyId;
                nextToken := None |}) /\
  option_map fst
    (listBlobs BsMem.compareIds 2 PagingExamples.reader
       (pageOptions 1 None) PagingExamples.listsEmptyId)
  = Some (Ok {| blobs := [PagingExamples.blobNoId];
                nextToken := Some "" |}) /\
  option_map fst
    (listBlobs BsMem.compareIds 2 PagingExamples.reader
       (pageOptions 1 (Some "")) PagingExamples.listsEmptyId)
  = Some (Ok {| blobs := [PagingExamples.blobNoId];
                nextToken := Some "" |}) /\
  chainPages 3 1 PagingExamples.mergedEmptyId None = None /\
  ~ (exists pages,
       chainPages 3 1 PagingExamples.mergedEmptyId None = Some pages /\
       List.concat pages = PagingExamples.mergedEmptyId).
Proof.
  split; [vm_compute; reflexivity|].
  split; [vm_compute; reflexivity|].
  split; [vm_compute; reflexivity|].
  split; [vm_compute; reflexivity|].
  intros (pages & Hchain & _).
  vm_compute in Hchain. discriminate.
Qed.

(* ====================================================================== *)
(** ** Further properties of [BsMulti] *)

Section CallLogs.

Context {S : Type}.

Lemma allFail_calls {A : Type} (call : BsMultiBs -> M S A)
  (ev : BsMultiBs -> Call) rs (w : World S) errors w1 :
  (forall b w0, calls (snd (call b w0)) = calls w0 ++ [ev b]) ->
  allFail call rs w errors w1 ->
  calls w1 = calls w ++ map ev rs.
Proof.
  intros Hev Hfail.
  induction Hfail as [w|r rest w e w1 es w2 Hcall Hrest IH]; simpl.
  - rewrite app_nil_r. reflexivity.
  - rewrite IH. pose proof (Hev r w) as Hc. rewrite Hcall in Hc.
    simpl in Hc. rewrite Hc, <- app_assoc. reflexivity.
Qed.

Lemma outcomes_calls {A : Type} (call : BsMultiBs -> M S A)
  (ev : BsMultiBs -> Call) bs0 (w : World S) rs w1 :
  (forall b w0, calls (snd (call b w0)) = calls w0 ++ [ev b]) ->
  outcomes call bs0 w rs w1 ->
  calls w1 = calls w ++ map ev bs0.
Proof.
  intros Hev Hrun.
  induction Hrun as [w|b rest w r w1 rs w2 Hcall Hrest IH]; simpl.
  - rewrite app_nil_r. reflexivity.
  - rewrite IH. pose proof (Hev b w) as Hc. rewrite Hcall in Hc.
    simpl in Hc. rewrite Hc, <- app_assoc. reflexivity.
Qed.

Lemma callAll_outcomes {A : Type} (call : BsMultiBs -> M S A) bs0
  (w : World S) rs w1 :
  outcomes call bs0 w rs w1 ->
  callAll (map call bs0) w = (Ok rs, w1).
Proof.
  intros Hrun.
  induction Hrun as [w|b rest w r w1 rs w2 Hcall Hrest IH]; simpl.
  - reflexivity.
  - unfold bind, settle. rewrite Hcall, IH. reflexivity.
Qed.

Lemma promiseAll_ok {A : Type} (rs : list (Result A)) :
  (exists xs, promiseAll rs = Ok xs) <->
  Forall (fun r => exists a, r = Ok a) rs.
Proof.
  induction rs as [|r rest IH]; simpl.
  - split; [constructor | intros _; exists []; reflexivity].
  - destruct r as [a|e].
    + split.
      * intros [xs Hxs]. constructor; [exists a; reflexivity|].
        apply IH. destruct (promiseAll rest) as [l|e]; [|discriminate].
        exists l. reflexivity.
      * intros Hall. inversion Hall as [|? ? _ Hrest]; subst.
        apply IH in Hrest as [l Hl]. rewrite Hl. eexists. reflexivity.
    + split.
      * intros [xs Hxs]. discriminate.
      * intros Hall. inversion Hall as [|? ? [a Ha] _]; subst. discriminate.
Qed.

Lemma promiseAll_throw {A : Type} (rs : list (Result A)) (e : Error) :
  promiseAll rs = Throw e -> In (Throw e) rs.
Proof.
  induction rs as [|r rest IH]; simpl; [discriminate|].
  destruct r as [a|e0].
  - destruct (promiseAll rest) as [l|e1]; [discriminate|].
    intros H. injection H as ->. right. apply IH. reflexivity.
  - intros H. injection H as ->. left. reflexivity.
Qed.

End CallLogs.

Section WriteFanOut.

Context {S : Type}.

Lemma callSetBlob_calls (content : Content) (b : BsMultiBs) (w : World S) :
  calls (snd (callSetBlob content b w))
  = calls w ++ [CallSetBlob (bs b) content].
Proof. apply invoke_calls. Qed.

Lemma callDeleteBlob_calls (blob : BlobId) (b : BsMultiBs) (w : World S) :
  calls (snd (callDeleteBlob blob b w))
  = calls w ++ [CallDeleteBlob (bs b) blob].
Proof. apply invoke_calls. Qed.

Lemma nonempty_length {A : Type} (l : list A) :
  l <> [] -> (List.length l =? 0)%nat = false.
Proof. destruct l; [contradiction | reflexivity]. Qed.

End WriteFanOut.

(** X1: [deleteBlob] issues the delete to every writable binding, in
    priority order, whatever the outcomes; it returns when every delete
    has returned, and otherwise throws an error that one of the deletes
    threw, a not-found error of a tier that lacks the blob included.  The
    deletes that went through are not undone. *)
Theorem deleteBlob_all_or_error {S : Type} (m : BsMulti) (blob : BlobId)
  (w w1 : World S) (rs : list (Result unit)) :
  writables m <> [] ->
  outcomes (callDeleteBlob blob) (writables m) w rs w1 ->
  snd (deleteBlob m blob w) = w1 /\
  calls w1
  = calls w ++ map (fun b => CallDeleteBlob (bs b) blob) (writables m) /\
  (fst (deleteBlob m blob w) = Ok tt <-> Forall (fun r => r = Ok tt) rs) /\
  (forall e, fst (deleteBlob m blob w) = Throw e -> In (Throw e) rs).
Proof.
  intros Hne Hrun.
  assert (Hdel : deleteBlob m blob w
                 = (match promiseAll rs with
                    | Ok _ => Ok tt
                    | Throw e => Throw e
                    end, w1)).
  { unfold deleteBlob. rewrite (nonempty_length _ Hne).
    unfold bind at 1. rewrite (callAll_outcomes _ _ _ _ _ Hrun).
    unfold bind, liftResult. destruct (promiseAll rs); reflexivity. }
  rewrite Hdel. simpl. split; [reflexivity|]. split.
  - apply (outcomes_calls _ (fun b => CallDeleteBlob (bs b) blob) _ _ _ _
             (callDeleteBlob_calls blob) Hrun).
  - split.
    + split.
      * intros Hok. destruct (promiseAll rs) as [xs|e] eqn:Hall;
          [|discriminate].
        assert (Hf : Forall (fun r : Result unit => exists a, r = Ok a) rs)
          by (apply promiseAll_ok; exists xs; exact Hall).
        eapply Forall_impl; [|exact Hf].
        intros r [[] ->]. reflexivity.
      * intros Hf.
        assert (Hex : exists xs, promiseAll rs = Ok xs).
        { apply promiseAll_ok. eapply Forall_impl; [|exact Hf].
          intros r ->. exists tt. reflexivity. }
        destruct Hex as [xs ->]. reflexivity.
    + intros e He. destruct (promiseAll rs) as [xs|e0] eqn:Hall;
        [discriminate|].
      injection He as ->. apply promiseAll_throw, Hall.
Qed.

(** X2: when a write of [setBlob] throws, [setBlob] throws an error that
    one of the writes threw; every writable binding has been written to all
    the same, in priority order, and the world is the one all these writes
    leave: what the other tiers stored stays stored. *)
Theorem setBlob_failure_keeps_partial_writes {S : Type} (m : BsMulti)
  (content : Content) (w w1 : World S) (rs : list (Result BlobProperties)) :
  writables m <> [] ->
  outcomes (callSetBlob content) (writables m) w rs w1 ->
  snd (setBlob m content w) = w1 /\
  calls w1
  = calls w ++ map (fun b => CallSetBlob (bs b) content) (writables m) /\
  ((exists e, In (Throw e) rs) ->
   exists e, fst (setBlob m content w) = Throw e /\ In (Throw e) rs).
Proof.
  intros Hne Hrun.
  assert (Hset : setBlob m content w
                 = (match promiseAll rs with
                    | Ok results => Ok (nth 0 results undefinedProperties)
                    | Throw e => Throw e
                    end, w1)).
  { unfold setBlob. rewrite (nonempty_length _ Hne).
    unfold bind at 1. rewrite (callAll_outcomes _ _ _ _ _ Hrun).
    unfold bind, liftResult. destruct (promiseAll rs); reflexivity. }
  rewrite Hset. simpl. split; [reflexivity|]. split.
  - apply (outcomes_calls _ (fun b => CallSetBlob (bs b) content) _ _ _ _
             (callSetBlob_calls content) Hrun).
  - intros [e He]. destruct (promiseAll rs) as [xs|e0] eqn:Hall.
    + assert (Hf : Forall (fun r : Result BlobProperties =>
                             exists a, r = Ok a) rs)
        by (apply promiseAll_ok; exists xs; exact Hall).
      rewrite Forall_forall in Hf. destruct (Hf _ He) as [a Ha].
      discriminate Ha.
    + exists e0. split; [reflexivity | apply promiseAll_throw, Hall].
Qed.

Ltac run_outcomes :=
  repeat (eapply outcomes_cons; [apply pair_fst_snd; reflexivity|]);
  apply outcomes_nil.

Ltac run_allFail :=
  repeat (eapply allFail_cons; [apply pair_fst_snd; reflexivity|]);
  apply allFail_nil.

(** The tier deleted from second lacks the blob: its delete throws, the
    delete on the first tier has gone through. *)
Lemma deleteBlob_all_or_error_witness :
  fst (deleteBlob Examples.twoWriters "sha:x" MoreExamples.firstHoldsX)
  = Throw (blobNotFound "sha:x") /\
  calls (snd (deleteBlob Examples.twoWriters "sha:x" MoreExamples.firstHoldsX))
  = [CallDeleteBlob 1%nat "sha:x"; CallDeleteBlob 0%nat "sha:x"] /\
  fst (callBlobExists "sha:x" MoreExamples.firstWriter
         (snd (deleteBlob Examples.twoWriters "sha:x"
                 MoreExamples.firstHoldsX)))
  = Ok false.
Proof.
  set (w := MoreExamples.firstHoldsX).
  pose (w1 := snd (callDeleteBlob "sha:x" MoreExamples.firstWriter w)).
  pose (w2 := snd (callDeleteBlob "sha:x" MoreExamples.secondWriter w1)).
  destruct (deleteBlob_all_or_error Examples.twoWriters "sha:x" w w2
              [Ok tt; Throw (blobNotFound "sha:x")]
              ltac:(discriminate) ltac:(run_outcomes))
    as (Hworld & Hcalls & Hiff & Hthrow).
  split; [|split].
  - assert (Hnot : fst (deleteBlob Examples.twoWriters "sha:x" w) <> Ok tt).
    { intros E. apply Hiff in E. inversion E as [|? ? _ Hrest]; subst.
      inversion Hrest as [|? ? Hbad _]; subst. discriminate Hbad. }
    clear Hiff.
    destruct (fst (deleteBlob Examples.twoWriters "sha:x" w)) as [[]|e].
    + contradiction (Hnot eq_refl).
    + destruct (Hthrow e eq_refl) as [Hin | [Hin | []]];
        [discriminate Hin | congruence].
  - rewrite Hworld. exact Hcalls.
  - rewrite Hworld. reflexivity.
Defined.

(** The tier written second is down: the write throws, the first tier has
    stored the content. *)
Lemma setBlob_failure_keeps_partial_writes_witness :
  (exists e,
     fst (setBlob Examples.twoWriters "hello" MoreExamples.secondWriterDown)
     = Throw e /\
     In (Throw e)
       [Ok {| blobId := "sha:hello"; size := 5; createdAt := 0 |};
        Throw (mkError "Disk full")]) /\
  fst (callBlobExists "sha:hello" MoreExamples.firstWriter
         (snd (setBlob Examples.twoWriters "hello"
                 MoreExamples.secondWriterDown)))
  = Ok true.
Proof.
  set (w := MoreExamples.secondWriterDown).
  pose (w1 := snd (callSetBlob "hello" MoreExamples.firstWriter w)).
  pose (w2 := snd (callSetBlob "hello" MoreExamples.secondWriter w1)).
  destruct (setBlob_failure_keeps_partial_writes Examples.twoWriters "hello"
              w w2
              [Ok {| blobId := "sha:hello"; size := 5; createdAt := 0 |};
               Throw (mkError "Disk full")]
              ltac:(discriminate) ltac:(run_outcomes))
    as (Hworld & _ & Hthrow).
  split.
  - apply Hthrow. exists (mkError "Disk full"). right. left. reflexivity.
  - rewrite Hworld. reflexivity.
Defined.

Section ReadFanOut.

Context {S : Type}.

Lemma callGetBlob_calls blob options (b : BsMultiBs) (w : World S) :
  calls (snd (callGetBlob blob options b w))
  = calls w ++ [CallGetBlob (bs b) blob options].
Proof. apply invoke_calls. Qed.

Lemma callGetBlobStream_calls blob (b : BsMultiBs) (w : World S) :
  calls (snd (callGetBlobStream blob b w))
  = calls w ++ [CallGetBlobStream (bs b) blob].
Proof. apply invoke_calls. Qed.

Lemma callGetBlobProperties_calls blob (b : BsMultiBs) (w : World S) :
  calls (snd (callGetBlobProperties blob b w))
  = calls w ++ [CallGetBlobProperties (bs b) blob].
Proof. apply invoke_calls. Qed.

Lemma callGenerateSignedUrl_calls blob expiresIn permissions (b : BsMultiBs)
  (w : World S) :
  calls (snd (callGenerateSignedUrl blob expiresIn permissions b w))
  = calls w ++ [CallGenerateSignedUrl (bs b) blob expiresIn permissions].
Proof. apply invoke_calls. Qed.

Lemma callBlobExists_calls blob (b : BsMultiBs) (w : World S) :
  calls (snd (callBlobExists blob b w))
  = calls w ++ [CallBlobExists (bs b) blob].
Proof. apply invoke_calls. Qed.

(** The calls made up to the first answer. *)
Lemma tried_calls {A : Type} (call : BsMultiBs -> M S A)
  (ev : BsMultiBs -> Call) pre r (w : World S) errors w1 a w2 :
  (forall b w0, calls (snd (call b w0)) = calls w0 ++ [ev b]) ->
  allFail call pre w errors w1 ->
  call r w1 = (Ok a, w2) ->
  calls w2 = calls w ++ map ev (pre ++ [r]).
Proof.
  intros Hev Hfail Hr.
  pose proof (Hev r w1) as Hc. rewrite Hr in Hc. simpl in Hc.
  rewrite Hc, (allFail_calls call ev _ _ _ _ Hev Hfail).
  rewrite map_app, app_assoc. reflexivity.
Qed.

Lemma firstAnswer_falls_back {A : Type} (m : BsMulti) blob
  (call : BsMultiBs -> M S A) (ev : BsMultiBs -> Call)
  pre r post (w : World S) errors w1 a w2 :
  (forall b w0, calls (snd (call b w0)) = calls w0 ++ [ev b]) ->
  readables m = pre ++ r :: post ->
  allFail call pre w errors w1 ->
  call r w1 = (Ok a, w2) ->
  firstAnswer m blob call w = (Ok a, w2) /\
  calls w2 = calls w ++ map ev (pre ++ [r]).
Proof.
  intros Hev Hrs Hfail Hr. split.
  - eapply firstAnswer_served. rewrite Hrs.
    apply (tryReadables_first_success call pre r post w errors w1 a w2 []
             Hfail Hr).
  - eapply tried_calls; eassumption.
Qed.

Lemma allFail_nonempty {A : Type} (call : BsMultiBs -> M S A) rs
  (w : World S) e errors w1 :
  allFail call rs w (e :: errors) w1 -> rs <> [].
Proof. intros H. inversion H. discriminate. Qed.

End ReadFanOut.

(** X3: [getBlobStream], [getBlobProperties] and [generateSignedUrl] ask
    the readable bindings in priority order and return the first answer,
    whatever errors the bindings before it threw.  The world they leave is
    the one the answering call left: the bindings after it are not asked,
    and nothing is written to any store. *)
Theorem reads_return_first_answer_and_write_nothing {S : Type} (m : BsMulti)
  (blob : BlobId) (expiresIn : Z) (permissions : Permission)
  (pre post : list BsMultiBs) (r : BsMultiBs) (w : World S) :
  readables m = pre ++ r :: post ->
  (forall errors w1 a w2,
     allFail (callGetBlobStream blob) pre w errors w1 ->
     callGetBlobStream blob r w1 = (Ok a, w2) ->
     getBlobStream m blob w = (Ok a, w2) /\
     calls w2 = calls w ++
       map (fun b => CallGetBlobStream (bs b) blob) (pre ++ [r])) /\
  (forall errors w1 a w2,
     allFail (callGetBlobProperties blob) pre w errors w1 ->
     callGetBlobProperties blob r w1 = (Ok a, w2) ->
     getBlobProperties m blob w = (Ok a, w2) /\
     calls w2 = calls w ++
       map (fun b => CallGetBlobProperties (bs b) blob) (pre ++ [r])) /\
  (forall errors w1 a w2,
     allFail (callGenerateSignedUrl blob expiresIn permissions) pre w
       errors w1 ->
     callGenerateSignedUrl blob expiresIn permissions r w1 = (Ok a, w2) ->
     generateSignedUrl m blob expiresIn permissions w = (Ok a, w2) /\
     calls w2 = calls w ++
       map (fun b => CallGenerateSignedUrl (bs b) blob expiresIn permissions)
         (pre ++ [r])).
Proof.
  intros Hrs. repeat split.
  - eapply firstAnswer_falls_back; try eassumption.
    apply callGetBlobStream_calls.
  - eapply tried_calls; try eassumption. apply callGetBlobStream_calls.
  - eapply firstAnswer_falls_back; try eassumption.
    apply callGetBlobProperties_calls.
  - eapply tried_calls; try eassumption. apply callGetBlobProperties_calls.
  - eapply firstAnswer_falls_back; try eassumption.
    apply callGenerateSignedUrl_calls.
  - eapply tried_calls; try eassumption. apply callGenerateSignedUrl_calls.
Qed.

(** The first tier is down, the second holds the blob. *)
Lemma reads_return_first_answer_and_write_nothing_witness :
  fst (getBlobStream Examples.twoReaders "sha:Test"
         Examples.failureThenHolding)
  = Ok "Test" /\
  fst (getBlobProperties Examples.twoReaders "sha:Test"
         Examples.failureThenHolding)
  = Ok {| blobId := "sha:Test"; size := 4; createdAt := 0 |} /\
  calls (snd (generateSignedUrl Examples.twoReaders "sha:Test" 60 PermRead
                Examples.failureThenHolding))
  = [CallGenerateSignedUrl 0%nat "sha:Test" 60 PermRead;
     CallGenerateSignedUrl 1%nat "sha:Test" 60 PermRead].
Proof.
  set (w := Examples.failureThenHolding).
  set (r0 := withId 0 Examples.tier0).
  set (r1 := withId 1 Examples.tier1).
  destruct (reads_return_first_answer_and_write_nothing Examples.twoReaders
              "sha:Test" 60 PermRead [r0] [] r1 w eq_refl)
    as (Hstream & Hprops & Hurl).
  split; [|split].
  - destruct (Hstream [mkError "Store failure"]
                (snd (callGetBlobStream "sha:Test" r0 w)) "Test"
                (snd (callGetBlobStream "sha:Test" r1
                        (snd (callGetBlobStream "sha:Test" r0 w))))
                ltac:(run_allFail) ltac:(apply pair_fst_snd; reflexivity))
      as [H _].
    rewrite H. reflexivity.
  - destruct (Hprops [mkError "Store failure"]
                (snd (callGetBlobProperties "sha:Test" r0 w))
                {| blobId := "sha:Test"; size := 4; createdAt := 0 |}
                (snd (callGetBlobProperties "sha:Test" r1
                        (snd (callGetBlobProperties "sha:Test" r0 w))))
                ltac:(run_allFail) ltac:(apply pair_fst_snd; reflexivity))
      as [H _].
    rewrite H. reflexivity.
  - destruct (Hurl [mkError "Store failure"]
                (snd (callGenerateSignedUrl "sha:Test" 60 PermRead r0 w))
                "https://example.com/blobs/sha:Test"%string
                (snd (callGenerateSignedUrl "sha:Test" 60 PermRead r1
                        (snd (callGenerateSignedUrl "sha:Test" 60 PermRead
                                r0 w))))
                ltac:(run_allFail) ltac:(apply pair_fst_snd; reflexivity))
      as [H Hcalls].
    rewrite H. etransitivity; [exact Hcalls | reflexivity].
Defined.

Section GetBlobTrace.

Context {S : Type}.

(** With no writable binding, [getBlob] leaves the world the read left. *)
Lemma getBlob_served_readonly (m : BsMulti) blob options (w : World S)
  result r errors w1 :
  writables m = [] ->
  tryReadables (callGetBlob blob options) (readables m) [] w
  = (Ok (Some (result, r), errors), w1) ->
  getBlob m blob options w = (Ok result, w1).
Proof.
  intros Hnil Htry. unfold getBlob.
  destruct (List.length (readables m) =? 0)%nat eqn:Hlen.
  - apply length_zero_nil in Hlen. rewrite Hlen in Htry.
    simpl in Htry. discriminate.
  - unfold bind at 1. rewrite Htry, Hnil. reflexivity.
Qed.

End GetBlobTrace.

(** X4: a [getBlob] that is answered asks the readable bindings in
    priority order up to the first one that answers and no further, then
    issues one [setBlob] of the answer's content to each hot-swap target,
    in priority order, and returns the answer whatever the outcome of these
    writes; with no writable binding it makes no call after the read. *)
Theorem getBlob_reads_in_order_then_hot_swaps {S : Type} (m : BsMulti)
  (blob : BlobId) (options : option DownloadBlobOptions)
  (pre post : list BsMultiBs) (r : BsMultiBs) (errors : list Error)
  (w w1 w2 : World S) (result : Content * BlobProperties) :
  readables m = pre ++ r :: post ->
  allFail (callGetBlob blob options) pre w errors w1 ->
  callGetBlob blob options r w1 = (Ok result, w2) ->
  exists w3,
    getBlob m blob options w = (Ok result, w3) /\
    calls w3
    = calls w ++
      map (fun b => CallGetBlob (bs b) blob options) (pre ++ [r]) ++
      map (fun b => CallSetBlob (bs b) (fst result))
        (hotSwapTargets m (Js.nullish (id r) "")) /\
    (writables m = [] -> w3 = w2).
Proof.
  intros Hrs Hfail Hr.
  pose proof (tryReadables_first_success _ pre r post w errors w1 result w2 []
                Hfail Hr) as Htry.
  rewrite <- Hrs in Htry.
  destruct (getBlob_served m blob options w result r _ w2 Htry)
    as (w3 & Hget & Hcalls).
  exists w3. split; [exact Hget|]. split.
  - rewrite Hcalls.
    rewrite (tried_calls _ (fun b => CallGetBlob (bs b) blob options)
               pre r w errors w1 result w2
               (callGetBlob_calls blob options) Hfail Hr).
    rewrite <- app_assoc. reflexivity.
  - intros Hnil.
    pose proof (getBlob_served_readonly m blob options w result r _ w2
                  Hnil Htry) as Hro.
    congruence.
Qed.

(** The cache misses, the remote answers, the cache is written to. *)
Lemma getBlob_reads_in_order_then_hot_swaps_witness :
  exists w3,
    getBlob Examples.example "sha:Test" None
      (Examples.emptyCacheRemoteHolds ["Test"])
    = (Ok ("Test", {| blobId := "sha:Test"; size := 4; createdAt := 0 |}),
       w3) /\
    calls w3
    = [CallGetBlob 0%nat "sha:Test" None; CallGetBlob 1%nat "sha:Test" None;
       CallSetBlob 0%nat "Test"].
Proof.
  set (w := Examples.emptyCacheRemoteHolds ["Test"]).
  set (r0 := withId 0 Examples.bsLocal).
  set (r1 := withId 1 Examples.bsRemote).
  destruct (getBlob_reads_in_order_then_hot_swaps Examples.example
              "sha:Test" None [r0] [] r1 [blobNotFound "sha:Test"] w
              (snd (callGetBlob "sha:Test" None r0 w))
              (snd (callGetBlob "sha:Test" None r1
                      (snd (callGetBlob "sha:Test" None r0 w))))
              ("Test", {| blobId := "sha:Test"; size := 4; createdAt := 0 |})
              eq_refl ltac:(run_allFail)
              ltac:(apply pair_fst_snd; reflexivity))
    as (w3 & Hget & Hcalls & _).
  exists w3. split; [exact Hget | exact Hcalls].
Defined.

(** X5: when every readable binding fails and every error is a not-found
    error, [getBlob], [getBlobStream], [getBlobProperties] and
    [generateSignedUrl] throw a not-found error of their own that names the
    blob id asked for, whatever the messages of the tiers said beside
    [Blob not found]. *)
Theorem reads_collapse_not_found_errors {S : Type} (m : BsMulti)
  (blob : BlobId) (options : option DownloadBlobOptions) (expiresIn : Z)
  (permissions : Permission) (w : World S) :
  readables m <> [] ->
  (forall errors w1,
     allFail (callGetBlob blob options) (readables m) w errors w1 ->
     forallb isNotFound errors = true ->
     getBlob m blob options w = (Throw (blobNotFound blob), w1)) /\
  (forall errors w1,
     allFail (callGetBlobStream blob) (readables m) w errors w1 ->
     forallb isNotFound errors = true ->
     getBlobStream m blob w = (Throw (blobNotFound blob), w1)) /\
  (forall errors w1,
     allFail (callGetBlobProperties blob) (readables m) w errors w1 ->
     forallb isNotFound errors = true ->
     getBlobProperties m blob w = (Throw (blobNotFound blob), w1)) /\
  (forall errors w1,
     allFail (callGenerateSignedUrl blob expiresIn permissions)
       (readables m) w errors w1 ->
     forallb isNotFound errors = true ->
     generateSignedUrl m blob expiresIn permissions w
     = (Throw (blobNotFound blob), w1)).
Proof.
  intros Hne. repeat split; intros errors w1 Hfail Hall.
  - rewrite (getBlob_all_failed m blob options w errors w1 Hne Hfail).
    rewrite reconcile_all_not_found; [reflexivity | exact Hall].
  - unfold getBlobStream.
    rewrite (firstAnswer_all_failed m blob _ w errors w1 Hne Hfail).
    rewrite reconcile_all_not_found; [reflexivity | exact Hall].
  - unfold getBlobProperties.
    rewrite (firstAnswer_all_failed m blob _ w errors w1 Hne Hfail).
    rewrite reconcile_all_not_found; [reflexivity | exact Hall].
  - unfold generateSignedUrl.
    rewrite (firstAnswer_all_failed m blob _ w errors w1 Hne Hfail).
    rewrite reconcile_all_not_found; [reflexivity | exact Hall].
Qed.

(** Neither tier holds the blob; the second one words its error its own
    way. *)
Lemma reads_collapse_not_found_errors_witness :
  fst (getBlob Examples.twoReaders "x" None MoreExamples.missTwice)
  = Throw (mkError "Blob not found: x") /\
  fst (getBlobStream Examples.twoReaders "x" MoreExamples.missTwice)
  = Throw (mkError "Blob not found: x").
Proof.
  set (w := MoreExamples.missTwice).
  set (r0 := withId 0 Examples.tier0).
  set (r1 := withId 1 Examples.tier1).
  destruct (reads_collapse_not_found_errors Examples.twoReaders "x" None 60
              PermRead w ltac:(discriminate))
    as (Hget & Hstream & _ & _).
  split.
  - rewrite (Hget [blobNotFound "x"; mkError "Remote: Blob not found"]
               (snd (callGetBlob "x" None r1
                       (snd (callGetBlob "x" None r0 w))))
               ltac:(run_allFail) eq_refl).
    reflexivity.
  - rewrite (Hstream [blobNotFound "x"; mkError "Remote: Blob not found"]
               (snd (callGetBlobStream "x" r1
                       (snd (callGetBlobStream "x" r0 w))))
               ltac:(run_allFail) eq_refl).
    reflexivity.
Defined.

(** X6: when every readable binding fails and the error of the
    highest-priority one is not a not-found error, the four reads throw
    that very error. *)
Theorem reads_throw_top_tier_error {S : Type} (m : BsMulti)
  (blob : BlobId) (options : option DownloadBlobOptions) (expiresIn : Z)
  (permissions : Permission) (w : World S) (e : Error) :
  isNotFound e = false ->
  (forall errors w1,
     allFail (callGetBlob blob options) (readables m) w (e :: errors) w1 ->
     getBlob m blob options w = (Throw e, w1)) /\
  (forall errors w1,
     allFail (callGetBlobStream blob) (readables m) w (e :: errors) w1 ->
     getBlobStream m blob w = (Throw e, w1)) /\
  (forall errors w1,
     allFail (callGetBlobProperties blob) (readables m) w (e :: errors) w1 ->
     getBlobProperties m blob w = (Throw e, w1)) /\
  (forall errors w1,
     allFail (callGenerateSignedUrl blob expiresIn permissions)
       (readables m) w (e :: errors) w1 ->
     generateSignedUrl m blob expiresIn permissions w = (Throw e, w1)).
Proof.
  intros He.
  assert (Hmixed : forall errors, forallb isNotFound (e :: errors) = false)
    by (intros errors; simpl; rewrite He; reflexivity).
  repeat split; intros errors w1 Hfail;
    pose proof (allFail_nonempty _ _ _ _ _ _ Hfail) as Hne.
  - rewrite (getBlob_all_failed m blob options w _ w1 Hne Hfail).
    rewrite reconcile_mixed; [reflexivity | apply Hmixed].
  - unfold getBlobStream.
    rewrite (firstAnswer_all_failed m blob _ w _ w1 Hne Hfail).
    rewrite reconcile_mixed; [reflexivity | apply Hmixed].
  - unfold getBlobProperties.
    rewrite (firstAnswer_all_failed m blob _ w _ w1 Hne Hfail).
    rewrite reconcile_mixed; [reflexivity | apply Hmixed].
  - unfold generateSignedUrl.
    rewrite (firstAnswer_all_failed m blob _ w _ w1 Hne Hfail).
    rewrite reconcile_mixed; [reflexivity | apply Hmixed].
Qed.

(** The first tier times out, the second does not hold the blob. *)
Lemma reads_throw_top_tier_error_witness :
  fst (getBlob Examples.twoReaders "x" None MoreExamples.timeoutThenMiss)
  = Throw (mkError "Network timeout") /\
  fst (getBlobProperties Examples.twoReaders "x" MoreExamples.timeoutThenMiss)
  = Throw (mkError "Network timeout").
Proof.
  set (w := MoreExamples.timeoutThenMiss).
  set (r0 := withId 0 Examples.tier0).
  set (r1 := withId 1 Examples.tier1).
  destruct (reads_throw_top_tier_error Examples.twoReaders "x" None 60
              PermRead w (mkError "Network timeout") eq_refl)
    as (Hget & _ & Hprops & _).
  split.
  - rewrite (Hget [blobNotFound "x"]
               (snd (callGetBlob "x" None r1
                       (snd (callGetBlob "x" None r0 w))))
               ltac:(run_allFail)).
    reflexivity.
  - rewrite (Hprops [blobNotFound "x"]
               (snd (callGetBlobProperties "x" r1
                       (snd (callGetBlobProperties "x" r0 w))))
               ltac:(run_allFail)).
    reflexivity.
Defined.

Section BlobExists.

Context {S : Type}.

Lemma existsLoop_skips (blob : BlobId) pre rest (w w1 : World S) :
  noneReports blob pre w w1 ->
  existsLoop blob (pre ++ rest) w = existsLoop blob rest w1.
Proof.
  intros Hnone.
  induction Hnone as [w|r rs w res w1 w2 Hcall Hres Hrest IH]; simpl;
    [reflexivity|].
  unfold bind, settle. rewrite Hcall.
  destruct res as [[|]|e]; [contradiction Hres; reflexivity | exact IH
                           | exact IH].
Qed.

Lemma noneReports_calls (blob : BlobId) rs (w w1 : World S) :
  noneReports blob rs w w1 ->
  calls w1 = calls w ++ map (fun b => CallBlobExists (bs b) blob) rs.
Proof.
  intros Hnone.
  induction Hnone as [w|r rs w res w1 w2 Hcall Hres Hrest IH]; simpl.
  - rewrite app_nil_r. reflexivity.
  - rewrite IH. pose proof (callBlobExists_calls blob r w) as Hc.
    rewrite Hcall in Hc. simpl in Hc. rewrite Hc, <- app_assoc. reflexivity.
Qed.

Lemma existsLoop_total (blob : BlobId) rs (w : World S) :
  exists answer w', existsLoop blob rs w = (Ok answer, w').
Proof.
  revert w. induction rs as [|r rest IH]; intros w; simpl.
  - exists false, w. reflexivity.
  - unfold bind, settle. destruct (callBlobExists blob r w) as [[[|]|e] w1].
    + exists true, w1. reflexivity.
    + apply IH.
    + apply IH.
Qed.

End BlobExists.

(** X7: [blobExists] answers [true] as soon as a readable binding reports
    the blob, the bindings before it in priority order having thrown or
    answered [false]; the bindings after it are not asked. *)
Theorem blobExists_first_report_decides {S : Type} (m : BsMulti)
  (blob : BlobId) (pre post : list BsMultiBs) (r : BsMultiBs)
  (w w1 w2 : World S) :
  readables m = pre ++ r :: post ->
  noneReports blob pre w w1 ->
  callBlobExists blob r w1 = (Ok true, w2) ->
  blobExists m blob w = (Ok true, w2) /\
  calls w2
  = calls w ++ map (fun b => CallBlobExists (bs b) blob) (pre ++ [r]).
Proof.
  intros Hrs Hnone Hr. split.
  - unfold blobExists. rewrite Hrs.
    rewrite nonempty_length by (destruct pre; discriminate).
    rewrite (existsLoop_skips blob pre (r :: post) w w1 Hnone).
    simpl. unfold bind, settle. rewrite Hr. reflexivity.
  - pose proof (callBlobExists_calls blob r w1) as Hc.
    rewrite Hr in Hc. simpl in Hc.
    rewrite Hc, (noneReports_calls blob pre w w1 Hnone).
    rewrite map_app, app_assoc. reflexivity.
Qed.

(** The first tier throws on the check, the second holds the blob. *)
Lemma blobExists_first_report_decides_witness :
  blobExists Examples.twoReaders "sha:Test" Examples.failureThenHolding
  = (Ok true,
     snd (callBlobExists "sha:Test" (withId 1 Examples.tier1)
            (snd (callBlobExists "sha:Test" (withId 0 Examples.tier0)
                    Examples.failureThenHolding)))).
Proof.
  set (w := Examples.failureThenHolding).
  set (r0 := withId 0 Examples.tier0).
  set (r1 := withId 1 Examples.tier1).
  apply (blobExists_first_report_decides Examples.twoReaders "sha:Test"
           [r0] [] r1 w (snd (callBlobExists "sha:Test" r0 w))
           (snd (callBlobExists "sha:Test" r1
                   (snd (callBlobExists "sha:Test" r0 w))))).
  - reflexivity.
  - eapply noneReports_cons; [apply pair_fst_snd; reflexivity
                             | discriminate | apply noneReports_nil].
  - apply pair_fst_snd. reflexivity.
Defined.

(** X8: once there is a readable binding, [blobExists] never throws; if
    every readable binding throws or answers [false], all of them throwing
    included, the answer is [false]. *)
Theorem blobExists_swallows_errors {S : Type} (m : BsMulti) (blob : BlobId)
  (w : World S) :
  readables m <> [] ->
  (exists answer w', blobExists m blob w = (Ok answer, w')) /\
  (forall w1,
     noneReports blob (readables m) w w1 ->
     blobExists m blob w = (Ok false, w1)).
Proof.
  intros Hne. unfold blobExists. rewrite (nonempty_length _ Hne). split.
  - apply existsLoop_total.
  - intros w1 Hnone.
    pose proof (existsLoop_skips blob (readables m) [] w w1 Hnone) as H.
    rewrite app_nil_r in H. rewrite H. reflexivity.
Qed.

(** Both tiers are down. *)
Lemma blobExists_swallows_errors_witness :
  fst (blobExists Examples.twoReaders "sha:Test" MoreExamples.bothDown)
  = Ok false.
Proof.
  set (w := MoreExamples.bothDown).
  set (r0 := withId 0 Examples.tier0).
  set (r1 := withId 1 Examples.tier1).
  destruct (blobExists_swallows_errors Examples.twoReaders "sha:Test" w
              ltac:(discriminate)) as [_ Hfalse].
  rewrite (Hfalse (snd (callBlobExists "sha:Test" r1
                          (snd (callBlobExists "sha:Test" r0 w))))).
  - reflexivity.
  - eapply noneReports_cons; [apply pair_fst_snd; reflexivity
                             | discriminate |].
    eapply noneReports_cons; [apply pair_fst_snd; reflexivity
                             | discriminate | apply noneReports_nil].
Defined.

Section HotSwapInvariant.

Context {S : Type}.

Lemma invoke_methods {A : Type} (r : Ref) (c : Call)
  (method : Bs S -> S -> Result A * S) (w : World S) (r' : Ref) :
  methods (heap (snd (invoke r c method w)) r') = methods (heap w r').
Proof.
  unfold invoke.
  destruct (method (methods (heap w r)) (fields (heap w r))) as [res s'].
  simpl. unfold upd. destruct (Nat.eqb r' r) eqn:E; [|reflexivity].
  apply Nat.eqb_eq in E. subst r'. reflexivity.
Qed.

Lemma allFail_methods (blob : BlobId) options rs (w : World S) errors w1
  (r' : Ref) :
  allFail (callGetBlob blob options) rs w errors w1 ->
  methods (heap w1 r') = methods (heap w r').
Proof.
  intros Hfail.
  induction Hfail as [w|r rest w e w1 es w2 Hcall Hrest IH]; [reflexivity|].
  rewrite IH.
  pose proof (invoke_methods (bs r) (CallGetBlob (bs r) blob options)
                (fun v => bs_getBlob v blob options) w r') as Hm.
  unfold callGetBlob in Hcall. rewrite Hcall in Hm. exact Hm.
Qed.

Lemma callAll_setBlob_methods (content : Content) targets (w : World S)
  rs w' (r' : Ref) :
  callAll (map (callSetBlob content) targets) w = (Ok rs, w') ->
  methods (heap w' r') = methods (heap w r').
Proof.
  revert w rs. induction targets as [|t ts IH]; intros w rs Hall.
  - simpl in Hall. injection Hall as _ <-. reflexivity.
  - simpl in Hall. unfold bind, settle in Hall.
    destruct (callSetBlob content t w) as [r0 w1] eqn:E1.
    destruct (callAll (map (callSetBlob content) ts) w1)
      as [[rs'|e] w2] eqn:E2; [|discriminate Hall].
    injection Hall as _ <-. rewrite (IH w1 rs' E2).
    pose proof (invoke_methods (bs t) (CallSetBlob (bs t) content)
                  (fun v => bs_setBlob v content) w r') as Hm.
    unfold callSetBlob in E1. rewrite E1 in Hm. exact Hm.
Qed.

(** One cache write: the store behind [ref] keeps its methods; it reports
    the blob if it was the one written to, or reported it before. *)
Lemma callSetBlob_caches (blob : BlobId) (content : Content) (v : Bs S)
  (ref : Ref) (b : BsMultiBs) (w : World S) :
  cachesBlob blob content v ->
  methods (heap w ref) = v ->
  methods (heap (snd (callSetBlob content b w)) ref) = v /\
  (bs b = ref \/
   fst (bs_blobExists v blob (fields (heap w ref))) = Ok true ->
   fst (bs_blobExists v blob
          (fields (heap (snd (callSetBlob content b w)) ref))) = Ok true).
Proof.
  intros Hcontract Hv. split.
  - unfold callSetBlob. rewrite invoke_methods. exact Hv.
  - unfold callSetBlob, invoke.
    destruct (bs_setBlob (methods (heap w (bs b))) content
                (fields (heap w (bs b)))) as [res s'] eqn:E.
    simpl. unfold upd. destruct (Nat.eqb ref (bs b)) eqn:Href.
    + apply Nat.eqb_eq in Href. subst ref. simpl. intros _.
      rewrite Hv in E.
      destruct (Hcontract (fields (heap w (bs b))))
        as (p & s'' & Hset & Hexists).
      rewrite Hset in E. injection E as _ <-. exact Hexists.
    + apply Nat.eqb_neq in Href. intros [Heq | Hold]; [congruence | exact Hold].
Qed.

Lemma hotSwap_caches (blob : BlobId) (content : Content) (v : Bs S)
  (ref : Ref) (targets : list BsMultiBs) (w : World S) rs w' :
  cachesBlob blob content v ->
  methods (heap w ref) = v ->
  callAll (map (callSetBlob content) targets) w = (Ok rs, w') ->
  (exists b, In b targets /\ bs b = ref) \/
  fst (bs_blobExists v blob (fields (heap w ref))) = Ok true ->
  fst (bs_blobExists v blob (fields (heap w' ref))) = Ok true.
Proof.
  intros Hcontract. revert w rs.
  induction targets as [|b rest IH]; intros w rs Hv Hall Hgood.
  - simpl in Hall. injection Hall as _ <-.
    destruct Hgood as [(b & [] & _) | Hold]. exact Hold.
  - simpl in Hall. unfold bind, settle in Hall.
    destruct (callSetBlob content b w) as [r w1] eqn:E1.
    destruct (callAll (map (callSetBlob content) rest) w1)
      as [[rs'|e] w2] eqn:E2; [|discriminate Hall].
    injection Hall as _ <-.
    destruct (callSetBlob_caches blob content v ref b w Hcontract Hv)
      as [Hv1 Hstep].
    rewrite E1 in Hv1, Hstep. simpl in Hv1, Hstep.
    apply (IH w1 rs' Hv1 E2).
    destruct Hgood as [(b0 & [-> | Hin] & Hb0) | Hold].
    + right. apply Hstep. left. exact Hb0.
    + left. exists b0. split; assumption.
    + right. apply Hstep. right. exact Hold.
Qed.

(** What [getBlob] does once a binding has answered, with the world the
    hot-swap writes leave. *)
Lemma getBlob_served_writes (m : BsMulti) blob options (w : World S)
  result r errors w1 :
  tryReadables (callGetBlob blob options) (readables m) [] w
  = (Ok (Some (result, r), errors), w1) ->
  exists rs w2,
    callAll (map (callSetBlob (fst result))
               (hotSwapTargets m (Js.nullish (id r) ""))) w1 = (Ok rs, w2) /\
    getBlob m blob options w = (Ok result, w2).
Proof.
  intros Htry. unfold getBlob.
  destruct (List.length (readables m) =? 0)%nat eqn:Hlen.
  - apply length_zero_nil in Hlen. rewrite Hlen in Htry.
    simpl in Htry. discriminate.
  - unfold bind at 1. rewrite Htry.
    destruct (0 <? List.length (writables m))%nat eqn:Hw.
    + destruct (callAll_setBlob (fst result)
                  (hotSwapTargets m (Js.nullish (id r) "")) w1)
        as (rs & w2 & E & _ & _).
      exists rs, w2. split; [exact E|]. unfold bind. rewrite E. reflexivity.
    + apply Nat.ltb_ge in Hw.
      assert (Hnil : writables m = [])
        by (destruct (writables m); [reflexivity | simpl in Hw; lia]).
      unfold hotSwapTargets. rewrite Hnil. simpl.
      exists [], w1. split; reflexivity.
Qed.

End HotSwapInvariant.

Section BsMemContract.

Variable hsh : Content -> BlobId.

Lemma find_app_miss {A : Type} (f : A -> bool) (l1 l2 : list A) :
  List.find f l1 = None -> List.find f (l1 ++ l2) = List.find f l2.
Proof.
  induction l1 as [|x xs IH]; simpl; [reflexivity|].
  destruct (f x); [discriminate | exact IH].
Qed.

(** The reference store keeps the contract of a content-addressed store. *)
Lemma bsMem_caches (content : Content) :
  cachesBlob (hsh content) content (BsMem.bsMem hsh).
Proof.
  intros s. simpl. unfold BsMem.setBlob, BsMem.blobExists.
  destruct (BsMem.find (hsh content) s) as [existing|] eqn:Hfind.
  - exists (snd existing), s. split; [reflexivity|].
    rewrite Hfind. reflexivity.
  - eexists. eexists. split; [reflexivity|].
    unfold BsMem.find in *. simpl.
    destruct (List.find (fun kv => (fst kv =? hsh content)%string)
                (BsMem.table s)) eqn:Hf; [discriminate|].
    rewrite (find_app_miss _ _ _ Hf). simpl.
    rewrite String.eqb_refl. reflexivity.
Qed.

End BsMemContract.

(** X9: let [getBlob] be answered with [content], and let a hot-swap
    target wrap a store that takes [content] and from then on reports the
    blob asked for, as a content-addressed store does when the content is
    the whole blob.  Then after [getBlob] that target reports the blob. *)
Theorem hot_swap_leaves_blob_in_cache {S : Type} (m : BsMulti)
  (blob : BlobId) (options : option DownloadBlobOptions)
  (pre post : list BsMultiBs) (r b : BsMultiBs) (errors : list Error)
  (w w1 w2 : World S) (content : Content) (properties : BlobProperties) :
  readables m = pre ++ r :: post ->
  allFail (callGetBlob blob options) pre w errors w1 ->
  callGetBlob blob options r w1 = (Ok (content, properties), w2) ->
  In b (hotSwapTargets m (Js.nullish (id r) "")) ->
  cachesBlob blob content (methods (heap w (bs b))) ->
  exists w3,
    getBlob m blob options w = (Ok (content, properties), w3) /\
    fst (callBlobExists blob b w3) = Ok true.
Proof.
  intros Hrs Hfail Hr Hin Hcontract.
  pose proof (tryReadables_first_success _ pre r post w errors w1 _ w2 []
                Hfail Hr) as Htry.
  rewrite <- Hrs in Htry.
  destruct (getBlob_served_writes m blob options w _ r _ w2 Htry)
    as (rs & w3 & Hall & Hget).
  exists w3. split; [exact Hget|].
  assert (Hv2 : methods (heap w2 (bs b)) = methods (heap w (bs b))).
  { pose proof (invoke_methods (bs r) (CallGetBlob (bs r) blob options)
                  (fun v => bs_getBlob v blob options) w1 (bs b)) as Hm.
    unfold callGetBlob in Hr. rewrite Hr in Hm. simpl in Hm.
    rewrite Hm. eapply allFail_methods, Hfail. }
  assert (Hv3 : methods (heap w3 (bs b)) = methods (heap w (bs b))).
  { rewrite (callAll_setBlob_methods content _ w2 rs w3 (bs b) Hall).
    exact Hv2. }
  unfold callBlobExists, invoke. rewrite Hv3.
  pose proof (hotSwap_caches blob content (methods (heap w (bs b))) (bs b)
                _ w2 rs w3 Hcontract Hv2 Hall
                (or_introl (ex_intro _ b (conj Hin eq_refl)))) as Hexists.
  destruct (bs_blobExists (methods (heap w (bs b))) blob
              (fields (heap w3 (bs b)))) as [res s'].
  exact Hexists.
Qed.

(** The scenario of the hot-swap tests: the cache is empty, the remote
    holds the blob; afterwards the cache holds it. *)
Lemma hot_swap_leaves_blob_in_cache_witness :
  exists w3,
    getBlob Examples.example "sha:Test" None
      (Examples.emptyCacheRemoteHolds ["Test"])
    = (Ok ("Test", {| blobId := "sha:Test"; size := 4; createdAt := 0 |}),
       w3) /\
    fst (callBlobExists "sha:Test" (withId 0 Examples.bsLocal) w3) = Ok true.
Proof.
  set (w := Examples.emptyCacheRemoteHolds ["Test"]).
  set (r0 := withId 0 Examples.bsLocal).
  set (r1 := withId 1 Examples.bsRemote).
  apply (hot_swap_leaves_blob_in_cache Examples.example "sha:Test" None
           [r0] [] r1 r0 [blobNotFound "sha:Test"] w
           (snd (callGetBlob "sha:Test" None r0 w))
           (snd (callGetBlob "sha:Test" None r1
                   (snd (callGetBlob "sha:Test" None r0 w))))).
  - reflexivity.
  - run_allFail.
  - apply pair_fst_snd. reflexivity.
  - left. reflexivity.
  - apply (bsMem_caches BsMem.digest "Test").
Defined.

(* ====================================================================== *)
(** ** Further properties of [listBlobs] *)

Section ListingFacts.

Context {S : Type}.

Lemma callListBlobs_calls options (b : BsMultiBs) (w : World S) :
  calls (snd (callListBlobs options b w))
  = calls w ++ [CallListBlobs (bs b) options].
Proof. apply invoke_calls. Qed.

Lemma collectAll_all_fail fuel rs pre bm (w : World S) errors w1 :
  (0 < fuel)%nat ->
  allFail (callListBlobs (pageRequest pre None)) rs w errors w1 ->
  collectAll fuel rs pre bm w = Some (bm, w1).
Proof.
  intros Hfuel Hfail.
  induction Hfail as [w|r rest w e w1 es w2 Hcall Hrest IH]; simpl;
    [reflexivity|].
  destruct fuel as [|fuel]; [lia|]. simpl. rewrite Hcall. exact IH.
Qed.

Lemma paginate_nil (options : option ListBlobsOptions) :
  paginate [] options = {| blobs := []; nextToken := None |}.
Proof.
  unfold paginate. cbv zeta. f_equal.
  - unfold Js.slice. rewrite skipn_nil, firstn_nil. reflexivity.
  - match goal with |- (if ?c then _ else _) = _ => destruct c end;
      [|reflexivity].
    unfold Js.slice. rewrite skipn_nil, firstn_nil. reflexivity.
Qed.

Lemma addPage_keeps_entries bm page (kv : string * BlobProperties) :
  In kv bm -> In kv (addPage bm page).
Proof.
  revert bm. induction page as [|blob rest IH]; intros bm Hin; [exact Hin|].
  rewrite addPage_cons. apply IH.
  destruct (Js.mapHas bm (blobId blob)); [exact Hin|].
  apply in_or_app. left. exact Hin.
Qed.

Lemma collectStore_calls fuel readable pre token bm (w : World S) bm' w' :
  collectStore fuel readable pre token bm w = Some (bm', w') ->
  exists l,
    calls w' = calls w ++ l /\
    Forall (fun c => exists t,
              c = CallListBlobs (bs readable) (pageRequest pre t)) l.
Proof.
  revert token bm w. induction fuel as [|fuel IH]; intros token bm w; simpl;
    [discriminate|].
  pose proof (callListBlobs_calls (pageRequest pre token) readable w) as Hc.
  destruct (callListBlobs (pageRequest pre token) readable w)
    as [[result|e] w1]; simpl in Hc.
  - destruct (Js.truthyOpt (nextToken result)).
    + intros H. destruct (IH _ _ _ H) as (l & Hl & Hall).
      exists (CallListBlobs (bs readable) (pageRequest pre token) :: l).
      split.
      * rewrite Hl, Hc, <- app_assoc. reflexivity.
      * constructor; [exists token; reflexivity | exact Hall].
    + intros H. injection H as _ <-.
      exists [CallListBlobs (bs readable) (pageRequest pre token)].
      split; [exact Hc|]. constructor; [exists token; reflexivity|constructor].
  - intros H. injection H as _ <-.
    exists [CallListBlobs (bs readable) (pageRequest pre token)].
    split; [exact Hc|]. constructor; [exists token; reflexivity|constructor].
Qed.

Lemma collectAll_calls fuel rs pre bm (w : World S) bm' w' :
  collectAll fuel rs pre bm w = Some (bm', w') ->
  exists l, calls w' = calls w ++ l /\ Forall (asksTier rs pre) l.
Proof.
  revert bm w. induction rs as [|r rest IH]; intros bm w; simpl.
  - intros H. injection H as _ <-. exists []. rewrite app_nil_r.
    split; [reflexivity | constructor].
  - destruct (collectStore fuel r pre None bm w) as [[bm1 w1]|] eqn:E;
      [|discriminate].
    intros H. destruct (collectStore_calls _ _ _ _ _ _ _ _ E)
      as (l1 & Hl1 & Hall1).
    destruct (IH _ _ H) as (l2 & Hl2 & Hall2).
    exists (l1 ++ l2). split.
    + rewrite Hl2, Hl1, <- app_assoc. reflexivity.
    + apply Forall_app. split.
      * eapply Forall_impl; [|exact Hall1].
        intros c [t ->]. exists r, t. split; [left; reflexivity|reflexivity].
      * eapply Forall_impl; [|exact Hall2].
        intros c (r0 & t & Hin & ->). exists r0, t.
        split; [right; exact Hin | reflexivity].
Qed.

Lemma nodup_map_inj {A B : Type} (f : A -> B) (l : list A) (a b : A) :
  NoDup (map f l) -> In a l -> In b l -> f a = f b -> a = b.
Proof.
  induction l as [|x xs IH]; simpl; [contradiction|].
  intros Hnd [-> | Ha] [-> | Hb] Heq; inversion Hnd as [|? ? Hnotin Hnd'];
    subst.
  - reflexivity.
  - exfalso. apply Hnotin. rewrite Heq. apply in_map, Hb.
  - exfalso. apply Hnotin. rewrite <- Heq. apply in_map, Ha.
  - apply IH; assumption.
Qed.

End ListingFacts.

(** X10: when the listing of every readable binding throws, [listBlobs]
    does not throw: it returns an empty listing without a token. *)
Theorem listBlobs_all_tiers_failing_is_empty {S : Type}
  (localeCompare : string -> string -> Z) (fuel : nat) (m : BsMulti)
  (options : option ListBlobsOptions) (w w1 : World S)
  (errors : list Error) :
  readables m <> [] ->
  (0 < fuel)%nat ->
  allFail (callListBlobs (pageRequest (prefixOf options) None))
    (readables m) w errors w1 ->
  listBlobs localeCompare fuel m options w
  = Some (Ok {| blobs := []; nextToken := None |}, w1).
Proof.
  intros Hne Hfuel Hfail. unfold listBlobs.
  rewrite (nonempty_length _ Hne).
  rewrite (collectAll_all_fail fuel _ _ [] w errors w1 Hfuel Hfail).
  simpl. rewrite paginate_nil. reflexivity.
Qed.

(** Both tiers are down. *)
Lemma listBlobs_all_tiers_failing_is_empty_witness :
  option_map fst
    (listBlobs BsMem.compareIds 1 Examples.twoReaders None
       MoreExamples.bothDown)
  = Some (Ok {| blobs := []; nextToken := None |}).
Proof.
  set (w := MoreExamples.bothDown).
  set (r0 := withId 0 Examples.tier0).
  set (r1 := withId 1 Examples.tier1).
  rewrite (listBlobs_all_tiers_failing_is_empty BsMem.compareIds 1
             Examples.twoReaders None w
             (snd (callListBlobs (pageRequest None None) r1
                     (snd (callListBlobs (pageRequest None None) r0 w))))
             [mkError "Check failed"; mkError "Check failed"]
             ltac:(discriminate) ltac:(lia) ltac:(run_allFail)).
  reflexivity.
Defined.

(** X11: what the higher-priority tiers have listed is never replaced:
    every blob in the map after the first tiers is in the merged listing
    with the very properties it was listed with, and it is the only blob of
    the listing with its id, whatever the lower tiers list under that id. *)
Theorem listing_keeps_higher_tier_properties {S : Type}
  (localeCompare : string -> string -> Z) (fuel : nat) (m : BsMulti)
  (options : option ListBlobsOptions) (w w0 wF : World S)
  (before rest : list BsMultiBs) (bm0 bmF : Js.Map BlobProperties) :
  readables m = before ++ rest ->
  readables m <> [] ->
  collectAll fuel before (prefixOf options) [] w = Some (bm0, w0) ->
  collectAll fuel rest (prefixOf options) bm0 w0 = Some (bmF, wF) ->
  listBlobs localeCompare fuel m options w
  = Some (Ok (paginate (sortBlobs localeCompare (Js.mapValues bmF)) options),
          wF) /\
  forall blob,
    In blob (Js.mapValues bm0) ->
    In blob (sortBlobs localeCompare (Js.mapValues bmF)) /\
    forall other,
      In other (sortBlobs localeCompare (Js.mapValues bmF)) ->
      blobId other = blobId blob -> other = blob.
Proof.
  intros Hrs Hne Hbefore Hrest.
  assert (Hall : collectAll fuel (readables m) (prefixOf options) [] w
                 = Some (bmF, wF)).
  { rewrite Hrs, collectAll_app, Hbefore. exact Hrest. }
  split.
  - unfold listBlobs. rewrite (nonempty_length _ Hne), Hall. reflexivity.
  - intros blob Hin.
    assert (Hmerged : In blob (sortBlobs localeCompare (Js.mapValues bmF))).
    { apply sort_in. unfold Js.mapValues in *.
      apply in_map_iff in Hin as (kv & <- & Hkv). apply in_map.
      eapply (collectAll_preserves (fun bm => In kv bm));
        [|exact Hkv|exact Hrest].
      intros bm page. apply addPage_keeps_entries. }
    split; [exact Hmerged|].
    intros other Hother Hid.
    eapply (nodup_map_inj blobId); [|exact Hother|exact Hmerged|exact Hid].
    eapply merged_listing_nodup, Hall.
Qed.

(** The cache and the remote both hold the blob of [a], stored at different
    moments: the listing has the cache's properties, not the remote's. *)
Lemma listing_keeps_higher_tier_properties_witness :
  exists wF,
    listBlobs BsMem.compareIds 2 Examples.example None MoreExamples.staggered
    = Some (Ok {| blobs := MoreExamples.mergedStaggered; nextToken := None |},
            wF) /\
    In {| blobId := "sha:a"; size := 1; createdAt := 1 |}
      MoreExamples.mergedStaggered /\
    fst (callGetBlobProperties "sha:a" (withId 1 Examples.bsRemote)
           MoreExamples.staggered)
    = Ok {| blobId := "sha:a"; size := 1; createdAt := 0 |}.
Proof.
  set (w := MoreExamples.staggered).
  set (r0 := withId 0 Examples.bsLocal).
  set (r1 := withId 1 Examples.bsRemote).
  destruct (option_pair_fst
              (collectAll 2 [r0] None [] w)
              MoreExamples.collectedFromCache ltac:(vm_compute; reflexivity))
    as [w0 H0].
  destruct (option_pair_fst
              (collectAll 2 [r1] None MoreExamples.collectedFromCache w0)
              MoreExamples.collectedStaggered)
    as [wF HF].
  { pose proof (collectAll_app 2 [r0] [r1] None [] w) as Happ.
    rewrite H0 in Happ. rewrite <- Happ. vm_compute. reflexivity. }
  destruct (listing_keeps_higher_tier_properties BsMem.compareIds 2
              Examples.example None w w0 wF [r0] [r1]
              MoreExamples.collectedFromCache MoreExamples.collectedStaggered
              eq_refl ltac:(discriminate) H0 HF) as [Hlist Hkeep].
  exists wF. split; [exact Hlist|]. split; [|reflexivity].
  apply (Hkeep {| blobId := "sha:a"; size := 1; createdAt := 1 |}).
  left. reflexivity.
Defined.

(** X12: every call [listBlobs] makes is a listing request to a readable
    binding, with the caller's prefix and a page size of 1000: the caller's
    page size is never passed on to a store. *)
Theorem listBlobs_asks_readables_in_chunks {S : Type}
  (localeCompare : string -> string -> Z) (fuel : nat) (m : BsMulti)
  (options : option ListBlobsOptions) (w w' : World S)
  (result : Result ListBlobsResult) :
  listBlobs localeCompare fuel m options w = Some (result, w') ->
  exists l,
    calls w' = calls w ++ l /\
    Forall (asksTier (readables m) (prefixOf options)) l.
Proof.
  unfold listBlobs.
  destruct (List.length (readables m) =? 0)%nat.
  - intros H. injection H as _ <-. exists []. rewrite app_nil_r.
    split; [reflexivity | constructor].
  - destruct (collectAll fuel (readables m) (prefixOf options) [] w)
      as [[bm w1]|] eqn:E; [|discriminate].
    intros H. injection H as _ <-. eapply collectAll_calls, E.
Qed.

(** A caller asking for pages of one blob: the stores are still asked for
    pages of 1000. *)
Lemma listBlobs_asks_readables_in_chunks_witness :
  exists w' l,
    listBlobs BsMem.compareIds 2 Examples.example (pageOptions 1 None)
      Examples.bothHolding
    = Some (Ok {| blobs :=
                    [{| blobId := "sha:a"; size := 1; createdAt := 1 |}];
                  nextToken := Some "sha:a" |}, w') /\
    calls w' = calls Examples.bothHolding ++ l /\
    Forall (asksTier (readables Examples.example) None) l.
Proof.
  set (w := Examples.bothHolding).
  destruct (option_pair_fst
              (listBlobs BsMem.compareIds 2 Examples.example
                 (pageOptions 1 None) w)
              (Ok {| blobs :=
                       [{| blobId := "sha:a"; size := 1; createdAt := 1 |}];
                     nextToken := Some "sha:a" |})
              ltac:(vm_compute; reflexivity)) as [w' Hlist].
  destruct (listBlobs_asks_readables_in_chunks BsMem.compareIds 2
              Examples.example (pageOptions 1 None) w w' _ Hlist)
    as (l & Hcalls & Hall).
  exists w', l. split; [exact Hlist|]. split; [exact Hcalls | exact Hall].
Defined.

(* ====================================================================== *)
(** ** Further properties of the pagination *)

Section PageFacts.

Lemma lastElem_none {A : Type} (l : list A) : Js.lastElem l = None -> l = [].
Proof.
  induction l as [|x xs IH]; [reflexivity|].
  destruct xs as [|y ys]; [discriminate|].
  intros H. specialize (IH H). discriminate IH.
Qed.

(** The page and the token for a page size that is not negative. *)
Lemma paginate_unfold (all : list BlobProperties)
  (options : option ListBlobsOptions) :
  0 <= maxResultsOf all options ->
  let s := Z.to_nat (startIndexOf all options) in
  let n := Z.to_nat (Z.min (startIndexOf all options + maxResultsOf all options)
                       (Z.of_nat (List.length all))
                     - startIndexOf all options) in
  blobs (paginate all options) = firstn n (skipn s all) /\
  nextToken (paginate all options)
  = if (Z.of_nat s + Z.of_nat n <? Z.of_nat (List.length all))
    then option_map blobId (Js.lastElem (firstn n (skipn s all)))
    else None.
Proof.
  intros Hmr s n.
  pose proof (startIndexOf_range all options) as Hs.
  unfold paginate. fold (maxResultsOf all options). cbv zeta.
  simpl blobs. simpl nextToken.
  rewrite slice_in_range by lia.
  fold s. fold n. split; [reflexivity|].
  replace (Z.of_nat s + Z.of_nat n)
    with (Z.min (startIndexOf all options + maxResultsOf all options)
            (Z.of_nat (List.length all))) by (unfold s, n; lia).
  reflexivity.
Qed.

End PageFacts.

(** X13: for a page size that is not negative, the page is the segment of
    the listing that starts at the start index and has at most as many
    blobs as the page size.  A token is returned only if blobs remain after
    the page; for a page size of at least 1, no token means the page runs
    to the end of the listing. *)
Theorem page_is_bounded_segment (all : list BlobProperties)
  (options : option ListBlobsOptions) :
  0 <= maxResultsOf all options ->
  exists start more,
    Z.of_nat start = startIndexOf all options /\
    (start <= List.length all)%nat /\
    skipn start all = blobs (paginate all options) ++ more /\
    Z.of_nat (List.length (blobs (paginate all options)))
    <= maxResultsOf all options /\
    (forall t, nextToken (paginate all options) = Some t -> more <> []) /\
    (1 <= maxResultsOf all options ->
     nextToken (paginate all options) = None -> more = []).
Proof.
  intros Hmr.
  pose proof (startIndexOf_range all options) as Hs.
  destruct (paginate_unfold all options Hmr) as [Hpage Htoken].
  cbv zeta in Hpage, Htoken.
  set (s := Z.to_nat (startIndexOf all options)) in *.
  set (n := Z.to_nat (Z.min (startIndexOf all options
                             + maxResultsOf all options)
                        (Z.of_nat (List.length all))
                      - startIndexOf all options)) in *.
  assert (Hlen : List.length (firstn n (skipn s all)) = n).
  { rewrite length_firstn, length_skipn. unfold n, s. lia. }
  exists s, (skipn n (skipn s all)).
  rewrite Hpage, Htoken. repeat split.
  - unfold s. lia.
  - unfold s. lia.
  - symmetry. apply firstn_skipn.
  - rewrite Hlen. unfold n. lia.
  - intros t.
    destruct (Z.of_nat s + Z.of_nat n <? Z.of_nat (List.length all)) eqn:E;
      [|discriminate].
    apply Z.ltb_lt in E. intros _ Hnil.
    apply (f_equal (@List.length _)) in Hnil.
    rewrite !length_skipn in Hnil. simpl in Hnil. lia.
  - intros Hone.
    destruct (Z.of_nat s + Z.of_nat n <? Z.of_nat (List.length all)) eqn:E.
    + apply Z.ltb_lt in E.
      destruct (Js.lastElem (firstn n (skipn s all))) eqn:Hlast;
        [discriminate|].
      apply lastElem_none in Hlast.
      apply (f_equal (@List.length _)) in Hlast.
      rewrite Hlen in Hlast. simpl in Hlast. unfold n, s in *. lia.
    + apply Z.ltb_ge in E. intros _.
      apply skipn_all2. rewrite length_skipn. lia.
Qed.

(** The second page of two, and the last page, of a listing of three. *)
Lemma page_is_bounded_segment_witness :
  exists start more,
    Z.of_nat start = 2 /\
    skipn start Examples.mergedAbc
    = blobs (paginate Examples.mergedAbc (pageOptions 2 (Some "sha:b")))
      ++ more /\
    more = [].
Proof.
  destruct (page_is_bounded_segment Examples.mergedAbc
              (pageOptions 2 (Some "sha:b")) ltac:(vm_compute; discriminate))
    as (start & more & Hstart & _ & Hsplit & _ & _ & Hend).
  exists start, more. split; [exact Hstart|]. split; [exact Hsplit|].
  apply Hend; [vm_compute; discriminate | reflexivity].
Defined.

(** X14: without options, and with options that give neither page size
    nor token, the whole listing is returned and no token; a page size of 0
    gives an empty page and no token, wherever the page starts and however
    many blobs remain. *)
Theorem paginate_edge_cases (all : list BlobProperties)
  (pre token : option string) :
  paginate all None = {| blobs := all; nextToken := None |} /\
  paginate all
    (Some {| prefix := pre; maxResults := None; continuationToken := None |})
  = {| blobs := all; nextToken := None |} /\
  paginate all
    (Some {| prefix := pre; maxResults := Some 0;
             continuationToken := token |})
  = {| blobs := []; nextToken := None |}.
Proof.
  assert (Hwhole : forall options,
            startIndexOf all options = 0 ->
            maxResultsOf all options = Z.of_nat (List.length all) ->
            paginate all options = {| blobs := all; nextToken := None |}).
  { intros options Hs Hmr.
    destruct (paginate_unfold all options ltac:(lia)) as [Hpage Htoken].
    cbv zeta in Hpage, Htoken. rewrite Hs, Hmr in Hpage, Htoken.
    rewrite Z.min_r in Hpage, Htoken by lia.
    simpl Z.to_nat in Hpage, Htoken. simpl skipn in Hpage, Htoken.
    rewrite Z.sub_0_r, Nat2Z.id, firstn_all in Hpage.
    rewrite Z.sub_0_r, Nat2Z.id in Htoken.
    rewrite Z.ltb_irrefl in Htoken.
    destruct (paginate all options) as [page t]. simpl in *.
    subst. reflexivity. }
  split; [apply Hwhole; reflexivity|]. split; [apply Hwhole; reflexivity|].
  set (options := Some {| prefix := pre; maxResults := Some 0;
                          continuationToken := token |}).
  pose proof (startIndexOf_range all options) as Hs.
  assert (Hmr0 : maxResultsOf all options = 0) by reflexivity.
  destruct (paginate_unfold all options) as [Hpage Htoken];
    [rewrite Hmr0; lia|].
  cbv zeta in Hpage, Htoken. rewrite Hmr0 in Hpage, Htoken.
  replace (Z.to_nat (Z.min (startIndexOf all options + 0)
                       (Z.of_nat (List.length all))
                     - startIndexOf all options)) with 0%nat
    in Hpage, Htoken by lia.
  simpl firstn in Hpage, Htoken. simpl Js.lastElem in Htoken.
  simpl option_map in Htoken.
  destruct (paginate all options) as [page t]. simpl in *.
  subst page. f_equal.
  rewrite Htoken. destruct (_ <? _); reflexivity.
Qed.

(* ====================================================================== *)
(** ** Further properties of [init] *)

Section InitIds.

Lemma nodup_map_injective {A B : Type} (f : A -> B) (l : list A) :
  (forall a b, f a = f b -> a = b) -> NoDup l -> NoDup (map f l).
Proof.
  intros Hinj. induction 1 as [|x xs Hnotin Hnd IH]; simpl; constructor.
  - intros Hin. apply in_map_iff in Hin as (y & Heq & Hy).
    apply Hinj in Heq. subst y. contradiction.
  - exact IH.
Qed.

End InitIds.

(** X15: after [init] every binding has an id and no two bindings share
    one, whatever ids, equal or missing, the bindings were constructed
    with. *)
Theorem init_ids_are_distinct (m : BsMulti) :
  NoDup (map id (_stores (init m))) /\
  Forall (fun b => id b <> None) (_stores (init m)).
Proof.
  split.
  - unfold init; simpl. rewrite initFrom_ids.
    apply nodup_map_injective; [|apply seq_NoDup].
    intros a b H. injection H as H. apply numberToString_inj, H.
  - apply Forall_forall. intros b Hb.
    destruct (init_has_id m b Hb) as [s Hs]. congruence.
Qed.

(* ====================================================================== *)
(** ** The socket mock *)

Section MapFacts.

Context {V : Type}.

Lemma mapGet_mapSet_same (m : Js.Map V) (key : string) (v : V) :
  mapGet (Js.mapSet m key v) key = Some v.
Proof.
  unfold mapGet. induction m as [|[k' v'] rest IH]; simpl.
  - rewrite String.eqb_refl. reflexivity.
  - destruct (k' =? key)%string eqn:E; simpl; rewrite E; [reflexivity|].
    exact IH.
Qed.

Lemma mapGet_mapSet_other (m : Js.Map V) (key key' : string) (v : V) :
  key' <> key -> mapGet (Js.mapSet m key v) key' = mapGet m key'.
Proof.
  intros Hne. unfold mapGet. induction m as [|[k' v'] rest IH]; simpl.
  - destruct (String.eqb_spec key key'); [congruence | reflexivity].
  - destruct (k' =? key)%string eqn:E; simpl.
    + apply String.eqb_eq in E. subst k'.
      destruct (String.eqb_spec key key'); [congruence | reflexivity].
    + destruct (k' =? key')%string; [reflexivity | exact IH].
Qed.

Lemma mapGet_absent (m : Js.Map V) (key : string) :
  Js.mapHas m key = false -> mapGet m key = None.
Proof.
  unfold Js.mapHas, mapGet. induction m as [|[k' v'] rest IH]; simpl;
    [reflexivity|].
  destruct (k' =? key)%string; simpl; [discriminate | exact IH].
Qed.

End MapFacts.

Section SocketFacts.

Context {L : Type}.

Lemma listeners_on (e e' : string) (l : L) (s : PeerSocketMock.State L) :
  PeerSocketMock.listeners e (PeerSocketMock.on e' l s)
  = if (e =? e')%string
    then PeerSocketMock.listeners e s ++ [l]
    else PeerSocketMock.listeners e s.
Proof.
  unfold PeerSocketMock.on, PeerSocketMock.listeners. simpl.
  destruct (String.eqb_spec e e') as [-> | Hne].
  - rewrite mapGet_mapSet_same. simpl.
    destruct (Js.mapHas (PeerSocketMock._listenersMap s) e') eqn:Hhas; simpl.
    + reflexivity.
    + rewrite mapGet_mapSet_same, (mapGet_absent _ _ Hhas). reflexivity.
  - rewrite mapGet_mapSet_other by exact Hne.
    destruct (Js.mapHas (PeerSocketMock._listenersMap s) e'); simpl;
      [reflexivity|].
    rewrite mapGet_mapSet_other by exact Hne. reflexivity.
Qed.

Lemma listeners_off (same : L -> L -> bool) (e e' : string) (l : L)
  (s : PeerSocketMock.State L) :
  PeerSocketMock.listeners e (PeerSocketMock.off same e' l s)
  = if (e =? e')%string
    then
      let found := PeerSocketMock.listeners e s in
      let index := Js.findIndex (fun x => same x l) found in
      if negb (index =? -1) then splice1 found index else found
    else PeerSocketMock.listeners e s.
Proof.
  unfold PeerSocketMock.off. cbv zeta.
  destruct (String.eqb_spec e e') as [-> | Hne].
  - destruct (negb (Js.findIndex _ (PeerSocketMock.listeners e' s) =? -1));
      [|reflexivity].
    unfold PeerSocketMock.listeners at 1. simpl.
    rewrite mapGet_mapSet_same. reflexivity.
  - destruct (negb (Js.findIndex _ (PeerSocketMock.listeners e' s) =? -1));
      [|reflexivity].
    unfold PeerSocketMock.listeners at 1. simpl.
    rewrite mapGet_mapSet_other by exact Hne. reflexivity.
Qed.

End SocketFacts.

(* ====================================================================== *)
(** ** The peer over the socket mock *)

Section PeerFacts.

Import BsPeer.

Lemma fold_call_closes (ls : list Listener) (open : bool) (rs : list nat) :
  Forall onDisconnect ls ->
  open = false \/ In (SetIsOpen false) ls ->
  fst (fold_left call ls (open, rs)) = false.
Proof.
  revert open rs. induction ls as [|l rest IH]; intros open rs Hall Hor.
  - destruct Hor as [-> | []]. reflexivity.
  - inversion Hall as [|? ? Hl Hrest]; subst. simpl.
    destruct Hl as [-> | [promise ->]]; simpl.
    + apply IH; [exact Hrest | left; reflexivity].
    + apply IH; [exact Hrest|].
      destruct Hor as [-> | [Hbad | Hin]];
        [left; reflexivity | discriminate Hbad | right; exact Hin].
Qed.

Lemma fold_call_keeps (ls : list Listener) (open : bool) (rs : list nat)
  (promise : nat) :
  In promise rs -> In promise (snd (fold_left call ls (open, rs))).
Proof.
  revert open rs. induction ls as [|l rest IH]; intros open rs Hin;
    [exact Hin|].
  simpl. destruct l as [o | q]; simpl; apply IH; [exact Hin|].
  apply in_or_app. left. exact Hin.
Qed.

Lemma fold_call_resolves (ls : list Listener) (open : bool) (rs : list nat)
  (promise : nat) :
  In (Resolve promise) ls ->
  In promise (snd (fold_left call ls (open, rs))).
Proof.
  revert open rs. induction ls as [|l rest IH]; intros open rs Hin;
    [contradiction|].
  simpl. destruct Hin as [-> | Hin].
  - simpl. apply fold_call_keeps, in_or_app. right. left. reflexivity.
  - destruct (call (open, rs) l) as [open' rs']. apply IH, Hin.
Qed.

Lemma create_consistent (bs0 : Ref) : consistent (create bs0).
Proof.
  unfold consistent, create; simpl. repeat split; try constructor.
  discriminate.
Qed.

(** What [init] leaves. *)
Lemma init_spec (p : State) :
  snd (init p) = Resolved /\
  isOpen (fst (init p)) = true /\
  PeerSocketMock.connected (_socket (fst (init p))) = true /\
  PeerSocketMock.disconnected (_socket (fst (init p))) = false /\
  (forall e,
     PeerSocketMock.listeners e (_socket (fst (init p)))
     = PeerSocketMock.listeners e (_socket p) ++
       (if (e =? "connect")%string then [SetIsOpen true]
        else if (e =? "disconnect")%string then [SetIsOpen false]
        else [])).
Proof.
  unfold init. cbv zeta. unfold PeerSocketMock.connect.
  destruct (fold_left call _ _) as [open resolved]. simpl.
  repeat split. intros e.
  change (PeerSocketMock.listeners e
            (PeerSocketMock.on "disconnect" (SetIsOpen false)
               (PeerSocketMock.on "connect" (SetIsOpen true) (_socket p)))
          = PeerSocketMock.listeners e (_socket p) ++
            (if (e =? "connect")%string then [SetIsOpen true]
             else if (e =? "disconnect")%string then [SetIsOpen false]
             else [])).
  rewrite !listeners_on.
  destruct (String.eqb_spec e "disconnect") as [-> | Hd]; simpl.
  - reflexivity.
  - destruct (e =? "connect")%string;
      [reflexivity | symmetry; apply app_nil_r].
Qed.

Lemma init_consistent (p : State) : consistent p -> consistent (fst (init p)).
Proof.
  intros (Hopen & Hflags & Hc & Hd & Hin).
  destruct (init_spec p) as (_ & Ho & Hcon & Hdis & Hl).
  unfold consistent. rewrite Ho, Hcon, Hdis, !Hl. simpl.
  repeat split.
  - apply Forall_app. split; [exact Hc|].
    constructor; [left; reflexivity | constructor].
  - apply Forall_app. split; [exact Hd|].
    constructor; [left; reflexivity | constructor].
  - intros _. apply in_or_app. right. left. reflexivity.
Qed.

(** What [close] leaves of a peer that is connected. *)
Lemma close_spec (p : State) :
  consistent p ->
  PeerSocketMock.connected (_socket p) = true ->
  snd (close p) = Resolved /\
  isOpen (fst (close p)) = false /\
  PeerSocketMock.connected (_socket (fst (close p))) = false /\
  PeerSocketMock.disconnected (_socket (fst (close p))) = true /\
  (forall e,
     PeerSocketMock.listeners e (_socket (fst (close p)))
     = PeerSocketMock.listeners e (_socket p) ++
       (if (e =? "disconnect")%string then [Resolve (promises p)] else [])).
Proof.
  intros (Hopen & Hflags & Hc & Hd & Hin) Hcon.
  unfold close. rewrite Hcon. cbv zeta. simpl negb. cbv iota.
  unfold PeerSocketMock.disconnect.
  rewrite listeners_on. simpl String.eqb.
  destruct (fold_left call
              (PeerSocketMock.listeners "disconnect" (_socket p)
               ++ [Resolve (promises p)]) (isOpen p, []))
    as [open resolved] eqn:E.
  assert (Ho : open = false).
  { change open with (fst (open, resolved)). rewrite <- E.
    apply fold_call_closes.
    - apply Forall_app. split; [exact Hd|].
      constructor; [right; eexists; reflexivity | constructor].
    - right. apply in_or_app. left. apply Hin, Hcon. }
  assert (Hr : In (promises p) resolved).
  { change resolved with (snd (open, resolved)). rewrite <- E.
    apply fold_call_resolves, in_or_app. right. left. reflexivity. }
  simpl. repeat split.
  - assert (Hex : existsb (Nat.eqb (promises p)) resolved = true).
    { apply existsb_exists. exists (promises p).
      split; [exact Hr | apply Nat.eqb_refl]. }
    rewrite Hex. reflexivity.
  - exact Ho.
  - intros e.
    change (PeerSocketMock.listeners e
              (PeerSocketMock.on "disconnect" (Resolve (promises p))
                 (_socket p))
            = PeerSocketMock.listeners e (_socket p) ++
              (if (e =? "disconnect")%string
               then [Resolve (promises p)] else [])).
    rewrite listeners_on.
    destruct (e =? "disconnect")%string; [reflexivity|].
    rewrite app_nil_r. reflexivity.
Qed.

Lemma close_idle (p : State) :
  PeerSocketMock.connected (_socket p) = false -> close p = (p, Resolved).
Proof. intros H. unfold close. rewrite H. reflexivity. Qed.

Lemma close_consistent (p : State) :
  consistent p -> consistent (fst (close p)).
Proof.
  intros Hp. destruct (PeerSocketMock.connected (_socket p)) eqn:Hcon.
  - destruct (close_spec p Hp Hcon) as (_ & Ho & Hc' & Hd' & Hl).
    destruct Hp as (Hopen & Hflags & Hc & Hd & Hin).
    unfold consistent. rewrite Ho, Hc', Hd', !Hl. simpl.
    repeat split.
    + rewrite app_nil_r. exact Hc.
    + apply Forall_app. split; [exact Hd|].
      constructor; [right; eexists; reflexivity | constructor].
    + discriminate.
  - rewrite (close_idle p Hcon). exact Hp.
Qed.

Lemma isReady_consistent (p : State) :
  consistent p -> consistent (fst (isReady p)).
Proof.
  intros (Hopen & Hflags & Hc & Hd & Hin).
  unfold consistent, isReady. simpl. repeat split; assumption.
Qed.

Lemma step_consistent (p : State) (op : Op) :
  consistent p -> consistent (step p op).
Proof.
  destruct op; simpl;
    [apply init_consistent | apply close_consistent
     | apply isReady_consistent].
Qed.

Lemma run_consistent (ops : list Op) (p : State) :
  consistent p -> consistent (run ops p).
Proof.
  unfold run. revert p. induction ops as [|op rest IH]; intros p Hp;
    [exact Hp|].
  simpl. apply IH, step_consistent, Hp.
Qed.

End PeerFacts.

(** X16: a peer made over a socket mock and used through [init], [close]
    and [isReady] only, in any order and number: its [isOpen] flag always
    equals the socket's [connected], and [disconnected] is its negation.
    From every such state [init] resolves and leaves the peer open, [close]
    resolves and leaves it closed, also when it was closed already, and
    [isReady] resolves if the peer is open and rejects if it is not. *)
Theorem peer_flag_mirrors_connection (bs0 : Ref) (ops : list BsPeer.Op) :
  let p := BsPeer.run ops (BsPeer.create bs0) in
  BsPeer.isOpen p = PeerSocketMock.connected (BsPeer._socket p) /\
  PeerSocketMock.disconnected (BsPeer._socket p)
  = negb (PeerSocketMock.connected (BsPeer._socket p)) /\
  (snd (BsPeer.init p) = Resolved /\
   BsPeer.isOpen (fst (BsPeer.init p)) = true /\
   PeerSocketMock.connected (BsPeer._socket (fst (BsPeer.init p))) = true) /\
  (snd (BsPeer.close p) = Resolved /\
   BsPeer.isOpen (fst (BsPeer.close p)) = false /\
   PeerSocketMock.connected (BsPeer._socket (fst (BsPeer.close p)))
   = false) /\
  snd (BsPeer.isReady p) = (if BsPeer.isOpen p then Resolved else Rejected).
Proof.
  intros p.
  assert (Hp : BsPeer.consistent p)
    by (apply run_consistent, create_consistent).
  pose proof Hp as (Hopen & Hflags & _).
  split; [exact Hopen|]. split; [exact Hflags|]. split; [|split].
  - destruct (init_spec p) as (Hs & Ho & Hc & _). repeat split; assumption.
  - destruct (PeerSocketMock.connected (BsPeer._socket p)) eqn:Hcon.
    + destruct (close_spec p Hp Hcon) as (Hs & Ho & Hc & _).
      repeat split; assumption.
    + rewrite (close_idle p Hcon). simpl. rewrite Hopen, Hcon.
      repeat split.
  - unfold BsPeer.isReady. simpl. rewrite Hopen. reflexivity.
Qed.

Section PeerListeners.

Import BsPeer.

(** One [init] followed by one [close], from a closed peer. *)
Lemma round_trip_adds_three (p : State) :
  consistent p ->
  PeerSocketMock.connected (_socket p) = false ->
  let p' := step (step p Init) Close in
  consistent p' /\
  PeerSocketMock.connected (_socket p') = false /\
  List.length (PeerSocketMock.listeners "connect" (_socket p'))
  = Datatypes.S (List.length (PeerSocketMock.listeners "connect" (_socket p)))
  /\
  List.length (PeerSocketMock.listeners "disconnect" (_socket p'))
  = Datatypes.S (Datatypes.S
      (List.length (PeerSocketMock.listeners "disconnect" (_socket p)))).
Proof.
  intros Hp Hcon p'. unfold p'. simpl step.
  pose proof (init_consistent p Hp) as Hp1.
  destruct (init_spec p) as (_ & _ & Hc1 & _ & Hl1).
  destruct (close_spec (fst (init p)) Hp1 Hc1) as (_ & _ & Hc2 & _ & Hl2).
  split; [apply close_consistent, Hp1|]. split; [exact Hc2|].
  rewrite !Hl2, !Hl1. simpl. rewrite !length_app. simpl. split; lia.
Qed.

Lemma rounds_add_up (n : nat) (p : State) :
  consistent p ->
  PeerSocketMock.connected (_socket p) = false ->
  let p' := run (List.concat (repeat [Init; Close] n)) p in
  PeerSocketMock.connected (_socket p') = false /\
  List.length (PeerSocketMock.listeners "connect" (_socket p'))
  = (List.length (PeerSocketMock.listeners "connect" (_socket p)) + n)%nat /\
  List.length (PeerSocketMock.listeners "disconnect" (_socket p'))
  = (List.length (PeerSocketMock.listeners "disconnect" (_socket p))
     + 2 * n)%nat.
Proof.
  revert p. induction n as [|n IH]; intros p Hp Hcon.
  - simpl. repeat split; [exact Hcon | lia | lia].
  - destruct (round_trip_adds_three p Hp Hcon) as (Hp1 & Hc1 & Hl1 & Hl2).
    destruct (IH _ Hp1 Hc1) as (Hc' & Hl1' & Hl2').
    cbv zeta. simpl List.concat.
    change (run (Init :: Close :: List.concat (repeat [Init; Close] n)) p)
      with (run (List.concat (repeat [Init; Close] n))
              (step (step p Init) Close)).
    split; [exact Hc'|]. rewrite Hl1', Hl2', Hl1, Hl2. split; lia.
Qed.

End PeerListeners.

(** X17: the peer never takes a listener off the socket: each of its calls
    leaves the listeners of every event in place and at most adds some at
    the end, and after [n] rounds of [init] and [close] a socket mock that
    started without listeners holds [n] listeners for [connect] and [2 n]
    for [disconnect]. *)
Theorem peer_listeners_only_grow (bs0 : Ref) :
  (forall ops op e,
     let p := BsPeer.run ops (BsPeer.create bs0) in
     exists added,
       PeerSocketMock.listeners e (BsPeer._socket (BsPeer.step p op))
       = PeerSocketMock.listeners e (BsPeer._socket p) ++ added) /\
  (forall n,
     let p :=
       BsPeer.run (List.concat (repeat [BsPeer.Init; BsPeer.Close] n))
         (BsPeer.create bs0) in
     List.length (PeerSocketMock.listeners "connect" (BsPeer._socket p)) = n /\
     List.length (PeerSocketMock.listeners "disconnect" (BsPeer._socket p))
     = (2 * n)%nat).
Proof.
  split.
  - intros ops op e p.
    assert (Hp : BsPeer.consistent p)
      by (apply run_consistent, create_consistent).
    destruct op; simpl.
    + destruct (init_spec p) as (_ & _ & _ & _ & Hl).
      eexists. apply Hl.
    + destruct (PeerSocketMock.connected (BsPeer._socket p)) eqn:Hcon.
      * destruct (close_spec p Hp Hcon) as (_ & _ & _ & _ & Hl).
        eexists. apply Hl.
      * rewrite (close_idle p Hcon). exists []. simpl.
        rewrite app_nil_r. reflexivity.
    + exists []. rewrite app_nil_r. reflexivity.
  - intros n p.
    destruct (rounds_add_up n (BsPeer.create bs0) (create_consistent bs0)
                eq_refl) as (_ & Hc & Hd).
    split; [exact Hc | exact Hd].
Qed.

(* ====================================================================== *)
(** ** The bridge and the server *)

Section RemovalFacts.

Context {L : Type}.

Lemma listeners_on_same (e : string) (l : L) (s : PeerSocketMock.State L) :
  PeerSocketMock.listeners e (PeerSocketMock.on e l s)
  = PeerSocketMock.listeners e s ++ [l].
Proof. rewrite listeners_on, String.eqb_refl. reflexivity. Qed.

Lemma listeners_on_other (e e' : string) (l : L)
  (s : PeerSocketMock.State L) :
  e <> e' ->
  PeerSocketMock.listeners e (PeerSocketMock.on e' l s)
  = PeerSocketMock.listeners e s.
Proof.
  intros Hne. rewrite listeners_on.
  destruct (String.eqb_spec e e'); [contradiction | reflexivity].
Qed.

Lemma listeners_off_other (same : L -> L -> bool) (e e' : string) (l : L)
  (s : PeerSocketMock.State L) :
  e <> e' ->
  PeerSocketMock.listeners e (PeerSocketMock.off same e' l s)
  = PeerSocketMock.listeners e s.
Proof.
  intros Hne. rewrite listeners_off.
  destruct (String.eqb_spec e e'); [contradiction | reflexivity].
Qed.

Lemma findIndexFrom_last (p : L -> bool) (found rest : list L) (l : L)
  (i : Z) :
  (forall x, In x found -> p x = false) -> p l = true ->
  Js.findIndexFrom p (found ++ l :: rest) i
  = i + Z.of_nat (List.length found).
Proof.
  intros Hnone Hl. revert i.
  induction found as [|x xs IH]; intros i; simpl.
  - rewrite Hl. lia.
  - rewrite (Hnone x (or_introl eq_refl)).
    rewrite IH by (intros y Hy; apply Hnone; right; exact Hy). lia.
Qed.

Lemma splice1_last (found rest : list L) (l : L) :
  splice1 (found ++ l :: rest) (Z.of_nat (List.length found))
  = found ++ rest.
Proof.
  unfold splice1. rewrite Nat2Z.id.
  rewrite firstn_app, Nat.sub_diag, firstn_all. simpl firstn.
  rewrite app_nil_r, skipn_app, skipn_all2 by lia. simpl app.
  replace (List.length found + 1 - List.length found)%nat with 1%nat
    by lia.
  reflexivity.
Qed.

(** [off] removes the first registration of the function. *)
Lemma listeners_off_first (same : L -> L -> bool) (e : string) (l : L)
  (s : PeerSocketMock.State L) (found rest : list L) :
  PeerSocketMock.listeners e s = found ++ l :: rest ->
  (forall x, In x found -> same x l = false) ->
  same l l = true ->
  PeerSocketMock.listeners e (PeerSocketMock.off same e l s)
  = found ++ rest.
Proof.
  intros Hs Hnone Hl. rewrite listeners_off, String.eqb_refl. cbv zeta.
  rewrite Hs. unfold Js.findIndex.
  rewrite (findIndexFrom_last _ _ _ _ 0 Hnone Hl). simpl Z.add.
  destruct (Z.eqb_spec (Z.of_nat (List.length found)) (-1)); [lia|].
  simpl negb. cbv iota. apply splice1_last.
Qed.

(** Removing a listener that was pushed last and is no other registered
    function gives the array back. *)
Lemma listeners_off_last (same : L -> L -> bool) (e : string) (l : L)
  (s s0 : PeerSocketMock.State L) :
  PeerSocketMock.listeners e s = PeerSocketMock.listeners e s0 ++ [l] ->
  (forall x, In x (PeerSocketMock.listeners e s0) -> same x l = false) ->
  same l l = true ->
  PeerSocketMock.listeners e (PeerSocketMock.off same e l s)
  = PeerSocketMock.listeners e s0.
Proof.
  intros Hs Hnone Hl.
  rewrite (listeners_off_first same e l s _ [] Hs Hnone Hl).
  apply app_nil_r.
Qed.

(** [off] of a function that is not registered changes nothing. *)
Lemma listeners_off_absent (same : L -> L -> bool) (e e' : string) (l : L)
  (s : PeerSocketMock.State L) :
  (forall x, In x (PeerSocketMock.listeners e' s) -> same x l = false) ->
  PeerSocketMock.listeners e (PeerSocketMock.off same e' l s)
  = PeerSocketMock.listeners e s.
Proof.
  intros Hnone. unfold PeerSocketMock.off. cbv zeta.
  unfold Js.findIndex. rewrite (findIndexFrom_none _ _ _ Hnone).
  reflexivity.
Qed.

Lemma mapGet_mapDelete (V : Type) (m : Js.Map V) (key : string) :
  mapGet (mapDelete m key) key = None.
Proof.
  unfold mapGet, mapDelete. induction m as [|[k v] rest IH]; simpl;
    [reflexivity|].
  destruct (k =? key)%string eqn:E; simpl; [exact IH|].
  rewrite E. exact IH.
Qed.

End RemovalFacts.

Section SocketRemoval.

Context {L : Type}.
Variable same : L -> L -> bool.
Hypothesis same_spec : forall x y, same x y = true <-> x = y.

Lemma same_refl (l : L) : same l l = true.
Proof. apply same_spec. reflexivity. Qed.

Lemma same_other (found : list L) (l : L) :
  ~ In l found -> forall x, In x found -> same x l = false.
Proof.
  intros Hnot x Hx. destruct (same x l) eqn:E; [|reflexivity].
  apply same_spec in E. subst x. contradiction.
Qed.

Lemma mapGet_mapDelete_other (V : Type) (m : Js.Map V) (key key' : string) :
  key' <> key -> mapGet (mapDelete m key) key' = mapGet m key'.
Proof.
  intros Hne. unfold mapGet, mapDelete.
  induction m as [|[k v] rest IH]; simpl; [reflexivity|].
  destruct (String.eqb_spec k key) as [-> | Hk]; simpl.
  - destruct (String.eqb_spec key key'); [congruence | exact IH].
  - destruct (k =? key')%string; [reflexivity | exact IH].
Qed.

End SocketRemoval.

(** X18 (src/bs-peer.ts, [PeerSocketMock.on], [off] and
    [removeAllListeners]).  With listener identity [same]: [off] undoes the
    [on] of a function that was not registered before; of a function
    registered twice it removes one registration only; [off] and [on] of
    one event leave the listeners of every other event alone;
    [removeAllListeners] with an event name empties that event only, and
    with no name, or with the empty string, empties every event. *)
Theorem socket_off_removes_one_registration (L : Type)
  (same : L -> L -> bool) (s : PeerSocketMock.State L) (e : string)
  (l : L) :
  (forall x y, same x y = true <-> x = y) ->
  ~ In l (PeerSocketMock.listeners e s) ->
  PeerSocketMock.listeners e
    (PeerSocketMock.off same e l (PeerSocketMock.on e l s))
  = PeerSocketMock.listeners e s /\
  PeerSocketMock.listeners e
    (PeerSocketMock.off same e l
       (PeerSocketMock.on e l (PeerSocketMock.on e l s)))
  = PeerSocketMock.listeners e s ++ [l] /\
  (forall e' l', e' <> e ->
     PeerSocketMock.listeners e' (PeerSocketMock.on e l' s)
     = PeerSocketMock.listeners e' s /\
     PeerSocketMock.listeners e' (PeerSocketMock.off same e l' s)
     = PeerSocketMock.listeners e' s) /\
  (e <> ""%string ->
   PeerSocketMock.listeners e
     (PeerSocketMock.removeAllListeners (Some e) s) = [] /\
   forall e', e' <> e ->
     PeerSocketMock.listeners e'
       (PeerSocketMock.removeAllListeners (Some e) s)
     = PeerSocketMock.listeners e' s) /\
  (forall e',
     PeerSocketMock.listeners e'
       (PeerSocketMock.removeAllListeners None s) = [] /\
     PeerSocketMock.listeners e'
       (PeerSocketMock.removeAllListeners (Some ""%string) s) = []).
Proof.
  intros Hsame Hnot. repeat split.
  - apply (listeners_off_last same e l _ s).
    + apply listeners_on_same.
    + apply (same_other same Hsame). exact Hnot.
    + apply (same_refl same Hsame).
  - apply (listeners_off_first same e l _ _ [l]).
    + rewrite !listeners_on_same, <- app_assoc. reflexivity.
    + apply (same_other same Hsame). exact Hnot.
    + apply (same_refl same Hsame).
  - apply listeners_on_other. assumption.
  - apply listeners_off_other. assumption.
  - unfold PeerSocketMock.removeAllListeners, Js.truthy.
    destruct (String.eqb_spec e ""); [contradiction|]. simpl negb.
    unfold PeerSocketMock.listeners. simpl.
    rewrite mapGet_mapDelete. reflexivity.
  - intros e' Hne.
    unfold PeerSocketMock.removeAllListeners, Js.truthy.
    destruct (String.eqb_spec e ""); [contradiction|]. simpl negb.
    unfold PeerSocketMock.listeners. simpl.
    rewrite mapGet_mapDelete_other by exact Hne. reflexivity.
Qed.

Lemma socket_off_removes_one_registration_witness :
  PeerSocketMock.listeners "connect"
    (PeerSocketMock.off Nat.eqb "connect" 7%nat
       (PeerSocketMock.on "connect" 7%nat
          (PeerSocketMock.on "connect" 7%nat
             (PeerSocketMock.on "connect" 3%nat
                (PeerSocketMock.create 0%nat)))))
  = [3%nat; 7%nat].
Proof.
  apply (socket_off_removes_one_registration nat Nat.eqb
           (PeerSocketMock.on "connect" 3%nat (PeerSocketMock.create 0%nat))
           "connect" 7%nat).
  - intros x y. apply Nat.eqb_eq.
  - vm_compute. intros [H | []]. discriminate.
Defined.

Section BridgeFacts.

Import BsPeerBridge.

Lemma same_spec (x y : Listener) : same x y = true <-> x = y.
Proof.
  destruct x as [| |c m], y as [| |c' m']; simpl;
    try (split; [discriminate | congruence]); try tauto.
  rewrite andb_true_iff, Nat.eqb_eq, String.eqb_eq.
  split; [intros [-> ->]; reflexivity | intros H; inversion H; auto].
Qed.

Lemma same_handler_refl (c : nat) (m : string) :
  same (Handler c m) (Handler c m) = true.
Proof. apply same_spec. reflexivity. Qed.

(** A handler made by a later call is none of the registered ones. *)
Lemma same_later (found : list Listener) (c bound : nat) (m : string) :
  (forall c' name, In (Handler c' name) found -> (c' < bound)%nat) ->
  (bound <= c)%nat ->
  forall x, In x found -> same x (Handler c m) = false.
Proof.
  intros Hfresh Hle x Hx. destruct x as [| |c' m']; simpl; try reflexivity.
  pose proof (Hfresh c' m' Hx).
  destruct (Nat.eqb_spec c' c); [lia | reflexivity].
Qed.

Lemma start_socket (b : State) :
  _socket (start b)
  = PeerSocketMock.on "listBlobs"
      (Handler (4 + closures b) "listBlobs")
      (PeerSocketMock.on "getBlobProperties"
         (Handler (3 + closures b) "getBlobProperties")
         (PeerSocketMock.on "blobExists"
            (Handler (2 + closures b) "blobExists")
            (PeerSocketMock.on "getBlobStream"
               (Handler (1 + closures b) "getBlobStream")
               (PeerSocketMock.on "getBlob"
                  (Handler (closures b) "getBlob")
                  (PeerSocketMock.on "disconnect" HandleDisconnect
                     (PeerSocketMock.on "connect" HandleConnect
                        (_socket b))))))).
Proof. reflexivity. Qed.

Lemma start_handlers (b : State) :
  _eventHandlers b = [] ->
  _eventHandlers (start b)
  = [("getBlob"%string, Handler (closures b) "getBlob");
     ("getBlobStream"%string, Handler (1 + closures b) "getBlobStream");
     ("blobExists"%string, Handler (2 + closures b) "blobExists");
     ("getBlobProperties"%string,
      Handler (3 + closures b) "getBlobProperties");
     ("listBlobs"%string, Handler (4 + closures b) "listBlobs")].
Proof.
  intros Hempty.
  unfold start, _registerBsMethods, bsMethods, registerEvent, withSocket.
  cbn [fold_left _eventHandlers closures _socket]. rewrite Hempty.
  reflexivity.
Qed.

Lemma start_closures (b : State) : closures (start b) = (5 + closures b)%nat.
Proof. reflexivity. Qed.

End BridgeFacts.

Ltac socket_events :=
  repeat first
    [ rewrite listeners_off_other by (assumption || discriminate)
    | rewrite listeners_on_other by (assumption || discriminate)
    | rewrite listeners_on_same ].

Ltac by_event e :=
  destruct (String.eqb_spec e "connect");
  [|destruct (String.eqb_spec e "disconnect");
    [|destruct (String.eqb_spec e "getBlob");
      [|destruct (String.eqb_spec e "getBlobStream");
        [|destruct (String.eqb_spec e "blobExists");
          [|destruct (String.eqb_spec e "getBlobProperties");
            [|destruct (String.eqb_spec e "listBlobs")]]]]]];
  try subst e.

(** X19 (src/bs-peer-bridge.ts, [start], [_registerBsMethods] and
    [registerEvent]).  [start] appends exactly one listener to each of
    seven events of the socket, the connect and disconnect handlers and one
    handler for each of the five read methods, and none to any other
    event: [setBlob], [deleteBlob] and [generateSignedUrl] are not
    bridged. *)
Theorem bridge_start_registers_reads_only (b : BsPeerBridge.State) :
  (forall e,
     exists added,
       PeerSocketMock.listeners e (BsPeerBridge._socket (BsPeerBridge.start b))
       = PeerSocketMock.listeners e (BsPeerBridge._socket b) ++ added /\
       (e = "connect"%string -> added = [BsPeerBridge.HandleConnect]) /\
       (e = "disconnect"%string -> added = [BsPeerBridge.HandleDisconnect]) /\
       (In e BsPeerBridge.bsMethods ->
        exists c,
          (BsPeerBridge.closures b <= c < 5 + BsPeerBridge.closures b)%nat /\
          added = [BsPeerBridge.Handler c e]) /\
       (~ In e ("connect"%string :: "disconnect"%string
                :: BsPeerBridge.bsMethods) -> added = [])) /\
  (forall e,
     In e ["setBlob"%string; "deleteBlob"%string;
           "generateSignedUrl"%string] ->
     PeerSocketMock.listeners e (BsPeerBridge._socket (BsPeerBridge.start b))
     = PeerSocketMock.listeners e (BsPeerBridge._socket b)).
Proof.
  split.
  - intros e. rewrite start_socket. unfold BsPeerBridge.bsMethods.
    by_event e; socket_events.
    + exists [BsPeerBridge.HandleConnect]. split; [reflexivity|].
      repeat split; try discriminate.
      * intros H; simpl in H; repeat destruct H as [H | H];
          try discriminate; contradiction.
      * intros H; exfalso; apply H; simpl; tauto.
    + exists [BsPeerBridge.HandleDisconnect]. split; [reflexivity|].
      repeat split; try discriminate.
      * intros H; simpl in H; repeat destruct H as [H | H];
          try discriminate; contradiction.
      * intros H; exfalso; apply H; simpl; tauto.
    + eexists. split; [reflexivity|].
      repeat split; try discriminate.
      * intros _. eexists. split; [|reflexivity]. lia.
      * intros H; exfalso; apply H; simpl; tauto.
    + eexists. split; [reflexivity|].
      repeat split; try discriminate.
      * intros _. eexists. split; [|reflexivity]. lia.
      * intros H; exfalso; apply H; simpl; tauto.
    + eexists. split; [reflexivity|].
      repeat split; try discriminate.
      * intros _. eexists. split; [|reflexivity]. lia.
      * intros H; exfalso; apply H; simpl; tauto.
    + eexists. split; [reflexivity|].
      repeat split; try discriminate.
      * intros _. eexists. split; [|reflexivity]. lia.
      * intros H; exfalso; apply H; simpl; tauto.
    + eexists. split; [reflexivity|].
      repeat split; try discriminate.
      * intros _. eexists. split; [|reflexivity]. lia.
      * intros H; exfalso; apply H; simpl; tauto.
    + exists []. split; [symmetry; apply app_nil_r|].
      repeat split; try contradiction.
      intros H; simpl in H; repeat destruct H as [H | H];
        try (symmetry in H; contradiction); contradiction.
  - intros e He. rewrite start_socket.
    simpl in He. destruct He as [<- | [<- | [<- | []]]];
      socket_events; reflexivity.
Qed.

Section BridgeRoundTrip.

Import BsPeerBridge.

Lemma stop_start_socket (b : State) :
  _eventHandlers b = [] ->
  _socket (stop (start b))
  = PeerSocketMock.off same "listBlobs"
      (Handler (4 + closures b) "listBlobs")
      (PeerSocketMock.off same "getBlobProperties"
         (Handler (3 + closures b) "getBlobProperties")
         (PeerSocketMock.off same "blobExists"
            (Handler (2 + closures b) "blobExists")
            (PeerSocketMock.off same "getBlobStream"
               (Handler (1 + closures b) "getBlobStream")
               (PeerSocketMock.off same "getBlob"
                  (Handler (closures b) "getBlob")
                  (PeerSocketMock.off same "disconnect" HandleDisconnect
                     (PeerSocketMock.off same "connect" HandleConnect
                        (_socket (start b)))))))).
Proof.
  intros Hempty. unfold stop. rewrite (start_handlers b Hempty).
  reflexivity.
Qed.

Lemma not_in_same (found : list Listener) (l : Listener) :
  ~ In l found -> forall x, In x found -> same x l = false.
Proof.
  intros Hnot x Hx. destruct (same x l) eqn:E; [|reflexivity].
  apply same_spec in E. subst x. contradiction.
Qed.

(** [registerEvent] pushes its handler on the event's array and one more
    closure has been made. *)
Lemma registerEvent_listeners (e e' : string) (name : option string)
  (b : State) :
  PeerSocketMock.listeners e' (_socket (registerEvent e name b))
  = if (e' =? e)%string
    then PeerSocketMock.listeners e' (_socket b)
         ++ [Handler (closures b) (methodNameOf e name)]
    else PeerSocketMock.listeners e' (_socket b).
Proof. unfold registerEvent. cbn [_socket]. apply listeners_on. Qed.

Lemma registerEvent_handler (e : string) (name : option string) (b : State) :
  mapGet (_eventHandlers (registerEvent e name b)) e
  = Some (Handler (closures b) (methodNameOf e name)).
Proof.
  unfold registerEvent. cbn [_eventHandlers]. apply mapGet_mapSet_same.
Qed.

End BridgeRoundTrip.

Lemma reRegistered_fresh : BsPeerBridge.fresh BridgeExamples.reRegistered.
Proof.
  repeat split.
  - intros e c name H.
    assert (Hs : BsPeerBridge._socket BridgeExamples.reRegistered
                 = {| PeerSocketMock._listenersMap :=
                        [("getBlob"%string,
                          [BsPeerBridge.Handler 0 "getBlob"])];
                      PeerSocketMock.connected := false;
                      PeerSocketMock.disconnected := true;
                      PeerSocketMock._bs := 0%nat |}) by reflexivity.
    rewrite Hs in H. unfold PeerSocketMock.listeners, mapGet in H.
    cbn -[String.eqb] in H.
    destruct ("getBlob" =? e)%string; cbn in H.
    + destruct H as [H | []]. inversion H. vm_compute. lia.
    + destruct H.
  - vm_compute. intros [].
  - vm_compute. intros [].
Qed.

(** X20 (src/bs-peer-bridge.ts, [start] and [stop]).  On a bridge that has
    registered nothing yet, [stop] after [start] gives every event of the
    socket the listeners it had before, and the bridge remembers no
    handler. *)
Theorem bridge_stop_undoes_start (b : BsPeerBridge.State) (e : string) :
  BsPeerBridge._eventHandlers b = [] ->
  BsPeerBridge.fresh b ->
  PeerSocketMock.listeners e
    (BsPeerBridge._socket (BsPeerBridge.stop (BsPeerBridge.start b)))
  = PeerSocketMock.listeners e (BsPeerBridge._socket b) /\
  BsPeerBridge._eventHandlers (BsPeerBridge.stop (BsPeerBridge.start b))
  = [].
Proof.
  intros Hempty (Hfresh & Hconnect & Hdisconnect).
  split; [|reflexivity].
  rewrite (stop_start_socket b Hempty), start_socket.
  by_event e; socket_events.
  - apply listeners_off_last;
      [socket_events; reflexivity
      |apply not_in_same; exact Hconnect
      |reflexivity].
  - apply listeners_off_last;
      [socket_events; reflexivity
      |apply not_in_same; exact Hdisconnect
      |reflexivity].
  - apply listeners_off_last;
      [socket_events; reflexivity
      |apply (same_later _ _ (BsPeerBridge.closures b));
         [intros c' name; apply Hfresh | lia]
      |apply same_handler_refl].
  - apply listeners_off_last;
      [socket_events; reflexivity
      |apply (same_later _ _ (BsPeerBridge.closures b));
         [intros c' name; apply Hfresh | lia]
      |apply same_handler_refl].
  - apply listeners_off_last;
      [socket_events; reflexivity
      |apply (same_later _ _ (BsPeerBridge.closures b));
         [intros c' name; apply Hfresh | lia]
      |apply same_handler_refl].
  - apply listeners_off_last;
      [socket_events; reflexivity
      |apply (same_later _ _ (BsPeerBridge.closures b));
         [intros c' name; apply Hfresh | lia]
      |apply same_handler_refl].
  - apply listeners_off_last;
      [socket_events; reflexivity
      |apply (same_later _ _ (BsPeerBridge.closures b));
         [intros c' name; apply Hfresh | lia]
      |apply same_handler_refl].
  - reflexivity.
Qed.

Lemma bridge_stop_undoes_start_witness :
  PeerSocketMock.listeners "getBlob"
    (BsPeerBridge._socket
       (BsPeerBridge.stop (BsPeerBridge.start BridgeExamples.reRegistered)))
  = [BsPeerBridge.Handler 0 "getBlob"] /\
  BsPeerBridge._eventHandlers
    (BsPeerBridge.stop (BsPeerBridge.start BridgeExamples.reRegistered))
  = [].
Proof.
  apply (bridge_stop_undoes_start BridgeExamples.reRegistered "getBlob").
  - reflexivity.
  - exact reRegistered_fresh.
Defined.

Section BridgeLeaks.

Import BsPeerBridge.

Lemma unregisterEvent_registered (e : string) (b : State) (h : Listener) :
  mapGet (_eventHandlers b) e = Some h ->
  unregisterEvent e b
  = {| _eventHandlers := mapDelete (_eventHandlers b) e;
       _socket := PeerSocketMock.off same e h (_socket b);
       _bs := _bs b;
       closures := closures b |}.
Proof. intros H. unfold unregisterEvent. rewrite H. reflexivity. Qed.

Lemma unregisterEvent_unknown (e : string) (b : State) :
  mapGet (_eventHandlers b) e = None -> unregisterEvent e b = b.
Proof. intros H. unfold unregisterEvent. rewrite H. reflexivity. Qed.

Lemma start_handlers_again (b : State) (h1 h2 h3 h4 h5 : Listener) :
  _eventHandlers b
  = [("getBlob"%string, h1); ("getBlobStream"%string, h2);
     ("blobExists"%string, h3); ("getBlobProperties"%string, h4);
     ("listBlobs"%string, h5)] ->
  _eventHandlers (start b)
  = [("getBlob"%string, Handler (closures b) "getBlob");
     ("getBlobStream"%string, Handler (1 + closures b) "getBlobStream");
     ("blobExists"%string, Handler (2 + closures b) "blobExists");
     ("getBlobProperties"%string,
      Handler (3 + closures b) "getBlobProperties");
     ("listBlobs"%string, Handler (4 + closures b) "listBlobs")].
Proof.
  intros Hhandlers.
  unfold start, _registerBsMethods, bsMethods, registerEvent, withSocket.
  cbn [fold_left _eventHandlers closures _socket]. rewrite Hhandlers.
  reflexivity.
Qed.

Lemma stop_start_start_socket (b : State) :
  _eventHandlers b = [] ->
  _socket (stop (start (start b)))
  = PeerSocketMock.off same "listBlobs"
      (Handler (9 + closures b) "listBlobs")
      (PeerSocketMock.off same "getBlobProperties"
         (Handler (8 + closures b) "getBlobProperties")
         (PeerSocketMock.off same "blobExists"
            (Handler (7 + closures b) "blobExists")
            (PeerSocketMock.off same "getBlobStream"
               (Handler (6 + closures b) "getBlobStream")
               (PeerSocketMock.off same "getBlob"
                  (Handler (5 + closures b) "getBlob")
                  (PeerSocketMock.off same "disconnect" HandleDisconnect
                     (PeerSocketMock.off same "connect" HandleConnect
                        (_socket (start (start b))))))))).
Proof.
  intros Hempty. unfold stop.
  rewrite (start_handlers_again (start b) _ _ _ _ _
             (start_handlers b Hempty)).
  reflexivity.
Qed.

Lemma earlier_after_push (found : list Listener) (c : nat) (m : string) :
  (forall c' name, In (Handler c' name) found -> (c' < c)%nat) ->
  forall c' name,
    In (Handler c' name) (found ++ [Handler c m]) -> (c' < S c)%nat.
Proof.
  intros Hfresh c' name Hin. apply in_app_or in Hin.
  destruct Hin as [Hin | [Heq | []]].
  - pose proof (Hfresh c' name Hin). lia.
  - inversion Heq. lia.
Qed.

End BridgeLeaks.

(** X21 (src/bs-peer-bridge.ts, [registerEvent] and [unregisterEvent]).
    [unregisterEvent] undoes one [registerEvent].  After two
    [registerEvent] of the same event it removes the second handler only:
    the first stays on the socket, the bridge remembers no handler for the
    event, and another [unregisterEvent] changes nothing. *)
Theorem bridge_reregistering_leaves_first_handler (b : BsPeerBridge.State)
  (e : string) (name1 name2 : option string) :
  (forall c name,
     In (BsPeerBridge.Handler c name)
       (PeerSocketMock.listeners e (BsPeerBridge._socket b)) ->
     (c < BsPeerBridge.closures b)%nat) ->
  PeerSocketMock.listeners e
    (BsPeerBridge._socket
       (BsPeerBridge.unregisterEvent e
          (BsPeerBridge.registerEvent e name1 b)))
  = PeerSocketMock.listeners e (BsPeerBridge._socket b) /\
  PeerSocketMock.listeners e
    (BsPeerBridge._socket
       (BsPeerBridge.unregisterEvent e
          (BsPeerBridge.registerEvent e name2
             (BsPeerBridge.registerEvent e name1 b))))
  = PeerSocketMock.listeners e (BsPeerBridge._socket b)
    ++ [BsPeerBridge.Handler (BsPeerBridge.closures b)
          (BsPeerBridge.methodNameOf e name1)] /\
  mapGet
    (BsPeerBridge._eventHandlers
       (BsPeerBridge.unregisterEvent e
          (BsPeerBridge.registerEvent e name2
             (BsPeerBridge.registerEvent e name1 b)))) e = None /\
  BsPeerBridge.unregisterEvent e
    (BsPeerBridge.unregisterEvent e
       (BsPeerBridge.registerEvent e name2
          (BsPeerBridge.registerEvent e name1 b)))
  = BsPeerBridge.unregisterEvent e
      (BsPeerBridge.registerEvent e name2
         (BsPeerBridge.registerEvent e name1 b)).
Proof.
  intros Hfresh.
  pose proof (registerEvent_handler e name1 b) as H1.
  pose proof (registerEvent_handler e name2
                (BsPeerBridge.registerEvent e name1 b)) as H2.
  rewrite (unregisterEvent_registered _ _ _ H1).
  rewrite (unregisterEvent_registered _ _ _ H2).
  cbn [BsPeerBridge._socket BsPeerBridge._eventHandlers].
  assert (Hforgot :
    mapGet
      (mapDelete
         (BsPeerBridge._eventHandlers
            (BsPeerBridge.registerEvent e name2
               (BsPeerBridge.registerEvent e name1 b))) e) e = None)
    by apply mapGet_mapDelete.
  split; [|split; [|split]].
  - apply listeners_off_last.
    + rewrite registerEvent_listeners, String.eqb_refl. reflexivity.
    + apply (same_later _ _ (BsPeerBridge.closures b));
        [exact Hfresh | lia].
    + apply same_handler_refl.
  - transitivity
      (PeerSocketMock.listeners e
         (BsPeerBridge._socket (BsPeerBridge.registerEvent e name1 b)));
      [|rewrite registerEvent_listeners, String.eqb_refl; reflexivity].
    apply listeners_off_last.
    + rewrite registerEvent_listeners, String.eqb_refl. reflexivity.
    + rewrite registerEvent_listeners, String.eqb_refl.
      apply (same_later _ _ (S (BsPeerBridge.closures b)));
        [|simpl; lia].
      apply earlier_after_push. exact Hfresh.
    + apply same_handler_refl.
  - exact Hforgot.
  - apply unregisterEvent_unknown. exact Hforgot.
Qed.

Lemma bridge_reregistering_leaves_first_handler_witness :
  PeerSocketMock.listeners "getBlob"
    (BsPeerBridge._socket BridgeExamples.reRegistered)
  = [BsPeerBridge.Handler 0 "getBlob"].
Proof.
  apply (bridge_reregistering_leaves_first_handler BridgeExamples.idle
           "getBlob" None None).
  intros c name H. vm_compute in H. destruct H.
Defined.

(** X22 (src/bs-peer-bridge.ts, [start] and [stop]).  On a bridge that has
    registered nothing yet, one [stop] after two [start] does not clear the
    socket: every event is left with the listeners one [start] gives it,
    while the bridge remembers no handler. *)
Theorem bridge_stop_undoes_one_start_only (b : BsPeerBridge.State)
  (e : string) :
  BsPeerBridge._eventHandlers b = [] ->
  BsPeerBridge.fresh b ->
  PeerSocketMock.listeners e
    (BsPeerBridge._socket
       (BsPeerBridge.stop (BsPeerBridge.start (BsPeerBridge.start b))))
  = PeerSocketMock.listeners e (BsPeerBridge._socket (BsPeerBridge.start b))
  /\
  BsPeerBridge._eventHandlers
    (BsPeerBridge.stop (BsPeerBridge.start (BsPeerBridge.start b))) = [].
Proof.
  intros Hempty (Hfresh & Hconnect & Hdisconnect).
  split; [|reflexivity].
  rewrite (stop_start_start_socket b Hempty).
  rewrite (start_socket (BsPeerBridge.start b)), start_closures.
  rewrite start_socket.
  by_event e; socket_events.
  - apply (listeners_off_first _ _ _ _ _ [BsPeerBridge.HandleConnect]);
      [socket_events; rewrite <- app_assoc; reflexivity
      |apply not_in_same; exact Hconnect
      |reflexivity].
  - apply (listeners_off_first _ _ _ _ _ [BsPeerBridge.HandleDisconnect]);
      [socket_events; rewrite <- app_assoc; reflexivity
      |apply not_in_same; exact Hdisconnect
      |reflexivity].
  - etransitivity; [|apply app_nil_r].
    eapply listeners_off_first;
      [socket_events; reflexivity
      |apply (same_later _ _ (5 + BsPeerBridge.closures b));
         [intros c' name Hin; apply in_app_or in Hin;
          destruct Hin as [Hin | [Heq | []]];
            [pose proof (Hfresh _ _ _ Hin); lia | inversion Heq; lia]
         |lia]
      |apply same_handler_refl].
  - etransitivity; [|apply app_nil_r].
    eapply listeners_off_first;
      [socket_events; reflexivity
      |apply (same_later _ _ (5 + BsPeerBridge.closures b));
         [intros c' name Hin; apply in_app_or in Hin;
          destruct Hin as [Hin | [Heq | []]];
            [pose proof (Hfresh _ _ _ Hin); lia | inversion Heq; lia]
         |lia]
      |apply same_handler_refl].
  - etransitivity; [|apply app_nil_r].
    eapply listeners_off_first;
      [socket_events; reflexivity
      |apply (same_later _ _ (5 + BsPeerBridge.closures b));
         [intros c' name Hin; apply in_app_or in Hin;
          destruct Hin as [Hin | [Heq | []]];
            [pose proof (Hfresh _ _ _ Hin); lia | inversion Heq; lia]
         |lia]
      |apply same_handler_refl].
  - etransitivity; [|apply app_nil_r].
    eapply listeners_off_first;
      [socket_events; reflexivity
      |apply (same_later _ _ (5 + BsPeerBridge.closures b));
         [intros c' name Hin; apply in_app_or in Hin;
          destruct Hin as [Hin | [Heq | []]];
            [pose proof (Hfresh _ _ _ Hin); lia | inversion Heq; lia]
         |lia]
      |apply same_handler_refl].
  - etransitivity; [|apply app_nil_r].
    eapply listeners_off_first;
      [socket_events; reflexivity
      |apply (same_later _ _ (5 + BsPeerBridge.closures b));
         [intros c' name Hin; apply in_app_or in Hin;
          destruct Hin as [Hin | [Heq | []]];
            [pose proof (Hfresh _ _ _ Hin); lia | inversion Heq; lia]
         |lia]
      |apply same_handler_refl].
  - reflexivity.
Qed.

Lemma bridge_stop_undoes_one_start_only_witness :
  PeerSocketMock.listeners "getBlob"
    (BsPeerBridge._socket
       (BsPeerBridge.stop
          (BsPeerBridge.start
             (BsPeerBridge.start BridgeExamples.reRegistered))))
  = [BsPeerBridge.Handler 0 "getBlob"; BsPeerBridge.Handler 2 "getBlob"] /\
  BsPeerBridge._eventHandlers
    (BsPeerBridge.stop
       (BsPeerBridge.start
          (BsPeerBridge.start BridgeExamples.reRegistered)))
  = [].
Proof.
  apply (bridge_stop_undoes_one_start_only BridgeExamples.reRegistered
           "getBlob").
  - reflexivity.
  - exact reRegistered_fresh.
Defined.

Section ServerFacts.

Import BsServer.

Lemma addTransportLayer_socket (c : nat)
  (socket : PeerSocketMock.State Listener) :
  _addTransportLayer c socket
  = (PeerSocketMock.on "generateSignedUrl"
       (Transport (7 + c) "generateSignedUrl")
       (PeerSocketMock.on "listBlobs" (Transport (6 + c) "listBlobs")
          (PeerSocketMock.on "getBlobProperties"
             (Transport (5 + c) "getBlobProperties")
             (PeerSocketMock.on "blobExists"
                (Transport (4 + c) "blobExists")
                (PeerSocketMock.on "deleteBlob"
                   (Transport (3 + c) "deleteBlob")
                   (PeerSocketMock.on "getBlobStream"
                      (Transport (2 + c) "getBlobStream")
                      (PeerSocketMock.on "getBlob"
                         (Transport (1 + c) "getBlob")
                         (PeerSocketMock.on "setBlob"
                            (Transport c "setBlob") socket))))))),
     (8 + c)%nat).
Proof. reflexivity. Qed.

Lemma addSocket_eq (socket : Ref) (srv : State) (sockets : Sockets) :
  addSocket socket srv sockets
  = ({| _sockets := _sockets srv ++ [socket]; _bs := _bs srv;
        closures := (8 + closures srv)%nat |},
     fun r =>
       if Nat.eqb r socket
       then fst (_addTransportLayer (closures srv) (sockets socket))
       else sockets r).
Proof. reflexivity. Qed.

Lemma filter_others (socket : Ref) (l : list Ref) :
  ~ In socket l ->
  filter (fun s => negb (Nat.eqb s socket)) l = l.
Proof.
  induction l as [|x xs IH]; intros Hnot; simpl; [reflexivity|].
  destruct (Nat.eqb_spec x socket) as [-> | Hne]; simpl.
  - exfalso. apply Hnot. left. reflexivity.
  - rewrite IH by (intros H; apply Hnot; right; exact H). reflexivity.
Qed.

End ServerFacts.

(** X23 (src/bs-server.ts, [addSocket], [_addTransportLayer] and
    [removeSocket]).  [addSocket] appends one listener to each of the eight
    method events of the socket, touches no other event and no other
    socket, and lists the socket; [removeSocket] takes every listing of the
    socket off the list, so that after adding a socket that was not listed
    and removing it the list is as before, while the eight listeners stay
    registered on the socket. *)
Theorem server_remove_socket_keeps_listeners (srv : BsServer.State)
  (sockets : BsServer.Sockets) (socket : Ref) :
  (forall key,
     In key BsServer.transportKeys ->
     exists c,
       (BsServer.closures srv <= c < 8 + BsServer.closures srv)%nat /\
       PeerSocketMock.listeners key
         (snd (BsServer.addSocket socket srv sockets) socket)
       = PeerSocketMock.listeners key (sockets socket)
         ++ [BsServer.Transport c key]) /\
  (forall e,
     ~ In e BsServer.transportKeys ->
     PeerSocketMock.listeners e
       (snd (BsServer.addSocket socket srv sockets) socket)
     = PeerSocketMock.listeners e (sockets socket)) /\
  (forall r,
     r <> socket ->
     snd (BsServer.addSocket socket srv sockets) r = sockets r) /\
  BsServer._sockets (fst (BsServer.addSocket socket srv sockets))
  = BsServer._sockets srv ++ [socket] /\
  BsServer._bs (fst (BsServer.addSocket socket srv sockets))
  = BsServer._bs srv /\
  ~ In socket
      (BsServer._sockets
         (BsServer.removeSocket socket
            (fst (BsServer.addSocket socket srv sockets)))) /\
  (~ In socket (BsServer._sockets srv) ->
   BsServer._sockets
     (BsServer.removeSocket socket
        (fst (BsServer.addSocket socket srv sockets)))
   = BsServer._sockets srv).
Proof.
  rewrite addSocket_eq. cbn [fst snd]. rewrite Nat.eqb_refl.
  rewrite addTransportLayer_socket. cbn [fst].
  split; [|split; [|split; [|split; [reflexivity|split;
    [reflexivity|split]]]]].
  - intros key Hkey. unfold BsServer.transportKeys in Hkey. simpl in Hkey.
    repeat (destruct Hkey as [<- | Hkey];
            [socket_events; eexists; split; [|reflexivity]; lia|]).
    destruct Hkey.
  - intros e He. unfold BsServer.transportKeys in He.
    repeat (rewrite listeners_on_other
              by (intros ->; apply He; simpl; tauto)).
    reflexivity.
  - intros r Hne. destruct (Nat.eqb_spec r socket); [contradiction|].
    reflexivity.
  - unfold BsServer.removeSocket. cbn [BsServer._sockets].
    intros Hin. apply filter_In in Hin. destruct Hin as [_ Hin].
    rewrite Nat.eqb_refl in Hin. discriminate.
  - intros Hnot. unfold BsServer.removeSocket. cbn [BsServer._sockets].
    rewrite filter_app, filter_others by exact Hnot. simpl.
    rewrite Nat.eqb_refl. simpl. apply app_nil_r.
Qed.
